(** * TOMT discovery pipeline: classifier, extractor and catalog store

    A shallow embedding of the scraper ([tomt/scrapers/reddit.py]), the
    parser ([tomt/services/parser.py]) and the store
    ([tomt/storage/database.py]), with the properties of the pipeline
    stated over it.

    Conventions of the embedding:
    - a Python [str] is a [string] whose characters are code points below
      256 (Latin-1); the character predicates below are those of CPython
      on that range;
    - Python [int] is [Z]; [datetime] is an instant counted in seconds;
    - [Optional[T]] is [option T];
    - a table with a primary key is a [gmap] from the key to its row. *)

From Stdlib Require Import ZArith QArith Ascii String List Bool Lia.
From stdpp Require Import base option list gmap strings fin_maps pretty sorting.

Local Open Scope string_scope.
Local Open Scope Z_scope.

(** ** Python string primitives on Latin-1 text *)

Module PyStr.

Definition code (c : ascii) : N := N_of_ascii c.

Definition between (lo hi : N) (c : ascii) : bool :=
  ((lo <=? code c) && (code c <=? hi))%N.

(** [chr.lower()]: the three upper-case blocks of Latin-1 move up by 32. *)
Definition lower_char (c : ascii) : ascii :=
  if between 65 90 c || between 192 214 c || between 216 222 c
  then ascii_of_N (code c + 32)
  else c.

(** [chr.isalnum()]. *)
Definition isalnum (c : ascii) : bool :=
  between 48 57 c || between 65 90 c || between 97 122 c
  || between 170 170 c || between 178 179 c || between 181 181 c
  || between 185 186 c || between 188 190 c || between 192 214 c
  || between 216 246 c || between 248 255 c.

(** [chr.isspace()], also the class [\s] of [re]. *)
Definition isspace (c : ascii) : bool :=
  between 9 13 c || between 28 32 c || between 133 133 c || between 160 160 c.

(** [\w] of [re] on a str pattern: alphanumeric or underscore. *)
Definition isword (c : ascii) : bool :=
  isalnum c || between 95 95 c.

(** [\d] of [re] on a str pattern. *)
Definition isdecimal (c : ascii) : bool := between 48 57 c.

Fixpoint map_chars (f : ascii -> ascii) (s : string) : string :=
  match s with
  | EmptyString => EmptyString
  | String c s' => String (f c) (map_chars f s')
  end.

(** [s.lower()] on Latin-1 text, where it works character by character and
    keeps the length.  (Beyond Latin-1 [str.lower] can lengthen a text and
    lower-cases a capital sigma by its context; such text is outside this
    embedding.) *)
Definition lower (s : string) : string := map_chars lower_char s.

(** [s.startswith(p)]. *)
Fixpoint startswith (p s : string) : bool :=
  match p, s with
  | EmptyString, _ => true
  | String a p', String b s' => Ascii.eqb a b && startswith p' s'
  | String _ _, EmptyString => false
  end.

(** [p in s]. *)
Fixpoint contains (p s : string) : bool :=
  startswith p s ||
  match s with
  | EmptyString => false
  | String _ s' => contains p s'
  end.

(** [s.split(sep)] for a non-empty [sep]: occurrences are taken leftmost
    first and do not overlap.  [skip] counts the characters of the
    separator just matched that are still to be passed over, [cur] is the
    piece under construction. *)
Fixpoint split_from (sep : string) (skip : nat) (cur : string) (s : string)
  : list string :=
  match s with
  | EmptyString => [cur]
  | String c s' =>
      match skip with
      | S k => split_from sep k cur s'
      | O =>
          if startswith sep s
          then cur :: split_from sep (String.length sep - 1) EmptyString s'
          else split_from sep O (cur ++ String c EmptyString) s'
      end
  end.

Definition split (sep s : string) : list string :=
  split_from sep O EmptyString s.

Fixpoint lstrip (s : string) : string :=
  match s with
  | String c s' => if isspace c then lstrip s' else s
  | EmptyString => EmptyString
  end.

Fixpoint rstrip (s : string) : string :=
  match s with
  | EmptyString => EmptyString
  | String c s' =>
      match rstrip s' with
      | EmptyString => if isspace c then EmptyString else String c EmptyString
      | r => String c r
      end
  end.

(** [s.strip()]. *)
Definition strip (s : string) : string := rstrip (lstrip s).

(** [sep.join(parts)]. *)
Fixpoint join (sep : string) (parts : list string) : string :=
  match parts with
  | [] => EmptyString
  | [p] => p
  | p :: rest => p ++ sep ++ join sep rest
  end.

End PyStr.

(** ** Data model ([tomt/models/post.py], [tomt/models/song.py]) *)

Definition datetime := Z.

Inductive PostStatus := OPEN | SOLVED | UNSOLVED | UNKNOWN.

(** [PostStatus.value]. *)
Definition status_value (s : PostStatus) : string :=
  match s with
  | OPEN => "open"
  | SOLVED => "solved"
  | UNSOLVED => "unsolved"
  | UNKNOWN => "unknown"
  end.

Record Post := mkPost {
  post_id : string;
  post_subreddit : string;
  post_title : string;
  post_body : string;
  post_author : string;
  post_url : string;
  post_created_at : datetime;
  post_scraped_at : datetime;
  post_status : PostStatus;
  post_flair : option string;
  post_score : Z;
  post_num_comments : Z;
  post_audio_links : list string;
  post_description : option string;
  post_solution_comment_id : option string;
  post_solution_text : option string;
  post_identified_song_id : option string
}.

Record Song := mkSong {
  song_id : string;
  song_title : string;
  song_artist : string;
  song_album : option string;
  song_year : option Z;
  song_spotify_url : option string;
  song_youtube_url : option string;
  song_apple_music_url : option string;
  song_discovered_at : datetime;
  song_source_post_ids : list string;
  song_discovery_count : Z;
  song_original_descriptions : list string
}.

(** ** Catalog store ([tomt/storage/database.py]) *)

(** A row of table [posts].  Column [status] holds the value of the
    enumeration member and column [audio_links_json] the JSON text of a
    list of strings; both are kept here as the value they encode. *)
Record PostRecord := mkPostRecord {
  pr_id : string;
  pr_subreddit : string;
  pr_title : string;
  pr_body : string;
  pr_author : string;
  pr_url : string;
  pr_created_at : datetime;
  pr_scraped_at : datetime;
  pr_status : PostStatus;
  pr_flair : option string;
  pr_score : Z;
  pr_num_comments : Z;
  pr_audio_links_json : list string;
  pr_description : option string;
  pr_solution_comment_id : option string;
  pr_solution_text : option string;
  pr_identified_song_id : option string
}.

(** A row of table [songs]; [source_posts] is a relationship, not a column. *)
Record SongRecord := mkSongRecord {
  sr_id : string;
  sr_title : string;
  sr_artist : string;
  sr_album : option string;
  sr_year : option Z;
  sr_spotify_url : option string;
  sr_youtube_url : option string;
  sr_apple_music_url : option string;
  sr_discovered_at : datetime;
  sr_discovery_count : Z;
  sr_original_descriptions_json : list string
}.

Module PostRecordM.

Definition to_model (r : PostRecord) : Post :=
  {| post_id := pr_id r;
     post_subreddit := pr_subreddit r;
     post_title := pr_title r;
     post_body := pr_body r;
     post_author := pr_author r;
     post_url := pr_url r;
     post_created_at := pr_created_at r;
     post_scraped_at := pr_scraped_at r;
     post_status := pr_status r;
     post_flair := pr_flair r;
     post_score := pr_score r;
     post_num_comments := pr_num_comments r;
     post_audio_links := pr_audio_links_json r;
     post_description := pr_description r;
     post_solution_comment_id := pr_solution_comment_id r;
     post_solution_text := pr_solution_text r;
     post_identified_song_id := pr_identified_song_id r |}.

Definition from_model (p : Post) : PostRecord :=
  {| pr_id := post_id p;
     pr_subreddit := post_subreddit p;
     pr_title := post_title p;
     pr_body := post_body p;
     pr_author := post_author p;
     pr_url := post_url p;
     pr_created_at := post_created_at p;
     pr_scraped_at := post_scraped_at p;
     pr_status := post_status p;
     pr_flair := post_flair p;
     pr_score := post_score p;
     pr_num_comments := post_num_comments p;
     pr_audio_links_json := post_audio_links p;
     pr_description := post_description p;
     pr_solution_comment_id := post_solution_comment_id p;
     pr_solution_text := post_solution_text p;
     pr_identified_song_id := post_identified_song_id p |}.

(** The loop of [save_post] over [from_model(post).__dict__]: every
    attribute whose name does not start with an underscore is set on the
    existing row.  The seventeen columns are exactly those attributes, so
    nothing of [existing] survives the loop. *)
Definition setattr_all (existing new : PostRecord) : PostRecord :=
  {| pr_id := pr_id new;
     pr_subreddit := pr_subreddit new;
     pr_title := pr_title new;
     pr_body := pr_body new;
     pr_author := pr_author new;
     pr_url := pr_url new;
     pr_created_at := pr_created_at new;
     pr_scraped_at := pr_scraped_at new;
     pr_status := pr_status new;
     pr_flair := pr_flair new;
     pr_score := pr_score new;
     pr_num_comments := pr_num_comments new;
     pr_audio_links_json := pr_audio_links_json new;
     pr_description := pr_description new;
     pr_solution_comment_id := pr_solution_comment_id new;
     pr_solution_text := pr_solution_text new;
     pr_identified_song_id := pr_identified_song_id new |}.

Definition set_identified_song_id (r : PostRecord) (v : option string) : PostRecord :=
  {| pr_id := pr_id r;
     pr_subreddit := pr_subreddit r;
     pr_title := pr_title r;
     pr_body := pr_body r;
     pr_author := pr_author r;
     pr_url := pr_url r;
     pr_created_at := pr_created_at r;
     pr_scraped_at := pr_scraped_at r;
     pr_status := pr_status r;
     pr_flair := pr_flair r;
     pr_score := pr_score r;
     pr_num_comments := pr_num_comments r;
     pr_audio_links_json := pr_audio_links_json r;
     pr_description := pr_description r;
     pr_solution_comment_id := pr_solution_comment_id r;
     pr_solution_text := pr_solution_text r;
     pr_identified_song_id := v |}.

End PostRecordM.

Module SongRecordM.

(** [source_posts] are the rows the relationship of this row gives. *)
Definition to_model (source_posts : list PostRecord) (r : SongRecord) : Song :=
  {| song_id := sr_id r;
     song_title := sr_title r;
     song_artist := sr_artist r;
     song_album := sr_album r;
     song_year := sr_year r;
     song_spotify_url := sr_spotify_url r;
     song_youtube_url := sr_youtube_url r;
     song_apple_music_url := sr_apple_music_url r;
     song_discovered_at := sr_discovered_at r;
     song_source_post_ids := pr_id <$> source_posts;
     song_discovery_count := sr_discovery_count r;
     song_original_descriptions := sr_original_descriptions_json r |}.

Definition from_model (s : Song) : SongRecord :=
  {| sr_id := song_id s;
     sr_title := song_title s;
     sr_artist := song_artist s;
     sr_album := song_album s;
     sr_year := song_year s;
     sr_spotify_url := song_spotify_url s;
     sr_youtube_url := song_youtube_url s;
     sr_apple_music_url := song_apple_music_url s;
     sr_discovered_at := song_discovered_at s;
     sr_discovery_count := song_discovery_count s;
     sr_original_descriptions_json := song_original_descriptions s |}.

(** The update branch of [save_song]: the counter and the description
    list are the only columns assigned. *)
Definition bump (r : SongRecord) (descriptions : list string) : SongRecord :=
  {| sr_id := sr_id r;
     sr_title := sr_title r;
     sr_artist := sr_artist r;
     sr_album := sr_album r;
     sr_year := sr_year r;
     sr_spotify_url := sr_spotify_url r;
     sr_youtube_url := sr_youtube_url r;
     sr_apple_music_url := sr_apple_music_url r;
     sr_discovered_at := sr_discovered_at r;
     sr_discovery_count := sr_discovery_count r + 1;
     sr_original_descriptions_json := descriptions |}.

End SongRecordM.

Record Database := mkDatabase {
  posts : gmap string PostRecord;
  songs : gmap string SongRecord
}.

(** The store after [init_db] on a fresh file. *)
Definition empty_db : Database := {| posts := ∅; songs := ∅ |}.

(** [desc in descriptions] *)
Definition str_in (d : string) (l : list string) : bool :=
  bool_decide (d ∈ l).

(** [for desc in incoming: if desc not in descriptions: descriptions.append(desc)] *)
Fixpoint add_descriptions (descriptions incoming : list string) : list string :=
  match incoming with
  | [] => descriptions
  | desc :: rest =>
      if str_in desc descriptions
      then add_descriptions descriptions rest
      else add_descriptions (descriptions ++ [desc]) rest
  end.

Definition save_post (db : Database) (post : Post) : Database :=
  match posts db !! post_id post with
  | Some existing =>
      {| posts := <[post_id post := PostRecordM.setattr_all existing (PostRecordM.from_model post)]> (posts db);
         songs := songs db |}
  | None =>
      {| posts := <[post_id post := PostRecordM.from_model post]> (posts db);
         songs := songs db |}
  end.

Definition get_post (db : Database) (pid : string) : option Post :=
  PostRecordM.to_model <$> posts db !! pid.

Definition save_song (db : Database) (song : Song) (source_post : option Post) : Database :=
  let songs' :=
    match songs db !! song_id song with
    | Some existing =>
        <[song_id song :=
            SongRecordM.bump existing
              (add_descriptions (sr_original_descriptions_json existing)
                                (song_original_descriptions song))]> (songs db)
    | None => <[song_id song := SongRecordM.from_model song]> (songs db)
    end in
  let posts' :=
    match source_post with
    | Some sp =>
        match posts db !! post_id sp with
        | Some post_record =>
            <[post_id sp := PostRecordM.set_identified_song_id post_record (Some (song_id song))]> (posts db)
        | None => posts db
        end
    | None => posts db
    end in
  {| posts := posts'; songs := songs' |}.

(** The relationship [SongRecord.source_posts]: the rows of [posts] whose
    [identified_song_id] is the given song id. *)
Definition source_posts (db : Database) (sid : string) : list PostRecord :=
  filter (fun r => pr_identified_song_id r = Some sid) (snd <$> map_to_list (posts db)).

Definition get_song (db : Database) (sid : string) : option Song :=
  (fun r => SongRecordM.to_model (source_posts db (sr_id r)) r) <$> songs db !! sid.

(** Store operations, and the states reachable by them. *)
Inductive store_op :=
| SavePost (post : Post)
| SaveSong (song : Song) (source_post : option Post).

Definition apply_op (db : Database) (o : store_op) : Database :=
  match o with
  | SavePost p => save_post db p
  | SaveSong s src => save_song db s src
  end.

Definition run_ops (ops : list store_op) (db : Database) : Database :=
  fold_left apply_op ops db.

(** How many [save_song] calls of a history carry a given song id. *)
Definition is_save_song_of (sid : string) (o : store_op) : bool :=
  match o with
  | SaveSong s _ => bool_decide (song_id s = sid)
  | SavePost _ => false
  end.

Definition save_song_calls (sid : string) (ops : list store_op) : nat :=
  length (List.filter (is_save_song_of sid) ops).

(** Every song handed to [save_song] carries the model default
    [discovery_count = 1], as the songs built by [extract_solution] do. *)
Definition default_counts (ops : list store_op) : Prop :=
  Forall (fun o => match o with
                   | SaveSong s _ => song_discovery_count s = 1
                   | SavePost _ => True
                   end) ops.

(** What the counter column of a song holds after that many [save_song]
    calls with its id: nothing before the first call. *)
Definition counter_after (calls : nat) : option Z :=
  match calls with
  | O => None
  | S _ => Some (Z.of_nat calls)
  end.

(** ** Sample data *)

Definition sample_post (pid : string) (scraped : datetime) (st : PostStatus) : Post :=
  {| post_id := pid;
     post_subreddit := "WhatsThisSong";
     post_title := "80s synth song";
     post_body := "";
     post_author := "someone";
     post_url := "https://reddit.com/r/WhatsThisSong/comments/" ++ pid;
     post_created_at := 1700000000;
     post_scraped_at := scraped;
     post_status := st;
     post_flair := Some "Solved";
     post_score := 3;
     post_num_comments := 1;
     post_audio_links := [];
     post_description := None;
     post_solution_comment_id := None;
     post_solution_text := None;
     post_identified_song_id := None |}.

Definition sample_song (count : Z) (descs : list string) : Song :=
  {| song_id := "new_order_blue_monday";
     song_title := "Blue Monday";
     song_artist := "New Order";
     song_album := None;
     song_year := None;
     song_spotify_url := None;
     song_youtube_url := None;
     song_apple_music_url := None;
     song_discovered_at := 1700000100;
     song_source_post_ids := ["t1"];
     song_discovery_count := count;
     song_original_descriptions := descs |}.


(** ** Regular expressions ([re], compiled with [re.IGNORECASE])

    The patterns of the scraper use literals, character classes, groups,
    alternation and the greedy operators [?], [*] and [+].  The matcher
    explores the alternatives in the order of a backtracking engine: the
    longer repetition before the shorter, the left branch before the right. *)

Module Re.

Inductive regex :=
| Eps
| Lit (c : ascii)                 (* a literal character, compared ignoring case *)
| Cls (f : ascii -> bool)         (* a character class *)
| Cat (r1 r2 : regex)
| Alt (r1 r2 : regex)
| Opt (r : regex)                 (* r? *)
| Star (r : regex)                (* r* *)
| Plus (r : regex).               (* r+ *)

(** A run of literal characters. *)
Fixpoint word (s : string) : regex :=
  match s with
  | EmptyString => Eps
  | String c s' => Cat (Lit c) (word s')
  end.

Fixpoint seq (rs : list regex) : regex :=
  match rs with
  | [] => Eps
  | r :: rest => Cat r (seq rest)
  end.

(** [rmatch r s k]: match [r] at the start of [s] and hand the rest of the
    text to [k]; the first alternative on which [k] succeeds is the answer. *)
Fixpoint rmatch {A : Type} (r : regex) (s : string) (k : string -> option A) : option A :=
  match r with
  | Eps => k s
  | Lit c =>
      match s with
      | String x s' =>
          if Ascii.eqb (PyStr.lower_char x) (PyStr.lower_char c) then k s' else None
      | EmptyString => None
      end
  | Cls f =>
      match s with
      | String x s' => if f x then k s' else None
      | EmptyString => None
      end
  | Cat r1 r2 => rmatch r1 s (fun s1 => rmatch r2 s1 k)
  | Alt r1 r2 =>
      match rmatch r1 s k with
      | Some v => Some v
      | None => rmatch r2 s k
      end
  | Opt r1 =>
      match rmatch r1 s k with
      | Some v => Some v
      | None => k s
      end
  | Star r1 =>
      (fix loop (fuel : nat) (s : string) : option A :=
         match fuel with
         | O => k s
         | S fuel' =>
             match rmatch r1 s (fun s' =>
                     if (String.length s' <? String.length s)%nat
                     then loop fuel' s' else None) with
             | Some v => Some v
             | None => k s
             end
         end) (String.length s) s
  | Plus r1 =>
      rmatch r1 s (fun s1 =>
        (fix loop (fuel : nat) (s : string) : option A :=
           match fuel with
           | O => k s
           | S fuel' =>
               match rmatch r1 s (fun s' =>
                       if (String.length s' <? String.length s)%nat
                       then loop fuel' s' else None) with
               | Some v => Some v
               | None => k s
               end
           end) (String.length s1) s1)
  end.

(** [pattern.match(s)] reduced to the text left after the match. *)
Definition match_rest (r : regex) (s : string) : option string :=
  rmatch r s Some.

(** [pattern.search(s)] as a truth value. *)
Fixpoint search (r : regex) (s : string) : bool :=
  match match_rest r s with
  | Some _ => true
  | None =>
      match s with
      | String _ s' => search r s'
      | EmptyString => false
      end
  end.

(** [pattern.findall(s)] for a pattern that is one capturing group and
    matches no empty string: the matched texts, leftmost first, none
    overlapping.  [skip] counts the characters of the last match still to
    be passed over. *)
Fixpoint findall_from (r : regex) (skip : nat) (s : string) : list string :=
  match s with
  | EmptyString => []
  | String _ s' =>
      match skip with
      | S k => findall_from r k s'
      | O =>
          match match_rest r s with
          | Some rest =>
              let n := (String.length s - String.length rest)%nat in
              substring 0 n s :: findall_from r (n - 1) s'
          | None => findall_from r O s'
          end
      end
  end.

Definition findall (r : regex) (s : string) : list string :=
  findall_from r O s.

End Re.

(** ** Classifier and fetcher ([tomt/scrapers/reddit.py]) *)

(** The fields of a [praw] submission that the scraper reads. *)
Record Submission := mkSubmission {
  sub_id : string;
  sub_subreddit_display_name : string;
  sub_title : string;
  sub_selftext : string;
  sub_author : option string;        (* [None] for a deleted account *)
  sub_permalink : string;
  sub_created_utc : Z;
  sub_link_flair_text : option string;
  sub_score : Z;
  sub_num_comments : Z
}.

(** [x or ""] on an optional string. *)
Definition or_empty (x : option string) : string :=
  match x with
  | Some s => s
  | None => ""
  end.

Definition DEFAULT_SUBREDDITS : list string :=
  ["tipofmytongue"; "WhatsThisSong"; "NameThatSong"].

Definition bracket_open : ascii := "["%char.

(** [MUSIC_FLAIR_PATTERNS]:
    - [\[TOMT\]\s*\[(?:song|music|band|artist)]
    - [\[song\]]
    - [\[music\]] *)
Definition MUSIC_FLAIR_PATTERNS : list Re.regex :=
  [ Re.seq [ Re.word "[TOMT]"; Re.Star (Re.Cls PyStr.isspace); Re.Lit bracket_open;
             Re.Alt (Re.word "song")
               (Re.Alt (Re.word "music") (Re.Alt (Re.word "band") (Re.word "artist"))) ];
    Re.word "[song]";
    Re.word "[music]" ].

(** Pieces shared by [AUDIO_LINK_PATTERNS]. *)
Definition scheme : Re.regex := Re.seq [Re.word "http"; Re.Opt (Re.Lit "s"); Re.word "://"].
Definition www : Re.regex := Re.Opt (Re.word "www.").
Definition slug : Re.regex :=
  Re.Plus (Re.Cls (fun c => PyStr.isword c || Ascii.eqb c "-")).
Definition handle : Re.regex :=
  Re.Plus (Re.Cls (fun c => PyStr.isword c || Ascii.eqb c "." || Ascii.eqb c "-")).
Definition digits : Re.regex := Re.Plus (Re.Cls PyStr.isdecimal).

(** [AUDIO_LINK_PATTERNS], each a single capturing group around
    - [https?://(?:www\.)?youtube\.com/watch\?v=[\w-]+]
    - [https?://(?:www\.)?youtu\.be/[\w-]+]
    - [https?://(?:www\.)?soundcloud\.com/[\w-]+/[\w-]+]
    - [https?://(?:www\.)?vocaroo\.com/[\w-]+]
    - [https?://voca\.ro/[\w-]+]
    - [https?://(?:www\.)?clyp\.it/[\w-]+]
    - [https?://(?:www\.)?onlinesequencer\.net/[\w-]+]
    - [https?://(?:www\.)?spotify\.com/track/[\w-]+]
    - [https?://open\.spotify\.com/track/[\w-]+]
    - [https?://(?:www\.)?tiktok\.com/@[\w.-]+/video/\d+]
    - [https?://(?:www\.)?reddit\.com/link/[\w-]+/video/[\w-]+]
    - [https?://v\.redd\.it/[\w-]+]
    - [https?://streamable\.com/[\w-]+] *)
Definition AUDIO_LINK_PATTERNS : list Re.regex :=
  [ Re.seq [scheme; www; Re.word "youtube.com/watch?v="; slug];
    Re.seq [scheme; www; Re.word "youtu.be/"; slug];
    Re.seq [scheme; www; Re.word "soundcloud.com/"; slug; Re.word "/"; slug];
    Re.seq [scheme; www; Re.word "vocaroo.com/"; slug];
    Re.seq [scheme; Re.word "voca.ro/"; slug];
    Re.seq [scheme; www; Re.word "clyp.it/"; slug];
    Re.seq [scheme; www; Re.word "onlinesequencer.net/"; slug];
    Re.seq [scheme; www; Re.word "spotify.com/track/"; slug];
    Re.seq [scheme; Re.word "open.spotify.com/track/"; slug];
    Re.seq [scheme; www; Re.word "tiktok.com/@"; handle; Re.word "/video/"; digits];
    Re.seq [scheme; www; Re.word "reddit.com/link/"; slug; Re.word "/video/"; slug];
    Re.seq [scheme; Re.word "v.redd.it/"; slug];
    Re.seq [scheme; Re.word "streamable.com/"; slug] ].

(** [any(term in flair for term in terms)] *)
Definition any_in (terms : list string) (text : string) : bool :=
  existsb (fun term => PyStr.contains term text) terms.

Definition _is_music_post (submission : Submission) : bool :=
  let subreddit_name := PyStr.lower (sub_subreddit_display_name submission) in
  if bool_decide (subreddit_name ∈ ["whatsthissong"; "namethatsong"]) then true
  else if bool_decide (subreddit_name = "tipofmytongue") then
    let flair := PyStr.lower (or_empty (sub_link_flair_text submission)) in
    if any_in ["song"; "music"] flair then true
    else if existsb (fun pattern => Re.search pattern (sub_title submission))
                    MUSIC_FLAIR_PATTERNS then true
    else false
  else true.

Definition _determine_status (submission : Submission) : PostStatus :=
  let flair := PyStr.lower (or_empty (sub_link_flair_text submission)) in
  if PyStr.contains "solved" flair || PyStr.contains "answered" flair then SOLVED
  else if PyStr.contains "open" flair || PyStr.contains "searching" flair then OPEN
  else if PyStr.contains "unsolved" flair || PyStr.contains "closed" flair then UNSOLVED
  else UNKNOWN.

(** What the interpreter and the network supply to the scraper:
    the order in which [list(set(...))] enumerates a set built from a list,
    the clock behind [datetime.utcnow], read once per constructed [Post],
    and the listings of the Reddit client.  A listing is rendered as the
    submissions it yields when the client serves it in full; a fetch that
    raises part-way through a listing is not rendered. *)
Record Runtime := mkRuntime {
  set_to_list : list string -> list string;
  utcnow : nat -> datetime;
  subreddit_new : string -> Z -> list Submission;
  subreddit_hot : string -> Z -> list Submission;
  subreddit_search : string -> string -> Z -> list Submission
}.

Definition _extract_audio_links (rt : Runtime) (text : string) : list string :=
  let links := flat_map (fun pattern => Re.findall pattern text) AUDIO_LINK_PATTERNS in
  set_to_list rt links.

(** [now] is the instant read by the default factory of [scraped_at]. *)
Definition _submission_to_post (rt : Runtime) (now : datetime) (submission : Submission) : Post :=
  let body := sub_selftext submission in
  let audio_links := _extract_audio_links rt (sub_title submission ++ " " ++ body) in
  {| post_id := sub_id submission;
     post_subreddit := sub_subreddit_display_name submission;
     post_title := sub_title submission;
     post_body := body;
     post_author := match sub_author submission with
                    | Some name => name
                    | None => "[deleted]"
                    end;
     post_url := "https://reddit.com" ++ sub_permalink submission;
     post_created_at := sub_created_utc submission;
     post_scraped_at := now;
     post_status := _determine_status submission;
     post_flair := sub_link_flair_text submission;
     post_score := sub_score submission;
     post_num_comments := sub_num_comments submission;
     post_audio_links := audio_links;
     post_description := None;
     post_solution_comment_id := None;
     post_solution_text := None;
     post_identified_song_id := None |}.

(** [post.status = status] *)
Definition set_status (status : PostStatus) (p : Post) : Post :=
  {| post_id := post_id p;
     post_subreddit := post_subreddit p;
     post_title := post_title p;
     post_body := post_body p;
     post_author := post_author p;
     post_url := post_url p;
     post_created_at := post_created_at p;
     post_scraped_at := post_scraped_at p;
     post_status := status;
     post_flair := post_flair p;
     post_score := post_score p;
     post_num_comments := post_num_comments p;
     post_audio_links := post_audio_links p;
     post_description := post_description p;
     post_solution_comment_id := post_solution_comment_id p;
     post_solution_text := post_solution_text p;
     post_identified_song_id := post_identified_song_id p |}.

(** The inner loop of the three generators: the music posts of one listing
    are converted in order, [adjust] being what is done to a post before it
    is yielded.  [tick] counts the clock readings made so far. *)
Fixpoint yield_music (rt : Runtime) (adjust : Post -> Post) (tick : nat)
         (listing : list Submission) : list Post * nat :=
  match listing with
  | [] => ([], tick)
  | submission :: rest =>
      if _is_music_post submission then
        let post := adjust (_submission_to_post rt (utcnow rt tick) submission) in
        let '(yielded, tick') := yield_music rt adjust (S tick) rest in
        (post :: yielded, tick')
      else yield_music rt adjust tick rest
  end.

(** The outer loop over [self.subreddits]. *)
Fixpoint scrape_each (rt : Runtime) (fetch : string -> list Submission)
         (adjust : Post -> Post) (tick : nat) (subreddits : list string)
  : list Post * nat :=
  match subreddits with
  | [] => ([], tick)
  | subreddit_name :: rest =>
      let '(yielded, tick1) := yield_music rt adjust tick (fetch subreddit_name) in
      let '(more, tick2) := scrape_each rt fetch adjust tick1 rest in
      ((yielded ++ more)%list, tick2)
  end.

Definition scrape_new (rt : Runtime) (subreddits : list string) (limit : Z) (tick : nat)
  : list Post * nat :=
  scrape_each rt (fun name => subreddit_new rt name limit) (fun post => post) tick subreddits.

Definition scrape_hot (rt : Runtime) (subreddits : list string) (limit : Z) (tick : nat)
  : list Post * nat :=
  scrape_each rt (fun name => subreddit_hot rt name limit) (fun post => post) tick subreddits.

Definition scrape_solved (rt : Runtime) (subreddits : list string) (limit : Z) (tick : nat)
  : list Post * nat :=
  scrape_each rt
    (fun name => subreddit_search rt name "flair:solved OR flair:answered" limit)
    (set_status SOLVED) tick subreddits.

(** The persist loop of [DiscoveryService.scrape_and_store] on the path
    with [enrich=False]: every yielded post is saved and counted. *)
Definition store_all (db : Database) (yielded : list Post) : Database * Z :=
  fold_left (fun '(db, count) post => (save_post db post, count + 1)) yielded (db, 0).

(** *** The rules of the classifier, as the specification words them *)

(** Status precedence: the first rule with an indicator in the lower-cased
    tag decides, [UNKNOWN] when none has. *)
Definition STATUS_RULES : list (list string * PostStatus) :=
  [ (["solved"; "answered"], SOLVED);
    (["open"; "searching"], OPEN);
    (["unsolved"; "closed"], UNSOLVED) ].

Fixpoint first_rule (rules : list (list string * PostStatus)) (tag : string) : PostStatus :=
  match rules with
  | [] => UNKNOWN
  | (indicators, status) :: rest =>
      if any_in indicators tag then status else first_rule rest tag
  end.

Definition status_by_precedence (tag : option string) : PostStatus :=
  first_rule STATUS_RULES (PyStr.lower (or_empty tag)).

(** The music indicators of the general-purpose group: a term in the tag,
    or a pattern found in the title. *)
Definition tag_has_music_term (submission : Submission) : bool :=
  any_in ["song"; "music"] (PyStr.lower (or_empty (sub_link_flair_text submission))).

Definition title_has_music_pattern (submission : Submission) : bool :=
  existsb (fun pattern => Re.search pattern (sub_title submission)) MUSIC_FLAIR_PATTERNS.

Definition group_name (submission : Submission) : string :=
  PyStr.lower (sub_subreddit_display_name submission).

(** Two posts that agree on every field except [scraped_at]. *)
Definition same_but_scraped_at (p q : Post) : Prop :=
  post_id p = post_id q
  ∧ post_subreddit p = post_subreddit q
  ∧ post_title p = post_title q
  ∧ post_body p = post_body q
  ∧ post_author p = post_author q
  ∧ post_url p = post_url q
  ∧ post_created_at p = post_created_at q
  ∧ post_status p = post_status q
  ∧ post_flair p = post_flair q
  ∧ post_score p = post_score q
  ∧ post_num_comments p = post_num_comments q
  ∧ post_audio_links p = post_audio_links q
  ∧ post_description p = post_description q
  ∧ post_solution_comment_id p = post_solution_comment_id q
  ∧ post_solution_text p = post_solution_text q
  ∧ post_identified_song_id p = post_identified_song_id q.

(** Two posts that agree on every field except [scraped_at] and the order
    of the media links. *)
Definition same_but_scraped_at_and_link_order (p q : Post) : Prop :=
  post_id p = post_id q
  ∧ post_subreddit p = post_subreddit q
  ∧ post_title p = post_title q
  ∧ post_body p = post_body q
  ∧ post_author p = post_author q
  ∧ post_url p = post_url q
  ∧ post_created_at p = post_created_at q
  ∧ post_status p = post_status q
  ∧ post_flair p = post_flair q
  ∧ post_score p = post_score q
  ∧ post_num_comments p = post_num_comments q
  ∧ post_audio_links p ≡ₚ post_audio_links q
  ∧ post_description p = post_description q
  ∧ post_solution_comment_id p = post_solution_comment_id q
  ∧ post_solution_text p = post_solution_text q
  ∧ post_identified_song_id p = post_identified_song_id q.

(** What every interpreter guarantees of [list(set(links))]: each string of
    [links] once.  The order depends on the hashes of the strings, which are
    seeded anew in each process. *)
Definition enumerates_sets (rt : Runtime) : Prop :=
  ∀ links, NoDup (set_to_list rt links) ∧ ∀ x, x ∈ set_to_list rt links ↔ x ∈ links.

(** *** Sample threads and a sample runtime *)

Definition sample_thread (tid group title : string) (flair : option string) : Submission :=
  {| sub_id := tid;
     sub_subreddit_display_name := group;
     sub_title := title;
     sub_selftext := "heard it at https://youtu.be/abc-1 and https://youtu.be/abc-1";
     sub_author := Some "someone";
     sub_permalink := "/r/" ++ group ++ "/comments/" ++ tid;
     sub_created_utc := 1700000000;
     sub_link_flair_text := flair;
     sub_score := 3;
     sub_num_comments := 1 |}.

(** A runtime whose sets enumerate in order of first insertion, whose clock
    advances one second per reading, and whose listings are fixed. *)
Definition sample_runtime (listing : string -> list Submission) : Runtime :=
  {| set_to_list := remove_dups;
     utcnow := fun n => 1700000000 + Z.of_nat n;
     subreddit_new := fun name _ => listing name;
     subreddit_hot := fun name _ => listing name;
     subreddit_search := fun name _ _ => listing name |}.

(** A runtime like [sample_runtime] in an interpreter that enumerates sets
    in the opposite order, and a thread with two media links. *)
Definition reversed_runtime (listing : string -> list Submission) : Runtime :=
  {| set_to_list := fun links => reverse (remove_dups links);
     utcnow := fun n => 1700000000 + Z.of_nat n;
     subreddit_new := fun name _ => listing name;
     subreddit_hot := fun name _ => listing name;
     subreddit_search := fun name _ _ => listing name |}.

Definition two_links_thread : Submission :=
  {| sub_id := "t2";
     sub_subreddit_display_name := "WhatsThisSong";
     sub_title := "80s synth song";
     sub_selftext := "like https://youtu.be/abc-1 or https://youtu.be/xyz-2 maybe";
     sub_author := Some "someone";
     sub_permalink := "/r/WhatsThisSong/comments/t2";
     sub_created_utc := 1700000000;
     sub_link_flair_text := Some "Open";
     sub_score := 3;
     sub_num_comments := 1 |}.

(** ** Extractor ([tomt/services/parser.py]) *)

(** A Python [float] as decoded from JSON text. *)
Inductive float_value :=
| FNan
| FInf (negative : bool)
| FFinite (mantissa exponent : Z).     (* mantissa * 2 ^ exponent *)

(** The Python value [json.loads] returns; a [dict] is kept as its items in
    insertion order, with distinct keys. *)
#[local] Set Warnings "-register-all".
Inductive json :=
| JNull
| JBool (b : bool)
| JInt (z : Z)
| JFloat (f : float_value)
| JStr (s : string)
| JArr (items : list json)
| JObj (fields : list (string * json)).

(** [d[key]], [None] standing for [KeyError]. *)
Fixpoint dict_item (fields : list (string * json)) (key : string) : option json :=
  match fields with
  | [] => None
  | (k, v) :: rest => if bool_decide (k = key) then Some v else dict_item rest key
  end.

(** [d.get(key)]: a missing key reads as [None], the value of JSON [null]. *)
Definition dict_get (fields : list (string * json)) (key : string) : json :=
  match dict_item fields key with
  | Some v => v
  | None => JNull
  end.

(** Truth value of a Python object in an [if]. *)
Definition truthy (v : json) : bool :=
  match v with
  | JNull => false
  | JBool b => b
  | JInt z => negb (z =? 0)
  | JFloat (FFinite m _) => negb (m =? 0)
  | JFloat _ => true
  | JStr s => negb (bool_decide (s = ""))
  | JArr items => match items with [] => false | _ => true end
  | JObj fields => match fields with [] => false | _ => true end
  end.

(** The exceptions that can leave the extractor and the store. *)
Inductive exn :=
| APIError            (* raised by the client of the extraction capability *)
| IndexError
| AttributeError
| ValidationError     (* raised by the constructor of a pydantic model *)
| RecursionError      (* raised by [json.loads] on text nested too deeply *)
| ValueError          (* raised by [json.loads] on an integer literal with
                         more digits than the interpreter converts *)
| OverflowError       (* raised by the database driver for an integer that
                         does not fit 64 bits *)
| DriverError.        (* raised by the database driver for a value of a type
                         it cannot bind *)

Inductive Outcome (A : Type) :=
| Returned (value : A)
| Raised (e : exn).
Arguments Returned {A} value.
Arguments Raised {A} e.

(** A comment as [get_post_with_comments] builds it. *)
Record Comment := mkComment {
  c_id : string;
  c_author : string;
  c_body : string;
  c_score : Z;
  c_created_at : datetime;
  c_is_submitter : bool;
  c_is_op_reply : bool
}.

(** A prompt is one of the two fixed templates with its holes filled. *)
Inductive Prompt :=
| EXTRACT_DESCRIPTION_PROMPT (title body : string)
| EXTRACT_SOLUTION_PROMPT (title body comments : string).

(** What [json.loads] does with a text: it returns a value, raises
    [JSONDecodeError], or raises something else ([RecursionError] on text
    nested too deeply, plain [ValueError] on an over-long integer literal). *)
Inductive Decoding :=
| Decoded (value : json)
| JSONDecodeError
| DecoderRaised (e : exn).

(** What the extractor takes from outside the repository: the completion
    call ([None] when the client raises), [json.loads], the lax integer
    validation of pydantic for a value that is neither [None] nor an [int],
    and the clock. *)
Record ParserRuntime := mkParserRuntime {
  messages_create : Prompt -> option string;
  json_loads : string -> Decoding;
  lax_int : json -> option Z;
  song_now : datetime
}.

Definition newline : string := String (ascii_of_nat 10) EmptyString.

(** [xs[i]], [IndexError] when out of range. *)
Definition item (xs : list string) (i : nat) : Outcome string :=
  match nth_error xs i with
  | Some x => Returned x
  | None => Raised IndexError
  end.

(** The handling of markdown code blocks shared by the two operations:
    [text.split("```json")[1].split("```")[0]] when a tagged fence is
    present, [text.split("```")[1].split("```")[0]] when a bare one is. *)
Definition code_block (response_text : string) : Outcome string :=
  if PyStr.contains "```json" response_text then
    match item (PyStr.split "```json" response_text) 1 with
    | Returned inner => item (PyStr.split "```" inner) 0
    | Raised e => Raised e
    end
  else if PyStr.contains "```" response_text then
    match item (PyStr.split "```" response_text) 1 with
    | Returned inner => item (PyStr.split "```" inner) 0
    | Raised e => Raised e
    end
  else Returned response_text.

(** The dictionary returned when the response is not JSON. *)
Definition fallback_description (post : Post) : json :=
  JObj [ ("description", JStr (post_title post));
         ("genre_hints", JArr []);
         ("era_hint", JNull);
         ("has_lyrics", JBool false);
         ("partial_lyrics", JNull);
         ("mood", JNull);
         ("voice_type", JStr "unknown");
         ("context", JNull) ].

(** The [try] block of [extract_description]: [JSONDecodeError] is caught,
    nothing else is. *)
Definition description_of_response (rt : ParserRuntime) (post : Post)
           (response_text : string) : Outcome json :=
  match code_block response_text with
  | Raised e => Raised e
  | Returned text =>
      match json_loads rt (PyStr.strip text) with
      | Decoded value => Returned value
      | JSONDecodeError => Returned (fallback_description post)
      | DecoderRaised e => Raised e
      end
  end.

(** Each operation is rendered as the prompts it sent and its outcome. *)
Definition extract_description (rt : ParserRuntime) (post : Post)
  : list Prompt * Outcome json :=
  let prompt := EXTRACT_DESCRIPTION_PROMPT (post_title post) (post_body post) in
  match messages_create rt prompt with
  | None => ([prompt], Raised APIError)
  | Some response_text => ([prompt], description_of_response rt post response_text)
  end.

(** [f"{artist}_{song_title}".lower()] with every character that is not
    alphanumeric replaced by an underscore. *)
Definition make_song_id (artist song_title : string) : string :=
  let song_id := PyStr.lower (artist ++ "_" ++ song_title) in
  PyStr.map_chars (fun c => if PyStr.isalnum c then c else "_"%char) song_id.

(** Validation by the [Song] model (pydantic 2): a [str] field takes a
    string only, an optional field also [None]. *)
Definition validate_str (v : json) : option string :=
  match v with
  | JStr s => Some s
  | _ => None
  end.

Definition validate_optional_str (v : json) : option (option string) :=
  match v with
  | JNull => Some None
  | JStr s => Some (Some s)
  | _ => None
  end.

Definition validate_optional_int (rt : ParserRuntime) (v : json) : option (option Z) :=
  match v with
  | JNull => Some None
  | JInt z => Some (Some z)
  | _ => option_map Some (lax_int rt v)
  end.

(** [Song(id=..., title=..., artist=..., album=..., year=..., source_post_ids=[post.id])] *)
Definition new_song (rt : ParserRuntime) (post : Post) (song_id : string)
           (title artist album year : json) : Outcome Song :=
  match validate_str title, validate_str artist,
        validate_optional_str album, validate_optional_int rt year with
  | Some title, Some artist, Some album, Some year =>
      Returned {| song_id := song_id;
                  song_title := title;
                  song_artist := artist;
                  song_album := album;
                  song_year := year;
                  song_spotify_url := None;
                  song_youtube_url := None;
                  song_apple_music_url := None;
                  song_discovered_at := song_now rt;
                  song_source_post_ids := [post_id post];
                  song_discovery_count := 1;
                  song_original_descriptions := [] |}
  | _, _, _, _ => Raised ValidationError
  end.

(** The text an f-string gives for a value.  Only the text of a string is
    rendered: for any other artist or title the constructor of [Song]
    raises, and the id built from it is never used. *)
Definition fstring (v : json) : string :=
  match v with
  | JStr s => s
  | _ => ""
  end.

(** The [try] block of [extract_solution] and the [return None] behind it:
    [JSONDecodeError] and [KeyError] are caught, nothing else is. *)
Definition solution_of_response (rt : ParserRuntime) (post : Post)
           (response_text : string) : Outcome (option Song) :=
  match code_block response_text with
  | Raised e => Raised e
  | Returned text =>
      match json_loads rt (PyStr.strip text) with
      | JSONDecodeError => Returned None
      | DecoderRaised e => Raised e
      | Decoded (JObj result) =>
          if truthy (dict_get result "found") then
            match dict_item result "artist", dict_item result "song_title" with
            | Some artist, Some song_title =>
                match new_song rt post (make_song_id (fstring artist) (fstring song_title))
                               song_title artist
                               (dict_get result "album") (dict_get result "year") with
                | Returned song => Returned (Some song)
                | Raised e => Raised e
                end
            | _, _ => Returned None
            end
          else Returned None
      | Decoded _ => Raised AttributeError
      end
  end.

(** [f"[Comment ID: {c['id']}] (score: {c['score']}, by: {c['author']})\n{c['body']}"] *)
Definition format_comment (c : Comment) : string :=
  "[Comment ID: " ++ c_id c ++ "] (score: " ++ pretty (c_score c)
  ++ ", by: " ++ c_author c ++ ")" ++ newline ++ c_body c.

Definition extract_solution (rt : ParserRuntime) (post : Post) (comments : list Comment)
  : list Prompt * Outcome (option Song) :=
  match comments with
  | [] => ([], Returned None)
  | _ :: _ =>
      let comments_text :=
        PyStr.join (newline ++ newline) (format_comment <$> firstn 50 comments) in
      let prompt := EXTRACT_SOLUTION_PROMPT (post_title post) (post_body post) comments_text in
      match messages_create rt prompt with
      | None => ([prompt], Raised APIError)
      | Some response_text => ([prompt], solution_of_response rt post response_text)
      end
  end.

(** *** The identity rule, as the specification words it *)

(** Lower-case, then an underscore for every non-alphanumeric character. *)
Definition normalize (s : string) : string :=
  PyStr.map_chars (fun c => if PyStr.isalnum c then c else "_"%char) (PyStr.lower s).

Definition artist_title (artist title : string) : string :=
  normalize artist ++ "_" ++ normalize title.

(** *** Sample replies and a sample capability *)

Definition sample_comment : Comment :=
  {| c_id := "c1";
     c_author := "helper";
     c_body := "It's Blue Monday by New Order";
     c_score := 12;
     c_created_at := 1700000050;
     c_is_submitter := false;
     c_is_op_reply := true |}.

(** A capability that answers every prompt with [response], and a decoder
    that knows the decoding of one text, [decoded] of [text], and rejects
    every other as not being JSON. *)
Definition canned_runtime (response text : string) (decoded : option json) : ParserRuntime :=
  {| messages_create := fun _ => Some response;
     json_loads := fun t => match decoded with
                            | Some value =>
                                if bool_decide (t = text) then Decoded value
                                else JSONDecodeError
                            | None => JSONDecodeError
                            end;
     lax_int := fun _ => None;
     song_now := 1700000100 |}.

(** [n] open brackets, and a capability that answers every prompt with 1000
    of them: a text on which [json.loads] raises [RecursionError]. *)
Fixpoint brackets (n : nat) : string :=
  match n with
  | O => ""
  | S n => String "["%char (brackets n)
  end.

Definition nested_runtime : ParserRuntime :=
  {| messages_create := fun _ => Some (brackets 1000);
     json_loads := fun t => if bool_decide (t = brackets 1000)
                            then DecoderRaised RecursionError
                            else JSONDecodeError;
     lax_int := fun _ => None;
     song_now := 1700000100 |}.

Definition blue_monday : json :=
  JObj [ ("found", JBool true);
         ("song_title", JStr "Blue Monday");
         ("artist", JStr "New Order");
         ("album", JNull);
         ("year", JInt 1983);
         ("comment_id", JStr "c1");
         ("confidence", JStr "high") ].

(** ** Catalog store: queries ([tomt/storage/database.py]) *)

#[global] Instance PostStatus_eq_dec : EqDecision PostStatus.
Proof. solve_decision. Defined.

(** SQL leaves to the engine the order in which the rows of a table are
    enumerated when none is asked for, and the order among rows equal under
    [ORDER BY].  An engine is rendered by its enumeration of each table;
    [ORDER BY] sorts that enumeration.  The engine also fixes the longest
    pattern, in bytes, that [LIKE] accepts (50000 unless SQLite was built
    otherwise) and the text it stores for a real number bound to a TEXT
    column ([None] for NaN, which it stores as NULL). *)
Record Engine := mkEngine {
  scan_posts : gmap string PostRecord -> list PostRecord;
  scan_songs : gmap string SongRecord -> list SongRecord;
  like_pattern_length : Z;
  real_text : float_value -> option string
}.

(** An engine enumerates every row of a table once. *)
Definition engine_ok (engine : Engine) : Prop :=
  (∀ m, scan_posts engine m ≡ₚ (snd <$> map_to_list m))
  ∧ (∀ m, scan_songs engine m ≡ₚ (snd <$> map_to_list m)).

(** A sample engine.  Of the reals it renders the infinities and the whole
    numbers below 10^15, as SQLite does; the samples store no other. *)
Definition sample_real_text (f : float_value) : option string :=
  match f with
  | FNan => None
  | FInf negative => Some (if negative then "-Inf" else "Inf")
  | FFinite mantissa exponent =>
      if bool_decide (0 ≤ exponent ∧ Z.abs (mantissa * 2 ^ exponent) < 10 ^ 15)
      then Some (pretty (mantissa * 2 ^ exponent) ++ ".0")
      else None
  end.

Definition table_engine : Engine :=
  {| scan_posts := fun m => snd <$> map_to_list m;
     scan_songs := fun m => snd <$> map_to_list m;
     like_pattern_length := 50000;
     real_text := sample_real_text |}.

(** [ORDER BY created_at DESC] and [ORDER BY discovery_count DESC]. *)
Definition newer_first (a b : PostRecord) : Prop :=
  pr_created_at b ≤ pr_created_at a.

Definition more_sought_first (a b : SongRecord) : Prop :=
  sr_discovery_count b ≤ sr_discovery_count a.

#[global] Instance newer_first_dec : RelDecision newer_first.
Proof. intros a b. unfold newer_first. apply _. Defined.

#[global] Instance more_sought_first_dec : RelDecision more_sought_first.
Proof. intros a b. unfold more_sought_first. apply _. Defined.

(** [LIMIT n]: a negative [n] sets no bound.  [OFFSET n]: a negative [n]
    skips nothing. *)
Definition sql_limit {A : Type} (n : Z) (rows : list A) : list A :=
  if n <? 0 then rows else take (Z.to_nat n) rows.

Definition sql_offset {A : Type} (n : Z) (rows : list A) : list A :=
  drop (Z.to_nat n) rows.

(** [if subreddit:] is false for [None] and for the empty string. *)
Definition nonempty_arg (x : option string) : option string :=
  match x with
  | Some s => if bool_decide (s = "") then None else Some s
  | None => None
  end.

Definition get_posts (engine : Engine) (db : Database)
           (subreddit : option string) (status : option PostStatus)
           (limit offset : Z) : list Post :=
  let query := scan_posts engine (posts db) in
  let query :=
    match nonempty_arg subreddit with
    | Some name => filter (fun r => pr_subreddit r = name) query
    | None => query
    end in
  let query :=
    match status with
    | Some st => filter (fun r => pr_status r = st) query
    | None => query
    end in
  let query := merge_sort newer_first query in
  let query := sql_limit limit (sql_offset offset query) in
  PostRecordM.to_model <$> query.

Definition get_unsolved_posts (engine : Engine) (db : Database) (limit : Z) : list Post :=
  let query :=
    filter (fun r => status_value (pr_status r) ∈ ["open"; "unknown"])
           (scan_posts engine (posts db)) in
  let query := merge_sort newer_first query in
  let query := sql_limit limit query in
  PostRecordM.to_model <$> query.

(** [lower()] of SQLite changes the letters A to Z only. *)
Definition sqlite_lower_char (c : ascii) : ascii :=
  if PyStr.between 65 90 c then ascii_of_N (PyStr.code c + 32) else c.

Definition sqlite_lower (s : string) : string :=
  PyStr.map_chars sqlite_lower_char s.

(** [text LIKE pattern] of SQLite: [%] stands for any run of characters,
    [_] for any one character, and the letters A to Z match in either
    case. *)
Fixpoint like (pattern : string) : string -> bool :=
  match pattern with
  | EmptyString => fun text => bool_decide (text = EmptyString)
  | String p pattern' =>
      if Ascii.eqb p "%" then
        fix any (text : string) : bool :=
          like pattern' text
          || match text with
             | EmptyString => false
             | String _ text' => any text'
             end
      else
        fun text =>
          match text with
          | EmptyString => false
          | String c text' =>
              (Ascii.eqb p "_" || Ascii.eqb (sqlite_lower_char p) (sqlite_lower_char c))
              && like pattern' text'
          end
  end.

(** [LIKE] reads its two operands as C strings: each ends at its first NUL
    character, if it has one. *)
Definition nul : ascii := Ascii.zero.

Fixpoint c_string (s : string) : string :=
  match s with
  | EmptyString => EmptyString
  | String c rest => if Ascii.eqb c nul then EmptyString else String c (c_string rest)
  end.

(** [column.ilike(pattern)], which SQLAlchemy renders for SQLite as
    [lower(column) LIKE lower(pattern)]. *)
Definition ilike (column pattern : string) : bool :=
  like (c_string (sqlite_lower pattern)) (c_string (sqlite_lower column)).

(** The length in bytes of a text of Latin-1 characters in UTF-8, the
    encoding in which the driver hands text to SQLite. *)
Fixpoint utf8_length (s : string) : Z :=
  match s with
  | EmptyString => 0
  | String c rest => (if (PyStr.code c <? 128)%N then 1 else 2) + utf8_length rest
  end.

(** What a query of the store gives: rows, or the exception of the engine. *)
Inductive Queried (A : Type) :=
| Rows (rows : list A)
| OperationalError.     (* [LIKE or GLOB pattern too complex] *)
Arguments Rows {A} rows.
Arguments OperationalError {A}.

(** SQLite refuses a pattern longer than [like_pattern_length] when it
    evaluates [LIKE], which it does once a row is scanned: not on an empty
    table, and not under [LIMIT 0]. *)
Definition search_songs (engine : Engine) (db : Database) (query : string) (limit : Z)
  : Queried Song :=
  let pattern := "%" ++ query ++ "%" in
  if bool_decide (like_pattern_length engine < utf8_length pattern)
     && negb (limit =? 0)
     && negb (bool_decide (songs db = ∅))
  then OperationalError
  else
    let search_query :=
      filter (fun r => ilike (sr_title r) pattern || ilike (sr_artist r) pattern = true)
             (scan_songs engine (songs db)) in
    let search_query := merge_sort more_sought_first search_query in
    let search_query := sql_limit limit search_query in
    Rows ((fun r => SongRecordM.to_model (source_posts db (sr_id r)) r) <$> search_query).

Definition get_most_sought_songs (engine : Engine) (db : Database) (limit : Z) : list Song :=
  let query := merge_sort more_sought_first (scan_songs engine (songs db)) in
  let query := sql_limit limit query in
  (fun r => SongRecordM.to_model (source_posts db (sr_id r)) r) <$> query.

(** A Python number as [get_stats] computes it: an [int], or the [float]
    that the true division [a / b] of two [int]s gives, the double nearest
    to the quotient.  The division is kept as its two operands; [quotient]
    is the rational that the number is, or that the float is rounded from. *)
Inductive Number :=
| Int (n : Z)
| TrueDiv (a b : Z).

Definition quotient (x : Number) : Q :=
  match x with
  | Int n => inject_Z n
  | TrueDiv a b => Qmake a (Z.to_pos b)
  end.

(** The dictionary of [get_stats]. *)
Record Stats := mkStats {
  total_posts : Z;
  solved_posts : Z;
  unsolved_posts : Z;
  solve_rate : Number;
  total_songs : Z
}.

Definition count_rows {R : Type} (P : R -> bool) (table : gmap string R) : Z :=
  Z.of_nat (length (List.filter P (snd <$> map_to_list table))).

Definition get_stats (db : Database) : Stats :=
  let total_posts := Z.of_nat (size (posts db)) in
  let solved_posts :=
    count_rows (fun r => bool_decide (status_value (pr_status r) = "solved")) (posts db) in
  let total_songs := Z.of_nat (size (songs db)) in
  {| total_posts := total_posts;
     solved_posts := solved_posts;
     unsolved_posts := total_posts - solved_posts;
     solve_rate := if 0 <? total_posts
                   then TrueDiv solved_posts total_posts
                   else Int 0;
     total_songs := total_songs |}.

(** *** Vocabulary for the properties of the store *)

(** [kept] is what a later state of a song row may differ in from an
    earlier one: a larger counter and more descriptions behind the old. *)
Definition song_kept (r r' : SongRecord) : Prop :=
  sr_id r' = sr_id r
  ∧ sr_title r' = sr_title r
  ∧ sr_artist r' = sr_artist r
  ∧ sr_album r' = sr_album r
  ∧ sr_year r' = sr_year r
  ∧ sr_spotify_url r' = sr_spotify_url r
  ∧ sr_youtube_url r' = sr_youtube_url r
  ∧ sr_apple_music_url r' = sr_apple_music_url r
  ∧ sr_discovered_at r' = sr_discovered_at r
  ∧ sr_discovery_count r ≤ sr_discovery_count r'
  ∧ sr_original_descriptions_json r `prefix_of` sr_original_descriptions_json r'.

(** Two post rows that agree on every column except [identified_song_id]. *)
Definition same_but_link (r r' : PostRecord) : Prop :=
  PostRecordM.set_identified_song_id r' None = PostRecordM.set_identified_song_id r None.

(** Orders on the models returned by the queries. *)
Definition newer_post_first (p q : Post) : Prop :=
  post_created_at q ≤ post_created_at p.

Definition more_sought_song_first (s t : Song) : Prop :=
  song_discovery_count t ≤ song_discovery_count s.

(** A query text in which no character is a wildcard of [LIKE]. *)
Fixpoint wildcard_free (query : string) : bool :=
  match query with
  | EmptyString => true
  | String c rest =>
      negb (Ascii.eqb c "%") && negb (Ascii.eqb c "_") && wildcard_free rest
  end.

(** A text without a NUL character. *)
Fixpoint nul_free (s : string) : bool :=
  match s with
  | EmptyString => true
  | String c rest => negb (Ascii.eqb c nul) && nul_free rest
  end.

(** The [WHERE] clause of [search_songs]. *)
Definition song_matches (query : string) (r : SongRecord) : Prop :=
  ilike (sr_title r) ("%" ++ query ++ "%") || ilike (sr_artist r) ("%" ++ query ++ "%") = true.

(** ** Extractor: enrichment ([tomt/services/parser.py]) *)

(** [post.description = value] for a string or [None]. *)
Definition set_description (p : Post) (description : option string) : Post :=
  {| post_id := post_id p;
     post_subreddit := post_subreddit p;
     post_title := post_title p;
     post_body := post_body p;
     post_author := post_author p;
     post_url := post_url p;
     post_created_at := post_created_at p;
     post_scraped_at := post_scraped_at p;
     post_status := post_status p;
     post_flair := post_flair p;
     post_score := post_score p;
     post_num_comments := post_num_comments p;
     post_audio_links := post_audio_links p;
     post_description := description;
     post_solution_comment_id := post_solution_comment_id p;
     post_solution_text := post_solution_text p;
     post_identified_song_id := post_identified_song_id p |}.

(** The post that [enrich_post] returns.  The assignment to
    [post.description] is not validated, so the attribute may end up holding
    a decoded value that is neither a string nor [None]: [Mistyped] carries
    the post as it was and that value. *)
Inductive Enriched :=
| Described (post : Post)
| Mistyped (post : Post) (value : json).

Definition enrich_post (rt : ParserRuntime) (post : Post) : list Prompt * Outcome Enriched :=
  match extract_description rt post with
  | (calls, Raised e) => (calls, Raised e)
  | (calls, Returned (JObj extraction)) =>
      match dict_get extraction "description" with
      | JNull => (calls, Returned (Described (set_description post None)))
      | JStr text => (calls, Returned (Described (set_description post (Some text))))
      | value => (calls, Returned (Mistyped post value))
      end
  | (calls, Returned _) => (calls, Raised AttributeError)
  end.

(** *** Vocabulary for the properties of the extractor and the classifier *)

Definition backtick : ascii := "`"%char.

(** A text without any backtick. *)
Fixpoint no_backtick (s : string) : bool :=
  match s with
  | EmptyString => true
  | String c rest => negb (Ascii.eqb c backtick) && no_backtick rest
  end.

(** A text that does not begin with a backtick. *)
Definition no_leading_backtick (s : string) : bool :=
  match s with
  | EmptyString => true
  | String c _ => negb (Ascii.eqb c backtick)
  end.

(** The characters a song id is made of: the underscore, and alphanumeric
    characters that lower-casing leaves as they are. *)
Definition id_char (c : ascii) : bool :=
  Ascii.eqb c "_" || (PyStr.isalnum c && Ascii.eqb (PyStr.lower_char c) c).

(** [x] occurs in [s]. *)
Definition occurs_in (x s : string) : Prop :=
  ∃ before after, s = (before ++ x ++ after)%string.

(** ** Fetching a thread with its replies ([tomt/scrapers/reddit.py]) *)

(** The fields of a [praw] comment that the scraper reads. *)
Record RawComment := mkRawComment {
  rc_id : string;
  rc_author : option string;
  rc_body : string;
  rc_score : Z;
  rc_created_utc : Z;
  rc_is_submitter : bool;
  rc_parent_id : string
}.

(** [reddit.submission(id=...)] with its comment forest flattened by
    [comments.replace_more(limit=0)] and [comments.list()]; [None] when the
    client raises. *)
Definition ThreadSource := string -> option (Submission * list RawComment).

Definition comment_dict (comment : RawComment) : Comment :=
  {| c_id := rc_id comment;
     c_author := match rc_author comment with
                 | Some name => name
                 | None => "[deleted]"
                 end;
     c_body := rc_body comment;
     c_score := rc_score comment;
     c_created_at := rc_created_utc comment;
     c_is_submitter := rc_is_submitter comment;
     c_is_op_reply := PyStr.startswith "t3_" (rc_parent_id comment) |}.

(** [None] when the client raises; otherwise the post, the comments and the
    count of clock readings, one more than before. *)
Definition get_post_with_comments (rt : Runtime) (threads : ThreadSource) (tick : nat)
           (post_id : string) : option (Post * list Comment * nat) :=
  match threads post_id with
  | None => None
  | Some (submission, raw) =>
      Some (_submission_to_post rt (utcnow rt tick) submission,
            comment_dict <$> raw,
            S tick)
  end.

(** ** Orchestrator ([tomt/services/discovery.py]) *)

(** [not x] for an optional string: true for [None] and for the empty string. *)
Definition falsy (x : option string) : bool :=
  match x with
  | None => true
  | Some s => bool_decide (s = "")
  end.

(** [song.original_descriptions.append(description)] *)
Definition append_description (song : Song) (description : string) : Song :=
  {| song_id := song_id song;
     song_title := song_title song;
     song_artist := song_artist song;
     song_album := song_album song;
     song_year := song_year song;
     song_spotify_url := song_spotify_url song;
     song_youtube_url := song_youtube_url song;
     song_apple_music_url := song_apple_music_url song;
     song_discovered_at := song_discovered_at song;
     song_source_post_ids := song_source_post_ids song;
     song_discovery_count := song_discovery_count song;
     song_original_descriptions := song_original_descriptions song ++ [description] |}.

(** The song handed to [save_song] for a post: the post's description, when
    it has one that is not empty, is added to the song's. *)
Definition with_description_of (post : Post) (song : Song) : Song :=
  if falsy (post_description post) then song
  else append_description song (or_empty (post_description post)).

(** The extraction capability may answer the same prompt differently at
    different times; [parser_at i] is the extractor's runtime at the [i]-th
    post of a loop. *)
Definition ParserOracle := nat -> ParserRuntime.

(** One turn of the loop of [process_solved_posts]: [None] when the post is
    skipped (the comments could not be fetched, the extraction raised, or no
    song was found), otherwise the song to save. *)
Definition solve_post (rt : Runtime) (threads : ThreadSource) (prt : ParserRuntime)
           (tick : nat) (post : Post) : option Song * nat :=
  match get_post_with_comments rt threads tick (post_id post) with
  | None => (None, tick)
  | Some (_, comments, tick') =>
      match (extract_solution prt post comments).2 with
      | Returned (Some song) => (Some (with_description_of post song), tick')
      | Returned None => (None, tick')
      | Raised _ => (None, tick')
      end
  end.

Fixpoint process_loop (rt : Runtime) (threads : ThreadSource) (parser_at : ParserOracle)
         (i : nat) (todo : list Post) (db : Database) (songs_found : Z) (tick : nat)
  : Database * Z * nat :=
  match todo with
  | [] => (db, songs_found, tick)
  | post :: rest =>
      match solve_post rt threads (parser_at i) tick post with
      | (Some song, tick') =>
          process_loop rt threads parser_at (S i) rest
                       (save_song db song (Some post)) (songs_found + 1) tick'
      | (None, tick') =>
          process_loop rt threads parser_at (S i) rest db songs_found tick'
      end
  end.

(** The solved posts without a song among the [limit] newest solved posts. *)
Definition unresolved_posts (engine : Engine) (db : Database) (limit : Z) : list Post :=
  List.filter (fun p => falsy (post_identified_song_id p))
              (get_posts engine db None (Some SOLVED) limit 0).

Definition process_solved_posts (engine : Engine) (rt : Runtime) (threads : ThreadSource)
           (parser_at : ParserOracle) (db : Database) (limit : Z) (tick : nat)
  : Database * Z * nat :=
  process_loop rt threads parser_at 0 (unresolved_posts engine db limit) db 0 tick.

(** What the database driver makes of the value bound to the TEXT column
    [description].  [post.description] may hold any decoded value (see
    [Mistyped]): a string or [None] is stored as it is; an [int] that fits 64
    bits and a [bool] are bound as integers, a [float] as a real, and SQLite
    stores the text of each; a larger [int], a [list] and a [dict] are
    refused by the driver. *)
Inductive Bound :=
| BoundText (text : option string)
| Unbound (e : exn).

Definition bind_description (engine : Engine) (value : json) : Bound :=
  match value with
  | JNull => BoundText None
  | JStr s => BoundText (Some s)
  | JBool b => BoundText (Some (if b then "1" else "0"))
  | JInt n =>
      if bool_decide (- 2 ^ 63 ≤ n < 2 ^ 63) then BoundText (Some (pretty n))
      else Unbound OverflowError
  | JFloat f => BoundText (real_text engine f)
  | JArr _ | JObj _ => Unbound DriverError
  end.

(** How a run of [scrape_and_store] ends. *)
Inductive StoreRun :=
| Finished (db : Database) (count : Z) (tick : nat)
| Aborted (db : Database) (e : exn).
    (* an exception left the loop; [db] holds what was committed before *)

(** [raise ValueError(f"Unknown mode: {mode}")] *)
Inductive ModeError := UnknownMode (mode : string).

(** The loop of [scrape_and_store] over the yielded posts.  [save_post]
    of a post whose description is not a string stores what the driver binds
    for it, or raises with the driver. *)
Fixpoint store_loop (engine : Engine) (parser_at : ParserOracle) (enrich : bool) (i : nat)
         (yielded : list Post) (db : Database) (count : Z) (tick : nat) : StoreRun :=
  match yielded with
  | [] => Finished db count tick
  | post :: rest =>
      if enrich then
        match (enrich_post (parser_at i) post).2 with
        | Raised e => Aborted db e
        | Returned (Mistyped p value) =>
            match bind_description engine value with
            | Unbound e => Aborted db e
            | BoundText text =>
                store_loop engine parser_at enrich (S i) rest
                           (save_post db (set_description p text)) (count + 1) tick
            end
        | Returned (Described enriched) =>
            store_loop engine parser_at enrich (S i) rest
                       (save_post db enriched) (count + 1) tick
        end
      else store_loop engine parser_at enrich (S i) rest
                      (save_post db post) (count + 1) tick
  end.

(** The generator chosen by [mode]. *)
Definition scrape_in_mode (rt : Runtime) (subreddits : list string) (mode : string)
           (limit : Z) (tick : nat) : option (list Post * nat) :=
  if bool_decide (mode = "new") then Some (scrape_new rt subreddits limit tick)
  else if bool_decide (mode = "hot") then Some (scrape_hot rt subreddits limit tick)
  else if bool_decide (mode = "solved") then Some (scrape_solved rt subreddits limit tick)
  else None.

Definition scrape_and_store (engine : Engine) (rt : Runtime) (parser_at : ParserOracle)
           (subreddits : list string) (db : Database)
           (mode : string) (limit : Z) (enrich : bool) (tick : nat)
  : ModeError + StoreRun :=
  match scrape_in_mode rt subreddits mode limit tick with
  | None => inl (UnknownMode mode)
  | Some (yielded, tick') => inr (store_loop engine parser_at enrich 0 yielded db 0 tick')
  end.

(** The dictionary [discover] returns. *)
Record Discovery := mkDiscovery {
  posts_scraped : Z;
  songs_found : Z;
  stats : Stats
}.

(** How a discovery cycle ends: with its result and the store it leaves, or
    as its scraping stage ended. *)
Inductive Cycle :=
| Completed (result : Discovery) (db : Database)
| Interrupted (run : StoreRun)
| Rejected (e : ModeError).

(** [discover(scrape_mode, scrape_limit, process)]; [enrich_at] and
    [solve_at] are the extractor's runtimes in the two stages. *)
Definition discover (engine : Engine) (rt : Runtime) (threads : ThreadSource)
           (enrich_at solve_at : ParserOracle) (subreddits : list string)
           (db : Database) (scrape_mode : string) (scrape_limit : Z) (process : bool)
           (tick : nat) : Cycle :=
  match scrape_and_store engine rt enrich_at subreddits db scrape_mode scrape_limit
                         true tick with
  | inl e => Rejected e
  | inr (Finished db1 posts_scraped tick1) =>
      let '(db2, songs_found, _) :=
        if process && bool_decide (scrape_mode = "solved")
        then process_solved_posts engine rt threads solve_at db1 scrape_limit tick1
        else (db1, 0, tick1) in
      Completed {| posts_scraped := posts_scraped;
                   songs_found := songs_found;
                   stats := get_stats db2 |} db2
  | inr run => Interrupted run
  end.

(** *** Vocabulary for the properties of the orchestrator *)

(** Every row is stored under its own id. *)
Definition db_ok (db : Database) : Prop :=
  (∀ k row, posts db !! k = Some row → pr_id row = k)
  ∧ (∀ k row, songs db !! k = Some row → sr_id row = k).

(** The [save_song] calls a list of discoveries stands for. *)
Definition saves_of (found : list (Song * Post)) : list store_op :=
  (fun sp => SaveSong sp.1 (Some sp.2)) <$> found.

(** What is known of a song that a turn of the resolution loop saves. *)
Definition found_song (s : Song) : Prop :=
  song_discovery_count s = 1
  ∧ song_id s = make_song_id (song_artist s) (song_title s).

(** A post row as the resolution pass may leave it: every column but the
    link as before, and the link changed only on a row that was SOLVED and
    without a link, to a link that is not empty. *)
Definition resolved_from (row row' : PostRecord) : Prop :=
  same_but_link row row'
  ∧ (pr_identified_song_id row' ≠ pr_identified_song_id row →
     pr_status row = SOLVED
     ∧ falsy (pr_identified_song_id row) = true
     ∧ falsy (pr_identified_song_id row') = false).

(** The modes [scrape_and_store] knows. *)
Definition MODES : list string := ["new"; "hot"; "solved"].

(** The discoveries of the resolution loop: for each post of the list, in
    order, the song that its turn saves, if it saves one.  A turn reads the
    thread source, the extractor and the clock, never the store. *)
Fixpoint discoveries (rt : Runtime) (threads : ThreadSource) (parser_at : ParserOracle)
         (i : nat) (todo : list Post) (tick : nat) : list (Song * Post) :=
  match todo with
  | [] => []
  | post :: rest =>
      match solve_post rt threads (parser_at i) tick post with
      | (Some song, tick') => (song, post) :: discoveries rt threads parser_at (S i) rest tick'
      | (None, tick') => discoveries rt threads parser_at (S i) rest tick'
      end
  end.

(** The post that a turn of the loop of [scrape_and_store] saves when
    enrichment is on, or the exception that ends the run at that turn. *)
Definition enriched_for_store (engine : Engine) (prt : ParserRuntime) (post : Post)
  : Outcome Post :=
  match (enrich_post prt post).2 with
  | Raised e => Raised e
  | Returned (Described enriched) => Returned enriched
  | Returned (Mistyped p value) =>
      match bind_description engine value with
      | BoundText text => Returned (set_description p text)
      | Unbound e => Raised e
      end
  end.

(** *** A sample thread source *)

Definition sample_raw_comment : RawComment :=
  {| rc_id := "c1";
     rc_author := Some "helper";
     rc_body := "It's Blue Monday by New Order";
     rc_score := 12;
     rc_created_utc := 1700000050;
     rc_is_submitter := false;
     rc_parent_id := "t3_t1" |}.

(** A client that serves the thread [t1] with one reply and raises for
    every other id. *)
Definition sample_threads : ThreadSource :=
  fun pid =>
    if bool_decide (pid = "t1")
    then Some (sample_thread "t1" "WhatsThisSong" "80s synth song" (Some "Solved"),
               [sample_raw_comment])
    else None.
(** * Properties *)

Local Open Scope list_scope.

(** ** String primitives *)

Example lower_mixed : PyStr.lower "New Order_Blue Monday" = "new order_blue monday".
Proof. reflexivity. Qed.

Example split_fence :
  PyStr.split "```json" "a```jsonb```jsonc```d" = ["a"; "b"; "c```d"].
Proof. reflexivity. Qed.

Example split_overlap : PyStr.split "aa" "aaaa" = [""; ""; ""].
Proof. reflexivity. Qed.

Example split_backticks : PyStr.split "```" "```` x" = [""; "` x"].
Proof. reflexivity. Qed.

Example strip_spaces : PyStr.strip "  a b 	" = "a b".
Proof. reflexivity. Qed.

(** ** Regular expressions *)

Example findall_links :
  flat_map (fun pattern =>
              Re.findall pattern
                "see https://www.youtube.com/watch?v=abc-123_x&t=1 and HTTP://youtu.be/XyZ, https://soundcloud.com/a-b/c_d/e https://www.tiktok.com/@us.er-1/video/12345abc https://youtube.com/watch?v= x")
           AUDIO_LINK_PATTERNS
  = [ "https://www.youtube.com/watch?v=abc-123_x";
      "HTTP://youtu.be/XyZ";
      "https://soundcloud.com/a-b/c_d";
      "https://www.tiktok.com/@us.er-1/video/12345" ].
Proof. vm_compute. reflexivity. Qed.

Example search_music_patterns :
  (fun title => existsb (fun pattern => Re.search pattern title) MUSIC_FLAIR_PATTERNS)
    <$> [ "[TOMT][Song] 80s"; "[tomt]  [ARTIST] x"; "[TOMT] [movie]";
          "a [Music] b"; "[TOMT] song"; "[TOMT][ban"; "x[tomt] [band" ]
  = [true; true; false; true; false; false; true].
Proof. vm_compute. reflexivity. Qed.

(** ** The store: saving posts *)

Lemma setattr_all_new (existing new : PostRecord) :
  PostRecordM.setattr_all existing new = new.
Proof. destruct new; reflexivity. Qed.

Lemma to_model_from_model (p : Post) :
  PostRecordM.to_model (PostRecordM.from_model p) = p.
Proof. destruct p; reflexivity. Qed.

Lemma save_post_row (db : Database) (post : Post) :
  posts (save_post db post) = <[post_id post := PostRecordM.from_model post]> (posts db).
Proof.
  unfold save_post.
  destruct (posts db !! post_id post) as [existing|]; simpl; [|reflexivity].
  by rewrite setattr_all_new.
Qed.

Lemma save_post_songs (db : Database) (post : Post) :
  songs (save_post db post) = songs db.
Proof. unfold save_post. by destruct (posts db !! post_id post). Qed.


Lemma save_post_other (db : Database) (post : Post) (k : string) :
  k ≠ post_id post → posts (save_post db post) !! k = posts db !! k.
Proof. intros Hk. rewrite save_post_row. by rewrite lookup_insert_ne. Qed.

(** C4, as stated, does not hold: a post first saved with [scraped_at = 100]
    and saved again with [scraped_at = 200] is stored with 200; the value of
    the first insertion is gone. *)
Lemma save_post_resave_moves_scraped_at :
  let first := sample_post "t1" 100 OPEN in
  let again := sample_post "t1" 200 SOLVED in
  let db1 := save_post empty_db first in
  let db2 := save_post db1 again in
  (pr_scraped_at <$> posts db1 !! "t1") = Some 100
  ∧ (pr_scraped_at <$> posts db2 !! "t1") = Some 200
  ∧ (pr_scraped_at <$> posts db2 !! "t1") ≠ (pr_scraped_at <$> posts db1 !! "t1").
Proof.
  cbv zeta. rewrite !save_post_row. simpl.
  rewrite !lookup_insert_eq. simpl. repeat split; congruence.
Qed.

(** C4 (amended): [save_post] leaves the row stored under the post's id equal
    to the incoming post in every column, [scraped_at] included, whether or
    not a row was there before; reading it back gives the incoming post, and
    no other row and no song changes. *)
Theorem save_post_overwrites_every_column (db : Database) (post : Post) :
  posts (save_post db post) !! post_id post = Some (PostRecordM.from_model post)
  ∧ get_post (save_post db post) (post_id post) = Some post
  ∧ (pr_scraped_at <$> posts (save_post db post) !! post_id post) = Some (post_scraped_at post)
  ∧ (∀ k, k ≠ post_id post → posts (save_post db post) !! k = posts db !! k)
  ∧ songs (save_post db post) = songs db.
Proof.
  assert (Hrow : posts (save_post db post) !! post_id post
                 = Some (PostRecordM.from_model post)).
  { rewrite save_post_row. apply lookup_insert_eq. }
  split; [exact Hrow|].
  split.
  { unfold get_post. rewrite Hrow. simpl. by rewrite to_model_from_model. }
  split; [by rewrite Hrow|].
  split; [intros k Hk; by apply save_post_other|].
  apply save_post_songs.
Qed.

Lemma save_post_overwrites_every_column_witness :
  (pr_scraped_at <$> posts (save_post (save_post empty_db (sample_post "t1" 100 OPEN))
                                      (sample_post "t1" 200 SOLVED)) !! "t1")
  = Some 200
  ∧ posts (save_post (save_post empty_db (sample_post "t1" 100 OPEN))
                     (sample_post "t1" 200 SOLVED)) !! "t2"
    = posts (save_post empty_db (sample_post "t1" 100 OPEN)) !! "t2".
Proof.
  destruct (save_post_overwrites_every_column
              (save_post empty_db (sample_post "t1" 100 OPEN))
              (sample_post "t1" 200 SOLVED)) as (_ & _ & Hat & Hother & _).
  split; [exact Hat|]. apply Hother. discriminate.
Defined.

(** ** The store: saving songs *)

Lemma add_descriptions_spec (incoming descriptions : list string) :
  ∃ added,
    add_descriptions descriptions incoming = descriptions ++ added
    ∧ NoDup added
    ∧ ∀ d, d ∈ added ↔ d ∈ incoming ∧ d ∉ descriptions.
Proof.
  revert descriptions.
  induction incoming as [|desc rest IH]; intros descriptions; simpl.
  - exists []. rewrite app_nil_r. split; [done|]. split; [constructor|].
    intros d. split; [by intros ?%elem_of_nil | by intros [?%elem_of_nil _]].
  - unfold str_in. case_bool_decide as Hin.
    + destruct (IH descriptions) as (added & Heq & Hnd & Hmem).
      exists added. split; [done|]. split; [done|].
      intros d. rewrite Hmem, elem_of_cons. split.
      * intros [? ?]. auto.
      * intros [[->|?] ?]; [done | auto].
    + destruct (IH (descriptions ++ [desc])) as (added & Heq & Hnd & Hmem).
      exists (desc :: added). split.
      { rewrite Heq, <- app_assoc. reflexivity. }
      split.
      { constructor; [|done]. intros Hd%Hmem. destruct Hd as [_ Hd].
        apply Hd. apply elem_of_app. right. by apply list_elem_of_singleton. }
      intros d. rewrite !elem_of_cons, Hmem, elem_of_app, list_elem_of_singleton.
      split.
      * intros [->|[? ?]]; [auto | split; [auto | tauto]].
      * intros [[->|?] ?]; [auto|].
        destruct (decide (d = desc)) as [->|?]; [auto | right; tauto].
Qed.

Lemma save_song_absent (db : Database) (song : Song) (src : option Post) :
  songs db !! song_id song = None →
  songs (save_song db song src) = <[song_id song := SongRecordM.from_model song]> (songs db).
Proof. intros H. unfold save_song. simpl. by rewrite H. Qed.

Lemma save_song_present (db : Database) (song : Song) (src : option Post)
      (existing : SongRecord) :
  songs db !! song_id song = Some existing →
  songs (save_song db song src)
  = <[song_id song :=
        SongRecordM.bump existing
          (add_descriptions (sr_original_descriptions_json existing)
                            (song_original_descriptions song))]> (songs db).
Proof. intros H. unfold save_song. simpl. by rewrite H. Qed.

Lemma save_song_other (db : Database) (song : Song) (src : option Post) (k : string) :
  k ≠ song_id song → songs (save_song db song src) !! k = songs db !! k.
Proof.
  intros Hk. unfold save_song. simpl.
  destruct (songs db !! song_id song); by rewrite lookup_insert_ne.
Qed.

(** [save_song] with a source post that is stored sets the link of that row. *)
Lemma save_song_links (db : Database) (song : Song) (sp : Post) (row : PostRecord) :
  posts db !! post_id sp = Some row →
  posts (save_song db song (Some sp)) !! post_id sp
  = Some (PostRecordM.set_identified_song_id row (Some (song_id song))).
Proof. intros H. unfold save_song. simpl. rewrite H. apply lookup_insert_eq. Qed.

(** C2, as stated, does not hold: a song absent from the store and handed to
    [save_song] with [discovery_count = 5] is inserted with 5, not 1. *)
Lemma save_song_insert_copies_count :
  songs empty_db !! song_id (sample_song 5 []) = None
  ∧ (sr_discovery_count <$> songs (save_song empty_db (sample_song 5 []) None)
                              !! song_id (sample_song 5 []))
    = Some 5
  ∧ (sr_discovery_count <$> songs (save_song empty_db (sample_song 5 []) None)
                              !! song_id (sample_song 5 []))
    ≠ Some 1.
Proof.
  assert (H0 : songs empty_db !! song_id (sample_song 5 []) = None) by apply lookup_empty.
  rewrite (save_song_absent _ _ _ H0), lookup_insert_eq. simpl.
  repeat split; congruence.
Qed.

(** C2 (amended): [save_song] is a merge.  A song whose id is absent is
    inserted as it comes, so with the incoming [discovery_count] (1 by the
    model default, which is what [extract_solution] builds).  For a song
    whose id is present the counter grows by exactly 1, the incoming
    descriptions that are not yet stored are appended once each, in order,
    behind the stored ones, and title, artist, album and year (and every
    other column) stay as first stored.  Hence a song first saved with
    count 1 and saved again under the same id is one row with count 2. *)
Theorem save_song_is_a_merge (db : Database) (song again : Song) (src src' : option Post) :
  (songs db !! song_id song = None →
   songs (save_song db song src) !! song_id song = Some (SongRecordM.from_model song))
  ∧ (∀ existing, songs db !! song_id song = Some existing →
     ∃ stored added,
       songs (save_song db song src) !! song_id song = Some stored
       ∧ sr_discovery_count stored = sr_discovery_count existing + 1
       ∧ sr_original_descriptions_json stored
         = sr_original_descriptions_json existing ++ added
       ∧ NoDup added
       ∧ (∀ d, d ∈ added ↔
               d ∈ song_original_descriptions song
               ∧ d ∉ sr_original_descriptions_json existing)
       ∧ sr_title stored = sr_title existing
       ∧ sr_artist stored = sr_artist existing
       ∧ sr_album stored = sr_album existing
       ∧ sr_year stored = sr_year existing
       ∧ sr_id stored = sr_id existing
       ∧ sr_discovered_at stored = sr_discovered_at existing)
  ∧ (songs db !! song_id song = None →
     song_discovery_count song = 1 →
     song_id again = song_id song →
     ∃ stored,
       songs (save_song (save_song db song src) again src') !! song_id song = Some stored
       ∧ sr_discovery_count stored = 2
       ∧ sr_title stored = song_title song
       ∧ sr_artist stored = song_artist song
       ∧ sr_album stored = song_album song
       ∧ sr_year stored = song_year song
       ∧ size (songs (save_song (save_song db song src) again src')) = S (size (songs db)))
  ∧ (∀ k, k ≠ song_id song →
     songs (save_song db song src) !! k = songs db !! k).
Proof.
  split; [|split; [|split]].
  - intros H. rewrite (save_song_absent _ _ _ H). apply lookup_insert_eq.
  - intros existing H.
    destruct (add_descriptions_spec (song_original_descriptions song)
                (sr_original_descriptions_json existing)) as (added & Heq & Hnd & Hmem).
    eexists _, added. rewrite (save_song_present _ _ _ _ H), lookup_insert_eq.
    split; [reflexivity|]. simpl. rewrite Heq. by split_and!.
  - intros Habsent Hone Hid.
    assert (H1 : songs (save_song db song src) !! song_id again
                 = Some (SongRecordM.from_model song)).
    { rewrite Hid, (save_song_absent _ _ _ Habsent). apply lookup_insert_eq. }
    rewrite (save_song_present _ _ src' _ H1), Hid.
    rewrite (save_song_absent _ _ src Habsent), insert_insert_eq.
    eexists. rewrite lookup_insert_eq. split; [reflexivity|]. simpl. rewrite Hone.
    split_and!; try done.
    by apply map_size_insert_None.
  - intros k Hk. by apply save_song_other.
Qed.

Lemma save_song_is_a_merge_witness :
  ∃ stored,
    songs (save_song (save_song empty_db (sample_song 1 ["a synth riff"]) None)
                     (sample_song 1 ["drum machine intro"]) None)
      !! "new_order_blue_monday" = Some stored
    ∧ sr_discovery_count stored = 2.
Proof.
  destruct (save_song_is_a_merge empty_db (sample_song 1 ["a synth riff"])
              (sample_song 1 ["drum machine intro"]) None None)
    as (_ & _ & Hdedup & _).
  assert (Habsent : songs empty_db !! song_id (sample_song 1 ["a synth riff"]) = None)
    by (vm_compute; reflexivity).
  destruct (Hdedup Habsent eq_refl eq_refl) as (stored & Hs & Hc & _).
  exists stored. split; [exact Hs | exact Hc].
Defined.

(** ** The store: the discovery counter *)

Lemma run_ops_snoc (ops : list store_op) (o : store_op) (db : Database) :
  run_ops (ops ++ [o]) db = apply_op (run_ops ops db) o.
Proof. unfold run_ops. by rewrite fold_left_app. Qed.

Lemma save_song_calls_snoc (sid : string) (ops : list store_op) (o : store_op) :
  save_song_calls sid (ops ++ [o])
  = (save_song_calls sid ops + (if is_save_song_of sid o then 1 else 0))%nat.
Proof.
  unfold save_song_calls. rewrite List.filter_app, length_app. simpl.
  by destruct (is_save_song_of sid o).
Qed.

Lemma counter_tracks_calls (ops : list store_op) :
  default_counts ops →
  ∀ sid, (sr_discovery_count <$> songs (run_ops ops empty_db) !! sid)
         = counter_after (save_song_calls sid ops).
Proof.
  induction ops as [|o ops IH] using rev_ind; intros Hdef sid.
  - simpl. by rewrite lookup_empty.
  - apply Forall_app in Hdef as [Hdef Ho]. apply (proj1 (Forall_singleton _ _)) in Ho.
    specialize (IH Hdef).
    rewrite run_ops_snoc, save_song_calls_snoc.
    destruct o as [p|s src]; cbn [apply_op is_save_song_of].
    + rewrite save_post_songs, Nat.add_0_r. apply IH.
    + case_bool_decide as Hid.
      * subst sid. specialize (IH (song_id s)).
        destruct (songs (run_ops ops empty_db) !! song_id s) as [existing|] eqn:Hex.
        -- rewrite (save_song_present _ _ _ _ Hex), lookup_insert_eq. simpl.
           destruct (save_song_calls (song_id s) ops) as [|n]; simpl in IH; [done|].
           injection IH as IH. rewrite IH.
           replace (S n + 1)%nat with (S (S n)) by lia. simpl counter_after.
           f_equal. lia.
        -- rewrite (save_song_absent _ _ _ Hex), lookup_insert_eq. simpl.
           destruct (save_song_calls (song_id s) ops) as [|n]; simpl in IH; [|done].
           simpl in Ho |- *. by rewrite Ho.
      * rewrite save_song_other by done. rewrite Nat.add_0_r. apply IH.
Qed.

(** C1, as stated, does not hold.  A solved post is saved, a song is saved
    with that post as its source, and the post is scraped and saved again:
    the song's counter is 1 while no stored post links to it.  The same gap
    opens when [save_song] is called without a source post. *)
Lemma discovery_count_is_not_the_link_count :
  let p := sample_post "t1" 100 SOLVED in
  let p' := sample_post "t1" 200 SOLVED in
  let s := sample_song 1 [] in
  let db := run_ops [SavePost p; SaveSong s (Some p); SavePost p'] empty_db in
  (sr_discovery_count <$> songs db !! song_id s) = Some 1
  ∧ length (source_posts db (song_id s)) = 0%nat
  ∧ (sr_discovery_count <$> songs (save_song empty_db s None) !! song_id s) = Some 1
  ∧ length (source_posts (save_song empty_db s None) (song_id s)) = 0%nat.
Proof. vm_compute. repeat split. Qed.

Lemma source_posts_insert (db : Database) (k : string) (row row' : PostRecord)
      (sgs : gmap string SongRecord) (sid : string) :
  posts db !! k = Some row →
  pr_identified_song_id row ≠ Some sid →
  pr_identified_song_id row' = Some sid →
  length (source_posts {| posts := <[k := row']> (posts db); songs := sgs |} sid)
  = S (length (source_posts db sid)).
Proof.
  intros Hrow Hold Hnew. unfold source_posts. simpl.
  rewrite <- (insert_delete_eq (posts db)).
  rewrite (map_to_list_insert (delete k (posts db)) k row') by apply lookup_delete_eq.
  rewrite <- (map_to_list_delete (posts db) k row Hrow).
  rewrite !fmap_cons. simpl.
  rewrite (filter_cons_True _ row') by done.
  rewrite (filter_cons_False _ row) by done.
  reflexivity.
Qed.

(** Linking a stored post that does not yet link to the song adds one row to
    the relationship of that song. *)
Lemma save_song_adds_one_link (db : Database) (song : Song) (sp : Post) (row : PostRecord) :
  posts db !! post_id sp = Some row →
  pr_identified_song_id row ≠ Some (song_id song) →
  length (source_posts (save_song db song (Some sp)) (song_id song))
  = S (length (source_posts db (song_id song))).
Proof.
  intros Hrow Hold. unfold save_song. rewrite Hrow.
  by apply (source_posts_insert db (post_id sp) row).
Qed.

(** C1 (amended): [discovery_count] is a stored counter.  At every state
    reached from the empty store by [save_post] and [save_song] calls whose
    songs carry the default count 1, a song id is stored exactly when some
    [save_song] call carried it, and its [discovery_count] is then the number
    of those calls, each call adding exactly 1 whether or not it linked a
    post; [save_post] never changes it.  A [save_song] call whose source post
    is stored and not yet linked to the song adds, with that 1, one Request
    to those linked to the song. *)
Theorem discovery_count_counts_save_song_calls (ops : list store_op) (sid : string) :
  default_counts ops →
  (sr_discovery_count <$> songs (run_ops ops empty_db) !! sid)
  = counter_after (save_song_calls sid ops)
  ∧ (∀ p, (sr_discovery_count <$> songs (save_post (run_ops ops empty_db) p) !! sid)
          = counter_after (save_song_calls sid ops))
  ∧ (∀ s src, song_discovery_count s = 1 → song_id s = sid →
       (sr_discovery_count <$> songs (save_song (run_ops ops empty_db) s src) !! sid)
       = Some (Z.of_nat (save_song_calls sid ops) + 1))
  ∧ (∀ s sp row, song_id s = sid →
       posts (run_ops ops empty_db) !! post_id sp = Some row →
       pr_identified_song_id row ≠ Some sid →
       length (source_posts (save_song (run_ops ops empty_db) s (Some sp)) sid)
       = S (length (source_posts (run_ops ops empty_db) sid))).
Proof.
  intros Hdef. pose proof (counter_tracks_calls ops Hdef sid) as Hnow.
  split; [exact Hnow|]. split; [|split].
  - intros p. by rewrite save_post_songs.
  - intros s src Hone Hid.
    assert (Hdef' : default_counts (ops ++ [SaveSong s src])).
    { apply Forall_app. split; [done|]. by apply Forall_singleton. }
    pose proof (counter_tracks_calls _ Hdef' sid) as Hnext.
    rewrite run_ops_snoc, save_song_calls_snoc in Hnext.
    cbn [apply_op is_save_song_of] in Hnext.
    rewrite bool_decide_eq_true_2 in Hnext by done.
    rewrite Hnext. replace (save_song_calls sid ops + 1)%nat
      with (S (save_song_calls sid ops)) by lia.
    simpl counter_after. f_equal. lia.
  - intros s sp row <- Hrow Hold. by apply (save_song_adds_one_link _ _ _ row).
Qed.

Lemma discovery_count_counts_save_song_calls_witness :
  (sr_discovery_count <$>
     songs (run_ops [SavePost (sample_post "t1" 100 SOLVED);
                     SaveSong (sample_song 1 []) (Some (sample_post "t1" 100 SOLVED));
                     SavePost (sample_post "t2" 300 SOLVED);
                     SaveSong (sample_song 1 ["again"]) (Some (sample_post "t2" 300 SOLVED))]
              empty_db) !! "new_order_blue_monday")
  = Some 2.
Proof.
  refine (proj1 (discovery_count_counts_save_song_calls
                   [SavePost (sample_post "t1" 100 SOLVED);
                    SaveSong (sample_song 1 []) (Some (sample_post "t1" 100 SOLVED));
                    SavePost (sample_post "t2" 300 SOLVED);
                    SaveSong (sample_song 1 ["again"]) (Some (sample_post "t2" 300 SOLVED))]
                   "new_order_blue_monday" _)).
  repeat constructor.
Defined.

(** ** Classifier: the generators *)

Section Generators.

Context (rt : Runtime) (adjust : Post → Post).

Lemma yield_music_app (l1 l2 : list Submission) (tick : nat) :
  yield_music rt adjust tick (l1 ++ l2)
  = ((yield_music rt adjust tick l1).1
       ++ (yield_music rt adjust (yield_music rt adjust tick l1).2 l2).1,
     (yield_music rt adjust (yield_music rt adjust tick l1).2 l2).2).
Proof.
  revert tick. induction l1 as [|sub l1 IH]; intros tick; simpl.
  - by destruct (yield_music rt adjust tick l2).
  - destruct (_is_music_post sub); [|apply IH].
    rewrite IH.
    destruct (yield_music rt adjust (S tick) l1) as [ps t1]. simpl.
    by destruct (yield_music rt adjust t1 l2).
Qed.

Lemma scrape_each_flat (fetch : string → list Submission)
      (subreddits : list string) (tick : nat) :
  scrape_each rt fetch adjust tick subreddits
  = yield_music rt adjust tick (flat_map fetch subreddits).
Proof.
  revert tick. induction subreddits as [|name rest IH]; intros tick; simpl; [done|].
  rewrite yield_music_app.
  destruct (yield_music rt adjust tick (fetch name)) as [ps t1]. simpl.
  rewrite IH. by destruct (yield_music rt adjust t1 (flat_map fetch rest)).
Qed.

Lemma yield_music_elem (listing : list Submission) (tick : nat) (p : Post) :
  p ∈ (yield_music rt adjust tick listing).1 →
  ∃ sub n, sub ∈ listing ∧ _is_music_post sub = true
           ∧ p = adjust (_submission_to_post rt (utcnow rt n) sub).
Proof.
  revert tick. induction listing as [|sub rest IH]; intros tick; simpl.
  - by intros ?%elem_of_nil.
  - destruct (_is_music_post sub) eqn:Hm.
    + destruct (yield_music rt adjust (S tick) rest) as [ps t1] eqn:Hy. simpl.
      intros [->|Hin]%elem_of_cons.
      * exists sub, tick. split; [apply elem_of_cons; auto | auto].
      * specialize (IH (S tick)). rewrite Hy in IH.
        destruct (IH Hin) as (sub' & n & ? & ? & ?).
        exists sub', n. split; [apply elem_of_cons; auto | auto].
    + intros Hin. destruct (IH tick Hin) as (sub' & n & ? & ? & ?).
      exists sub', n. split; [apply elem_of_cons; auto | auto].
Qed.

Lemma yield_music_drop (before after : list Submission) (sub : Submission) (tick : nat) :
  _is_music_post sub = false →
  yield_music rt adjust tick (before ++ sub :: after)
  = yield_music rt adjust tick (before ++ after).
Proof.
  intros Hm. rewrite !yield_music_app. simpl. by rewrite Hm.
Qed.

Lemma yield_music_keep (before after : list Submission) (sub : Submission) (tick : nat) :
  _is_music_post sub = true →
  ∃ n, adjust (_submission_to_post rt (utcnow rt n) sub)
       ∈ (yield_music rt adjust tick (before ++ sub :: after)).1.
Proof.
  intros Hm. rewrite yield_music_app. simpl. rewrite Hm.
  exists (yield_music rt adjust tick before).2.
  destruct (yield_music rt adjust (S (yield_music rt adjust tick before).2) after).
  simpl. apply elem_of_app. right. apply elem_of_cons. by left.
Qed.

End Generators.

(** ** Classifier: status *)

Lemma determine_status_by_precedence (sub : Submission) :
  _determine_status sub = status_by_precedence (sub_link_flair_text sub).
Proof.
  unfold _determine_status, status_by_precedence. simpl. unfold any_in. simpl.
  rewrite !orb_false_r. reflexivity.
Qed.

Lemma submission_to_post_status (rt : Runtime) (now : datetime) (sub : Submission) :
  post_status (_submission_to_post rt now sub)
  = status_by_precedence (post_flair (_submission_to_post rt now sub)).
Proof. simpl. apply determine_status_by_precedence. Qed.

Example status_solved_and_open :
  status_by_precedence (Some "Solved - still open to guesses") = SOLVED.
Proof. reflexivity. Qed.

Example status_no_indicator :
  status_by_precedence None = UNKNOWN ∧ status_by_precedence (Some "Help") = UNKNOWN.
Proof. split; reflexivity. Qed.

(** A tag reading "Unsolved" contains "solved", so the first rule takes it. *)
Example status_unsolved_tag :
  _determine_status (sample_thread "t3" "WhatsThisSong" "a tune" (Some "Unsolved")) = SOLVED.
Proof. reflexivity. Qed.

(** A post yielded by a generator comes from a music thread of its listings. *)
Ltac from_listing sub n Hin :=
  rewrite scrape_each_flat;
  intros (sub & n & Hin & _ & ->)%yield_music_elem.

(** C5, as stated, does not hold in solved mode: a thread returned by the
    search whose tag reads "Open" is yielded with status [SOLVED], while the
    precedence rules give [OPEN] for that tag. *)
Lemma scrape_solved_overrides_status :
  let thread := sample_thread "t9" "WhatsThisSong" "what is this tune" (Some "Open") in
  let rt := sample_runtime
              (fun name => if bool_decide (name = "WhatsThisSong") then [thread] else []) in
  (post_status <$> (scrape_solved rt DEFAULT_SUBREDDITS 100 0).1) = [SOLVED]
  ∧ (post_flair <$> (scrape_solved rt DEFAULT_SUBREDDITS 100 0).1) = [Some "Open"]
  ∧ status_by_precedence (Some "Open") = OPEN.
Proof. vm_compute. repeat split. Qed.

(** C5 (amended): in the modes new and hot every yielded Request carries the
    tag of its thread, and its status is the one the precedence rules give
    for that tag, read case-insensitively: "solved" or "answered" gives
    SOLVED, otherwise "open" or "searching" gives OPEN, otherwise "unsolved"
    or "closed" gives UNSOLVED, otherwise UNKNOWN.  In the mode solved every
    yielded Request has status SOLVED, whatever its tag. *)
Theorem status_from_tag_except_in_solved_mode
        (rt : Runtime) (subreddits : list string) (limit : Z) (tick : nat) (p : Post) :
  (p ∈ (scrape_new rt subreddits limit tick).1 →
   (∃ sub, sub ∈ flat_map (fun name => subreddit_new rt name limit) subreddits
           ∧ post_id p = sub_id sub ∧ post_flair p = sub_link_flair_text sub)
   ∧ post_status p = status_by_precedence (post_flair p))
  ∧ (p ∈ (scrape_hot rt subreddits limit tick).1 →
     (∃ sub, sub ∈ flat_map (fun name => subreddit_hot rt name limit) subreddits
             ∧ post_id p = sub_id sub ∧ post_flair p = sub_link_flair_text sub)
     ∧ post_status p = status_by_precedence (post_flair p))
  ∧ (p ∈ (scrape_solved rt subreddits limit tick).1 → post_status p = SOLVED)
  ∧ (∀ tag,
       let t := PyStr.lower (or_empty tag) in
       status_by_precedence tag =
         if PyStr.contains "solved" t || PyStr.contains "answered" t then SOLVED
         else if PyStr.contains "open" t || PyStr.contains "searching" t then OPEN
         else if PyStr.contains "unsolved" t || PyStr.contains "closed" t then UNSOLVED
         else UNKNOWN).
Proof.
  split; [|split; [|split]].
  - unfold scrape_new. from_listing sub n Hin.
    split; [by exists sub | apply submission_to_post_status].
  - unfold scrape_hot. from_listing sub n Hin.
    split; [by exists sub | apply submission_to_post_status].
  - unfold scrape_solved. by from_listing sub n Hin.
  - intros tag. unfold status_by_precedence. simpl. unfold any_in. simpl.
    by rewrite !orb_false_r.
Qed.

Lemma status_from_tag_except_in_solved_mode_witness :
  let thread := sample_thread "t9" "WhatsThisSong" "what is this tune" (Some "Open") in
  let rt := sample_runtime
              (fun name => if bool_decide (name = "WhatsThisSong") then [thread] else []) in
  post_status (_submission_to_post rt (utcnow rt 0) thread) = OPEN
  ∧ post_status (set_status SOLVED (_submission_to_post rt (utcnow rt 0) thread)) = SOLVED.
Proof.
  intros thread rt.
  destruct (status_from_tag_except_in_solved_mode rt DEFAULT_SUBREDDITS 100 0
              (_submission_to_post rt (utcnow rt 0) thread)) as (Hnew & _ & _ & _).
  destruct (status_from_tag_except_in_solved_mode rt DEFAULT_SUBREDDITS 100 0
              (set_status SOLVED (_submission_to_post rt (utcnow rt 0) thread)))
    as (_ & _ & Hsolved & _).
  split.
  - rewrite (proj2 (Hnew ltac:(vm_compute; apply list_elem_of_here))). reflexivity.
  - apply Hsolved. vm_compute. apply list_elem_of_here.
Defined.

(** ** Classifier: conversion of a thread *)

Lemma sample_runtime_enumerates_sets (listing : string → list Submission) :
  enumerates_sets (sample_runtime listing).
Proof.
  intros links. split; [apply NoDup_remove_dups|].
  intros x. apply elem_of_remove_dups.
Qed.

Lemma reversed_runtime_enumerates_sets (listing : string → list Submission) :
  enumerates_sets (reversed_runtime listing).
Proof.
  intros links. simpl. split.
  - rewrite reverse_Permutation. apply NoDup_remove_dups.
  - intros x. rewrite elem_of_reverse. apply elem_of_remove_dups.
Qed.

(** C8, as stated, does not hold: the same thread converted in two
    interpreters that enumerate a set in different orders gives two Requests
    whose lists of media links differ, each holding the same two links. *)
Lemma reclassify_changes_link_order :
  post_audio_links (_submission_to_post (sample_runtime (fun _ => [])) 5 two_links_thread)
  = ["https://youtu.be/abc-1"; "https://youtu.be/xyz-2"]
  ∧ post_audio_links (_submission_to_post (reversed_runtime (fun _ => [])) 6 two_links_thread)
    = ["https://youtu.be/xyz-2"; "https://youtu.be/abc-1"]
  ∧ ¬ same_but_scraped_at
        (_submission_to_post (sample_runtime (fun _ => [])) 5 two_links_thread)
        (_submission_to_post (reversed_runtime (fun _ => [])) 6 two_links_thread).
Proof.
  assert (H1 : post_audio_links
                 (_submission_to_post (sample_runtime (fun _ => [])) 5 two_links_thread)
               = ["https://youtu.be/abc-1"; "https://youtu.be/xyz-2"])
    by (vm_compute; reflexivity).
  assert (H2 : post_audio_links
                 (_submission_to_post (reversed_runtime (fun _ => [])) 6 two_links_thread)
               = ["https://youtu.be/xyz-2"; "https://youtu.be/abc-1"])
    by (vm_compute; reflexivity).
  split; [exact H1|]. split; [exact H2|].
  intros Hsame.
  destruct Hsame as (_ & _ & _ & _ & _ & _ & _ & _ & _ & _ & _ & Hlinks & _).
  rewrite H1, H2 in Hlinks. discriminate Hlinks.
Qed.

(** C8 (amended): converting the same thread twice, in interpreters that may
    enumerate sets in different orders, gives two Requests that agree on
    every field except [scraped_at] and the order of the media links: the
    two lists hold the same links, each once.  [scraped_at] is the instant of
    each conversion.  When the two conversions enumerate sets in the same
    order, as two calls in one process do, the lists are equal too. *)
Theorem reclassify_same_up_to_link_order
        (rt1 rt2 : Runtime) (now1 now2 : datetime) (sub : Submission) :
  enumerates_sets rt1 → enumerates_sets rt2 →
  same_but_scraped_at_and_link_order
    (_submission_to_post rt1 now1 sub) (_submission_to_post rt2 now2 sub)
  ∧ NoDup (post_audio_links (_submission_to_post rt1 now1 sub))
  ∧ (∀ x, x ∈ post_audio_links (_submission_to_post rt1 now1 sub)
          ↔ x ∈ post_audio_links (_submission_to_post rt2 now2 sub))
  ∧ post_scraped_at (_submission_to_post rt1 now1 sub) = now1
  ∧ post_scraped_at (_submission_to_post rt2 now2 sub) = now2
  ∧ ((∀ links, set_to_list rt1 links = set_to_list rt2 links) →
     same_but_scraped_at
       (_submission_to_post rt1 now1 sub) (_submission_to_post rt2 now2 sub)).
Proof.
  intros H1 H2.
  set (links := flat_map (fun pattern =>
                            Re.findall pattern
                              (sub_title sub ++ " " ++ sub_selftext sub)%string)
                         AUDIO_LINK_PATTERNS).
  destruct (H1 links) as [Hnd1 Hel1]. destruct (H2 links) as [Hnd2 Hel2].
  assert (Hsame : ∀ x, x ∈ set_to_list rt1 links ↔ x ∈ set_to_list rt2 links).
  { intros x. by rewrite Hel1, Hel2. }
  unfold same_but_scraped_at_and_link_order, same_but_scraped_at.
  cbn [_submission_to_post post_id post_subreddit post_title post_body post_author
       post_url post_created_at post_scraped_at post_status post_flair post_score
       post_num_comments post_audio_links post_description post_solution_comment_id
       post_solution_text post_identified_song_id].
  unfold _extract_audio_links. fold links.
  split_and!;
    first [ done
          | by apply NoDup_Permutation
          | intros Heq; split_and!; try done; apply Heq ].
Qed.

Lemma reclassify_same_up_to_link_order_witness :
  post_audio_links (_submission_to_post (sample_runtime (fun _ => [])) 5 two_links_thread)
  ≡ₚ post_audio_links (_submission_to_post (reversed_runtime (fun _ => [])) 6
                                            two_links_thread).
Proof.
  destruct (reclassify_same_up_to_link_order
              (sample_runtime (fun _ => [])) (reversed_runtime (fun _ => []))
              5 6 two_links_thread
              (sample_runtime_enumerates_sets (fun _ => []))
              (reversed_runtime_enumerates_sets (fun _ => [])))
    as (Hsame & _).
  by destruct Hsame as (_ & _ & _ & _ & _ & _ & _ & _ & _ & _ & _ & Hlinks & _).
Defined.

Example audio_links_deduplicated :
  post_audio_links
    (_submission_to_post (sample_runtime (fun _ => [])) 5
       (sample_thread "t1" "WhatsThisSong" "80s synth song" (Some "Solved")))
  = ["https://youtu.be/abc-1"].
Proof. vm_compute. reflexivity. Qed.

(** Across interpreters the enumeration order of a set may differ; the links
    found are then the same up to order. *)
Lemma audio_links_same_elements (rt1 rt2 : Runtime) (text : string) :
  (∀ l x, x ∈ set_to_list rt1 l ↔ x ∈ l) →
  (∀ l x, x ∈ set_to_list rt2 l ↔ x ∈ l) →
  ∀ x, x ∈ _extract_audio_links rt1 text ↔ x ∈ _extract_audio_links rt2 text.
Proof. intros H1 H2 x. unfold _extract_audio_links. by rewrite H1, H2. Qed.

(** ** Classifier: relevance *)

Lemma is_music_post_cases (sub : Submission) :
  _is_music_post sub =
    if bool_decide (group_name sub ∈ ["whatsthissong"; "namethatsong"]) then true
    else if bool_decide (group_name sub = "tipofmytongue")
         then tag_has_music_term sub || title_has_music_pattern sub
         else true.
Proof.
  unfold _is_music_post, group_name, tag_has_music_term, title_has_music_pattern.
  repeat case_bool_decide; try reflexivity.
  destruct (any_in _ _); [reflexivity|]. cbn [orb].
  match goal with |- (if ?b then _ else _) = _ => by destruct b end.
Qed.

Lemma store_all_same (db : Database) (l1 l2 : list Post) :
  l1 = l2 → store_all db l1 = store_all db l2.
Proof. by intros ->. Qed.



(** C10: a thread whose group name, lower-cased, is none of tipofmytongue,
    whatsthissong and namethatsong passes the relevance check whatever its
    tag and title are. *)
Theorem other_groups_always_accepted (sub : Submission) :
  group_name sub ∉ ["tipofmytongue"; "whatsthissong"; "namethatsong"] →
  _is_music_post sub = true.
Proof.
  intros Hother. rewrite is_music_post_cases.
  case_bool_decide; [reflexivity|].
  case_bool_decide as Hg; [|reflexivity].
  exfalso. apply Hother. rewrite Hg. apply list_elem_of_here.
Qed.

Lemma other_groups_always_accepted_witness :
  _is_music_post (sample_thread "x1" "MusicSuggestions" "a film with a red car"
                    (Some "[TOMT][Movie]")) = true.
Proof.
  apply other_groups_always_accepted.
  vm_compute. intros H. by repeat (apply elem_of_cons in H as [H|H]; [discriminate|]);
    apply elem_of_nil in H.
Defined.

(** ** Extractor: code fences *)

Lemma split_from_nonempty (sep : string) (s : string) :
  ∀ skip cur, ∃ x rest, PyStr.split_from sep skip cur s = x :: rest.
Proof.
  induction s as [|c s IH]; intros skip cur; simpl.
  - by exists cur, [].
  - destruct skip as [|k]; [|apply IH].
    destruct (PyStr.startswith sep (String c s)); [|apply IH].
    by eexists _, _.
Qed.

Lemma split_from_two (a : ascii) (sep' : string) (s : string) :
  ∀ cur, PyStr.contains (String a sep') s = true →
         ∃ x y rest, PyStr.split_from (String a sep') 0 cur s = x :: y :: rest.
Proof.
  induction s as [|c s IH]; intros cur; simpl.
  - discriminate.
  - destruct (Ascii.eqb a c && PyStr.startswith sep' s) eqn:Hstart; simpl.
    + intros _.
      destruct (split_from_nonempty (String a sep') s
                  (String.length sep' - 0) EmptyString) as (y & rest & ->).
      by eexists _, _, _.
    + apply IH.
Qed.

Lemma split_first (sep s : string) : ∃ x, item (PyStr.split sep s) 0 = Returned x.
Proof.
  unfold PyStr.split, item.
  destruct (split_from_nonempty sep s 0%nat EmptyString) as (x & rest & ->).
  by exists x.
Qed.

Lemma split_second (a : ascii) (sep' s : string) :
  PyStr.contains (String a sep') s = true →
  ∃ y, item (PyStr.split (String a sep') s) 1 = Returned y.
Proof.
  intros H. unfold PyStr.split, item.
  destruct (split_from_two a sep' s EmptyString H) as (x & y & rest & ->).
  by exists y.
Qed.

(** The fence handling raises nothing. *)
Lemma code_block_returns (response_text : string) :
  ∃ text, code_block response_text = Returned text.
Proof.
  unfold code_block.
  destruct (PyStr.contains "```json" response_text) eqn:Htagged.
  - destruct (split_second _ _ _ Htagged) as (inner & ->). apply split_first.
  - destruct (PyStr.contains "```" response_text) eqn:Hbare.
    + destruct (split_second _ _ _ Hbare) as (inner & ->). apply split_first.
    + by eexists.
Qed.

Example code_block_tagged :
  code_block ("Here you go:" ++ newline ++ "```json" ++ newline ++ "{}" ++ newline ++ "```" ++ " done")%string
  = Returned (newline ++ "{}" ++ newline)%string.
Proof. reflexivity. Qed.

Example code_block_bare : code_block "```{}```" = Returned "{}".
Proof. reflexivity. Qed.

Example code_block_plain : code_block " {} " = Returned " {} ".
Proof. reflexivity. Qed.

(** ** Extractor: description *)

(** The fallback of [extract_description]: when the capability has answered
    and [json.loads] raises [JSONDecodeError] on the text of the answer, taken
    out of its code fence (tagged or bare) if it has one and stripped, the
    dictionary returned has the title of the Request as description, an empty
    genre list, null era, lyrics, mood and context, no lyrics flag, and voice
    type "unknown".  Any other exception of the decoder leaves the call. *)
Lemma description_falls_back_to_title
        (rt : ParserRuntime) (post : Post) (response_text : string) :
  messages_create rt (EXTRACT_DESCRIPTION_PROMPT (post_title post) (post_body post))
  = Some response_text →
  ∃ text,
    code_block response_text = Returned text
    ∧ (∀ e, json_loads rt (PyStr.strip text) = DecoderRaised e →
            (extract_description rt post).2 = Raised e)
    ∧ (json_loads rt (PyStr.strip text) = JSONDecodeError →
       (extract_description rt post).2 = Returned (fallback_description post)
       ∧ ∃ fields,
           fallback_description post = JObj fields
           ∧ dict_item fields "description" = Some (JStr (post_title post))
           ∧ dict_item fields "genre_hints" = Some (JArr [])
           ∧ dict_item fields "era_hint" = Some JNull
           ∧ dict_item fields "has_lyrics" = Some (JBool false)
           ∧ dict_item fields "partial_lyrics" = Some JNull
           ∧ dict_item fields "mood" = Some JNull
           ∧ dict_item fields "voice_type" = Some (JStr "unknown")
           ∧ dict_item fields "context" = Some JNull).
Proof.
  intros Hcall.
  destruct (code_block_returns response_text) as (text & Htext).
  exists text. split; [exact Htext|].
  unfold extract_description. rewrite Hcall. simpl.
  unfold description_of_response. rewrite Htext.
  split; [by intros e ->|].
  intros ->. split; [done|].
  eexists. split; [reflexivity|]. by split_and!.
Qed.

Lemma description_falls_back_to_title_witness :
  (extract_description (canned_runtime "Sorry, I cannot tell." "{}" (Some (JObj [])))
     (sample_post "t1" 100 OPEN)).2
  = Returned (fallback_description (sample_post "t1" 100 OPEN)).
Proof.
  destruct (description_falls_back_to_title
              (canned_runtime "Sorry, I cannot tell." "{}" (Some (JObj [])))
              (sample_post "t1" 100 OPEN) "Sorry, I cannot tell." eq_refl)
    as (text & Htext & _ & Hfall).
  apply Hfall.
  injection Htext as <-. vm_compute. reflexivity.
Defined.

(** C7, at the failing input: the answer is a text of 1000 open brackets.  It
    has no code fence and is not JSON; [json.loads] raises [RecursionError] on
    it, the [except json.JSONDecodeError] clause does not catch that, and
    [extract_description] raises instead of returning the dictionary with the
    title of the Request. *)
Theorem extract_description_raises_on_deep_nesting :
  messages_create nested_runtime
    (EXTRACT_DESCRIPTION_PROMPT (post_title (sample_post "t1" 100 OPEN))
                                (post_body (sample_post "t1" 100 OPEN)))
  = Some (brackets 1000)
  ∧ code_block (brackets 1000) = Returned (brackets 1000)
  ∧ PyStr.strip (brackets 1000) = brackets 1000
  ∧ (extract_description nested_runtime (sample_post "t1" 100 OPEN)).2
    = Raised RecursionError
  ∧ (extract_description nested_runtime (sample_post "t1" 100 OPEN)).2
    ≠ Returned (fallback_description (sample_post "t1" 100 OPEN)).
Proof.
  assert (H : (extract_description nested_runtime (sample_post "t1" 100 OPEN)).2
              = Raised RecursionError) by (vm_compute; reflexivity).
  split_and!; [reflexivity | vm_compute; reflexivity | vm_compute; reflexivity
              | exact H | rewrite H; discriminate].
Qed.

(** ** Extractor: solution *)

Lemma map_chars_app (f : ascii → ascii) (a b : string) :
  PyStr.map_chars f (a ++ b)%string
  = (PyStr.map_chars f a ++ PyStr.map_chars f b)%string.
Proof. induction a as [|c a IH]; simpl; [done | by rewrite IH]. Qed.

(** Normalising the joined text is joining the normalised parts. *)
Lemma make_song_id_artist_title (artist title : string) :
  make_song_id artist title = artist_title artist title.
Proof.
  unfold make_song_id, artist_title, normalize, PyStr.lower.
  by rewrite !map_chars_app.
Qed.

Lemma new_song_returned (rt : ParserRuntime) (post : Post) (sid : string)
      (title artist album year : json) (song : Song) :
  new_song rt post sid title artist album year = Returned song →
  title = JStr (song_title song)
  ∧ artist = JStr (song_artist song)
  ∧ song_id song = sid
  ∧ song_discovery_count song = 1
  ∧ song_source_post_ids song = [post_id post]
  ∧ song_original_descriptions song = [].
Proof.
  unfold new_song.
  destruct title; simpl; try discriminate.
  destruct artist; simpl; try discriminate.
  destruct (validate_optional_str album); try discriminate.
  destruct (validate_optional_int rt year); try discriminate.
  intros [= <-]. simpl. by split_and!.
Qed.

Lemma solution_returned_song (rt : ParserRuntime) (post : Post)
      (response_text : string) (song : Song) :
  solution_of_response rt post response_text = Returned (Some song) →
  ∃ text result,
    code_block response_text = Returned text
    ∧ json_loads rt (PyStr.strip text) = Decoded (JObj result)
    ∧ truthy (dict_get result "found") = true
    ∧ dict_item result "artist" = Some (JStr (song_artist song))
    ∧ dict_item result "song_title" = Some (JStr (song_title song))
    ∧ song_id song = make_song_id (song_artist song) (song_title song)
    ∧ song_discovery_count song = 1
    ∧ song_source_post_ids song = [post_id post].
Proof.
  unfold solution_of_response.
  destruct (code_block response_text) as [text|e] eqn:Htext; [|discriminate].
  destruct (json_loads rt (PyStr.strip text)) as [[| | | | |items|result]| |e'] eqn:Hloads;
    try discriminate.
  destruct (truthy (dict_get result "found")) eqn:Hfound; [|discriminate].
  destruct (dict_item result "artist") as [artist|] eqn:Hartist; [|discriminate].
  destruct (dict_item result "song_title") as [song_title|] eqn:Htitle; [|discriminate].
  destruct (new_song rt post _ song_title artist _ _) as [built|e] eqn:Hnew;
    [|discriminate].
  intros [= ->].
  apply new_song_returned in Hnew as (-> & -> & Hid & Hcount & Hsrc & _).
  exists text, result. simpl in Hid. by split_and!.
Qed.

Lemma extract_solution_returned_song (rt : ParserRuntime) (post : Post)
      (comments : list Comment) (song : Song) :
  (extract_solution rt post comments).2 = Returned (Some song) →
  comments ≠ []
  ∧ ∃ prompt response_text,
      (extract_solution rt post comments).1 = [prompt]
      ∧ messages_create rt prompt = Some response_text
      ∧ solution_of_response rt post response_text = Returned (Some song).
Proof.
  unfold extract_solution. destruct comments as [|c rest]; [discriminate|].
  match goal with |- context[messages_create rt ?p] =>
    destruct (messages_create rt p) as [response_text|] eqn:Hcall end;
    [|discriminate].
  simpl. intros Hsol. split; [done|]. by eexists _, _.
Qed.



(** C6, at the failing input: with one reply and a response whose text is the
    JSON array [[]], the call neither returns a Song nor returns None; it
    raises [AttributeError] at [result.get], which the clause
    [except (json.JSONDecodeError, KeyError)] does not catch.  Nor does it
    catch the [ValidationError] that the constructor of Song raises for a
    decoded object whose artist is null, or the [RecursionError] that
    [json.loads] raises on a text of 1000 open brackets. *)
Theorem extract_solution_raises_on_non_object :
  (extract_solution (canned_runtime "[]" "[]" (Some (JArr [])))
     (sample_post "t1" 100 SOLVED) [sample_comment]).2 = Raised AttributeError
  ∧ (extract_solution
       (canned_runtime "{...}" "{...}"
          (Some (JObj [("found", JBool true); ("artist", JNull);
                       ("song_title", JStr "Blue Monday")])))
       (sample_post "t1" 100 SOLVED) [sample_comment]).2 = Raised ValidationError
  ∧ (extract_solution nested_runtime
       (sample_post "t1" 100 SOLVED) [sample_comment]).2 = Raised RecursionError
  ∧ (extract_solution (canned_runtime "[]" "[]" (Some (JArr [])))
       (sample_post "t1" 100 SOLVED) [sample_comment]).2 ≠ Returned None
  ∧ ∀ song,
      (extract_solution (canned_runtime "[]" "[]" (Some (JArr [])))
         (sample_post "t1" 100 SOLVED) [sample_comment]).2 ≠ Returned (Some song).
Proof.
  assert (H : (extract_solution (canned_runtime "[]" "[]" (Some (JArr [])))
                 (sample_post "t1" 100 SOLVED) [sample_comment]).2
              = Raised AttributeError) by (vm_compute; reflexivity).
  split; [exact H|]. split; [vm_compute; reflexivity|].
  split; [vm_compute; reflexivity|].
  rewrite H. split; [discriminate | intros song; discriminate].
Qed.

Lemma solution_of_response_cases (rt : ParserRuntime) (post : Post) (response_text : string) :
  ∃ text,
    code_block response_text = Returned text
    ∧ match json_loads rt (PyStr.strip text) with
      | JSONDecodeError => solution_of_response rt post response_text = Returned None
      | DecoderRaised e => solution_of_response rt post response_text = Raised e
      | Decoded (JObj result) =>
          (truthy (dict_get result "found") = false →
           solution_of_response rt post response_text = Returned None)
          ∧ (dict_item result "artist" = None ∨ dict_item result "song_title" = None →
             solution_of_response rt post response_text = Returned None)
          ∧ (truthy (dict_get result "found") = true →
             is_Some (dict_item result "artist") →
             is_Some (dict_item result "song_title") →
             (∃ song, solution_of_response rt post response_text = Returned (Some song))
             ∨ solution_of_response rt post response_text = Raised ValidationError)
      | Decoded _ => solution_of_response rt post response_text = Raised AttributeError
      end.
Proof.
  destruct (code_block_returns response_text) as (text & Htext).
  exists text. split; [exact Htext|].
  unfold solution_of_response. rewrite Htext.
  destruct (json_loads rt (PyStr.strip text)) as [[| | | | |items|result]| |e];
    try reflexivity.
  split_and!.
  - by intros ->.
  - destruct (truthy (dict_get result "found")); [|done].
    intros [-> | ->]; [done|]. by destruct (dict_item result "artist").
  - intros -> [artist ->] [song_title ->].
    unfold new_song.
    destruct (validate_str song_title); [|by right].
    destruct (validate_str artist); [|by right].
    destruct (validate_optional_str _); [|by right].
    destruct (validate_optional_int rt _); [|by right].
    left. by eexists.
Qed.

(** The outcomes of [extract_solution]: with an empty reply list it returns
    None and sends no prompt.  Otherwise it sends one prompt, and on the
    answer: a text on which the decoder raises [JSONDecodeError] gives None,
    any other exception of the decoder leaves the call; a decoded object whose
    [found] is missing or falsy, or that lacks the key [artist] or
    [song_title], gives None; a decoded object with a truthy [found] and both
    keys gives a Song or the [ValidationError] of the Song constructor; a
    decoded value that is not an object raises [AttributeError].  A Song is
    returned only from a decoded object with a truthy [found] whose [artist]
    and [song_title] are strings, and carries exactly those two. *)
Lemma solution_extraction_outcomes
        (rt : ParserRuntime) (post : Post) (comments : list Comment) :
  extract_solution rt post [] = ([], Returned None)
  ∧ (comments ≠ [] →
     ∃ prompt,
       (extract_solution rt post comments).1 = [prompt]
       ∧ ∀ response_text,
           messages_create rt prompt = Some response_text →
           ∃ text,
             code_block response_text = Returned text
             ∧ match json_loads rt (PyStr.strip text) with
               | JSONDecodeError => (extract_solution rt post comments).2 = Returned None
               | DecoderRaised e => (extract_solution rt post comments).2 = Raised e
               | Decoded (JObj result) =>
                   (truthy (dict_get result "found") = false →
                    (extract_solution rt post comments).2 = Returned None)
                   ∧ (dict_item result "artist" = None
                      ∨ dict_item result "song_title" = None →
                      (extract_solution rt post comments).2 = Returned None)
                   ∧ (truthy (dict_get result "found") = true →
                      is_Some (dict_item result "artist") →
                      is_Some (dict_item result "song_title") →
                      (∃ song, (extract_solution rt post comments).2 = Returned (Some song))
                      ∨ (extract_solution rt post comments).2 = Raised ValidationError)
               | Decoded _ => (extract_solution rt post comments).2 = Raised AttributeError
               end)
  ∧ (∀ song,
       (extract_solution rt post comments).2 = Returned (Some song) →
       comments ≠ []
       ∧ ∃ prompt response_text text result,
           messages_create rt prompt = Some response_text
           ∧ code_block response_text = Returned text
           ∧ json_loads rt (PyStr.strip text) = Decoded (JObj result)
           ∧ truthy (dict_get result "found") = true
           ∧ dict_item result "artist" = Some (JStr (song_artist song))
           ∧ dict_item result "song_title" = Some (JStr (song_title song))
           ∧ song_id song = make_song_id (song_artist song) (song_title song)).
Proof.
  split; [reflexivity|]. split.
  - intros Hne. destruct comments as [|c rest]; [done|].
    unfold extract_solution.
    match goal with |- context[messages_create rt ?p] => set (prompt := p) end.
    exists prompt. split; [by destruct (messages_create rt prompt)|].
    intros response_text Hcall. rewrite Hcall. simpl.
    apply solution_of_response_cases.
  - intros song H.
    apply extract_solution_returned_song in H as (Hne & prompt & response & _ & Hcall & H).
    split; [exact Hne|].
    apply solution_returned_song in H
      as (text & result & Htext & Hloads & Hfound & Hartist & Htitle & Hid & _).
    exists prompt, response, text, result. by split_and!.
Qed.

Lemma solution_extraction_outcomes_witness :
  (extract_solution (canned_runtime "no idea, sorry" "{}" (Some (JObj [])))
     (sample_post "t1" 100 SOLVED) [sample_comment]).2 = Returned None.
Proof.
  destruct (solution_extraction_outcomes
              (canned_runtime "no idea, sorry" "{}" (Some (JObj [])))
              (sample_post "t1" 100 SOLVED) [sample_comment])
    as (_ & Hsent & _).
  destruct (Hsent ltac:(discriminate)) as (prompt & _ & Hresp).
  destruct (Hresp "no idea, sorry" eq_refl) as (text & Htext & Hcase).
  injection Htext as <-. exact Hcase.
Defined.

(** ** A discovery, end to end *)

(** The thread t1 of group WhatsThisSong tagged "Solved" is classified
    SOLVED; the reply "It's Blue Monday by New Order" resolves it to the song
    [new_order_blue_monday], stored with count 1 and linked to t1; a second
    thread resolving to the same artist and title in another spelling makes
    the count 2. *)
Example blue_monday_scenario :
  let rt := sample_runtime (fun _ => []) in
  let t1 := _submission_to_post rt 100
              (sample_thread "t1" "WhatsThisSong" "80s synth song" (Some "Solved")) in
  let t2 := _submission_to_post rt 200
              (sample_thread "t2" "NameThatSong" "synth tune" (Some "Answered")) in
  let variant := JObj [ ("found", JBool true); ("song_title", JStr "blue-monday");
                        ("artist", JStr "NEW ORDER") ] in
  ∃ song1 song2,
    post_status t1 = SOLVED
    ∧ (extract_solution (canned_runtime "{...}" "{...}" (Some blue_monday))
         t1 [sample_comment]).2 = Returned (Some song1)
    ∧ (extract_solution (canned_runtime "{...}" "{...}" (Some variant))
         t2 [sample_comment]).2 = Returned (Some song2)
    ∧ song_id song1 = "new_order_blue_monday"
    ∧ song_id song2 = "new_order_blue_monday"
    ∧ let db1 := save_song (save_post (save_post empty_db t1) t2) song1 (Some t1) in
      let db2 := save_song db1 song2 (Some t2) in
      (song_discovery_count <$> get_song db1 "new_order_blue_monday") = Some 1
      ∧ (song_discovery_count <$> get_song db2 "new_order_blue_monday") = Some 2
      ∧ (song_title <$> get_song db2 "new_order_blue_monday") = Some "Blue Monday"
      ∧ (post_identified_song_id <$> get_post db2 "t1") = Some (Some "new_order_blue_monday")
      ∧ (post_identified_song_id <$> get_post db2 "t2") = Some (Some "new_order_blue_monday").
Proof. eexists _, _. vm_compute. by split_and!. Qed.

(** * Further properties of the code *)

(** ** The store: composition of writes *)

Lemma save_post_eq (db : Database) (post : Post) :
  save_post db post
  = {| posts := <[post_id post := PostRecordM.from_model post]> (posts db);
       songs := songs db |}.
Proof.
  unfold save_post. destruct (posts db !! post_id post); [|done].
  by rewrite setattr_all_new.
Qed.

(** X1: [save_post] is last-write-wins per id and independent across ids:
    saving [q] over a post with the same id leaves the store as if only [q]
    had been saved (so saving twice is saving once), and saves of posts with
    different ids commute. *)
Theorem save_post_last_write_wins (db : Database) (p q : Post) :
  (post_id p = post_id q → save_post (save_post db p) q = save_post db q)
  ∧ save_post (save_post db p) p = save_post db p
  ∧ (post_id p ≠ post_id q →
     save_post (save_post db p) q = save_post (save_post db q) p).
Proof.
  rewrite !save_post_eq. simpl. split_and!.
  - intros ->. by rewrite insert_insert_eq.
  - by rewrite insert_insert_eq.
  - intros Hne. by rewrite insert_insert_ne.
Qed.

Lemma save_post_last_write_wins_witness :
  save_post (save_post empty_db (sample_post "t1" 100 OPEN)) (sample_post "t1" 200 SOLVED)
  = save_post empty_db (sample_post "t1" 200 SOLVED)
  ∧ save_post (save_post empty_db (sample_post "t1" 100 OPEN)) (sample_post "t2" 200 SOLVED)
    = save_post (save_post empty_db (sample_post "t2" 200 SOLVED)) (sample_post "t1" 100 OPEN).
Proof.
  split.
  - apply (save_post_last_write_wins empty_db (sample_post "t1" 100 OPEN)
             (sample_post "t1" 200 SOLVED)). reflexivity.
  - apply (save_post_last_write_wins empty_db (sample_post "t1" 100 OPEN)
             (sample_post "t2" 200 SOLVED)). discriminate.
Defined.

(** ** The store: nothing is deleted, first-seen song data is permanent *)

Lemma song_kept_refl (r : SongRecord) : song_kept r r.
Proof. unfold song_kept. by split_and!. Qed.

Lemma song_kept_trans (r1 r2 r3 : SongRecord) :
  song_kept r1 r2 → song_kept r2 r3 → song_kept r1 r3.
Proof.
  unfold song_kept.
  intros (?&?&?&?&?&?&?&?&?&?&?) (?&?&?&?&?&?&?&?&?&?&?).
  split_and!; try congruence; [lia | by etrans].
Qed.

Lemma apply_op_keeps_songs (db : Database) (o : store_op) (sid : string) (r : SongRecord) :
  songs db !! sid = Some r →
  ∃ r', songs (apply_op db o) !! sid = Some r' ∧ song_kept r r'.
Proof.
  intros Hr. destruct o as [p|s src]; cbn [apply_op].
  - rewrite save_post_songs. exists r. split; [done | apply song_kept_refl].
  - destruct (decide (sid = song_id s)) as [->|Hne].
    + rewrite (save_song_present _ _ _ _ Hr), lookup_insert_eq.
      eexists. split; [done|].
      destruct (add_descriptions_spec (song_original_descriptions s)
                  (sr_original_descriptions_json r)) as (added & Heq & _).
      unfold song_kept. simpl. rewrite Heq.
      split_and!; try done; [lia | by apply prefix_app_r].
    + rewrite save_song_other by done.
      exists r. split; [done | apply song_kept_refl].
Qed.

Lemma apply_op_keeps_posts (db : Database) (o : store_op) (k : string) :
  is_Some (posts db !! k) → is_Some (posts (apply_op db o) !! k).
Proof.
  intros Hk. destruct o as [p|s src]; cbn [apply_op].
  - rewrite save_post_row. apply lookup_insert_is_Some.
    destruct (decide (post_id p = k)); auto.
  - unfold save_song. simpl. destruct src as [sp|]; [|done].
    destruct (posts db !! post_id sp) eqn:Hsp; [|done].
    apply lookup_insert_is_Some. destruct (decide (post_id sp = k)); auto.
Qed.

(** X2: no sequence of store writes deletes anything.  A post id that is
    stored stays stored; a song that is stored stays stored with the title,
    artist, album, year, links and discovery time it was first stored with,
    a counter that never decreases, and its earlier descriptions kept in
    place at the front of the list. *)
Theorem writes_never_delete (ops : list store_op) (db : Database) :
  (∀ k, is_Some (posts db !! k) → is_Some (posts (run_ops ops db) !! k))
  ∧ (∀ sid r, songs db !! sid = Some r →
       ∃ r', songs (run_ops ops db) !! sid = Some r' ∧ song_kept r r').
Proof.
  revert db. induction ops as [|o ops IH]; intros db; simpl.
  - split; [done|]. intros sid r Hr. exists r. split; [done | apply song_kept_refl].
  - destruct (IH (apply_op db o)) as [IHp IHs]. split.
    + intros k Hk. apply IHp. by apply apply_op_keeps_posts.
    + intros sid r Hr.
      destruct (apply_op_keeps_songs db o sid r Hr) as (r1 & Hr1 & Hk1).
      destruct (IHs sid r1 Hr1) as (r2 & Hr2 & Hk2).
      exists r2. split; [done | by eapply song_kept_trans].
Qed.

Lemma writes_never_delete_witness :
  ∃ r', songs (run_ops [SaveSong (sample_song 1 ["again"]) None;
                        SavePost (sample_post "t1" 100 OPEN)]
                 (save_song empty_db (sample_song 1 ["a synth riff"]) None))
          !! "new_order_blue_monday" = Some r'
        ∧ sr_title r' = "Blue Monday" ∧ 1 ≤ sr_discovery_count r'.
Proof.
  destruct (writes_never_delete
              [SaveSong (sample_song 1 ["again"]) None;
               SavePost (sample_post "t1" 100 OPEN)]
              (save_song empty_db (sample_song 1 ["a synth riff"]) None))
    as [_ Hsongs].
  destruct (Hsongs "new_order_blue_monday"
              (SongRecordM.from_model (sample_song 1 ["a synth riff"]))
              ltac:(vm_compute; reflexivity))
    as (r' & Hr' & Hkept).
  exists r'. split; [exact Hr'|].
  destruct Hkept as (_ & Ht & _ & _ & _ & _ & _ & _ & _ & Hc & _).
  split; [exact Ht | exact Hc].
Defined.

(** ** The store: what [save_song] does to the posts *)

Lemma set_link_same_but_link (row : PostRecord) (v : option string) :
  same_but_link row (PostRecordM.set_identified_song_id row v).
Proof. reflexivity. Qed.

(** X3: [save_song] changes at most one thing in table [posts], the
    [identified_song_id] of the row of its source post.  Without a source
    post, or with one whose id is not stored, the table is left as it is,
    and the song is saved and counted all the same; no row is ever added. *)
Theorem save_song_only_sets_the_link (db : Database) (song : Song) (source_post : option Post) :
  match source_post with
  | None => posts (save_song db song None) = posts db
  | Some sp =>
      (posts db !! post_id sp = None → posts (save_song db song (Some sp)) = posts db)
      ∧ (∀ row, posts db !! post_id sp = Some row →
           ∃ row', posts (save_song db song (Some sp)) !! post_id sp = Some row'
                   ∧ pr_identified_song_id row' = Some (song_id song)
                   ∧ same_but_link row row')
      ∧ (∀ k, k ≠ post_id sp →
           posts (save_song db song (Some sp)) !! k = posts db !! k)
  end
  ∧ is_Some (songs (save_song db song source_post) !! song_id song)
  ∧ dom (posts (save_song db song source_post)) = dom (posts db).
Proof.
  split; [|split].
  - destruct source_post as [sp|]; [|done]. split_and!.
    + intros Hnone. unfold save_song. simpl. by rewrite Hnone.
    + intros row Hrow. rewrite (save_song_links _ _ _ _ Hrow).
      eexists. split; [done|]. split; [done | apply set_link_same_but_link].
    + intros k Hk. unfold save_song. simpl.
      destruct (posts db !! post_id sp); [|done]. by rewrite lookup_insert_ne.
  - unfold save_song. simpl.
    destruct (songs db !! song_id song); rewrite lookup_insert_eq; by eexists.
  - unfold save_song. simpl. destruct source_post as [sp|]; [|done].
    destruct (posts db !! post_id sp) as [row|] eqn:Hrow; [|done].
    apply dom_insert_lookup_L. by eexists.
Qed.

Lemma save_song_only_sets_the_link_witness :
  posts (save_song empty_db (sample_song 1 []) (Some (sample_post "t1" 100 SOLVED)))
  = posts empty_db.
Proof.
  destruct (save_song_only_sets_the_link empty_db (sample_song 1 [])
              (Some (sample_post "t1" 100 SOLVED))) as ((Habsent & _) & _).
  apply Habsent. reflexivity.
Defined.

(** ** The store: the description list *)

Lemma add_descriptions_known (incoming descriptions : list string) :
  (∀ d, d ∈ incoming → d ∈ descriptions) →
  add_descriptions descriptions incoming = descriptions.
Proof.
  induction incoming as [|desc rest IH]; intros Hall; simpl; [done|].
  unfold str_in. rewrite bool_decide_eq_true_2.
  - apply IH. intros d Hd. apply Hall. by apply elem_of_cons; right.
  - apply Hall. by apply elem_of_cons; left.
Qed.

Lemma add_descriptions_NoDup (incoming descriptions : list string) :
  NoDup descriptions → NoDup (add_descriptions descriptions incoming).
Proof.
  intros Hnd.
  destruct (add_descriptions_spec incoming descriptions) as (added & -> & Hadd & Hmem).
  apply NoDup_app. split; [done|]. split; [|done].
  intros d Hd Hin. by apply Hmem in Hin as [_ ?].
Qed.

(** X4: when [save_song] meets a stored song whose descriptions are pairwise
    distinct, they stay pairwise distinct; the stored list then holds exactly
    the old and the incoming descriptions; and when every incoming
    description is already stored the list is left as it is, only the
    counter moving. *)
Theorem save_song_keeps_descriptions_distinct
        (db : Database) (song : Song) (src : option Post) (existing : SongRecord) :
  songs db !! song_id song = Some existing →
  NoDup (sr_original_descriptions_json existing) →
  ∃ stored,
    songs (save_song db song src) !! song_id song = Some stored
    ∧ NoDup (sr_original_descriptions_json stored)
    ∧ (∀ d, d ∈ sr_original_descriptions_json stored ↔
            d ∈ sr_original_descriptions_json existing
            ∨ d ∈ song_original_descriptions song)
    ∧ ((∀ d, d ∈ song_original_descriptions song →
             d ∈ sr_original_descriptions_json existing) →
       sr_original_descriptions_json stored = sr_original_descriptions_json existing
       ∧ sr_discovery_count stored = sr_discovery_count existing + 1).
Proof.
  intros Hex Hnd. rewrite (save_song_present _ _ _ _ Hex), lookup_insert_eq.
  eexists. split; [done|]. simpl. split_and!.
  - by apply add_descriptions_NoDup.
  - intros d.
    destruct (add_descriptions_spec (song_original_descriptions song)
                (sr_original_descriptions_json existing)) as (added & -> & _ & Hmem).
    rewrite elem_of_app, Hmem. split; [tauto|].
    intros [?|?]; [by left|].
    destruct (decide (d ∈ sr_original_descriptions_json existing)); [by left | by right].
  - intros Hall. by rewrite add_descriptions_known.
Qed.

Lemma save_song_keeps_descriptions_distinct_witness :
  ∃ stored,
    songs (save_song (save_song empty_db (sample_song 1 ["a synth riff"]) None)
                     (sample_song 1 ["a synth riff"]) None)
      !! "new_order_blue_monday" = Some stored
    ∧ NoDup (sr_original_descriptions_json stored).
Proof.
  destruct (save_song_keeps_descriptions_distinct
              (save_song empty_db (sample_song 1 ["a synth riff"]) None)
              (sample_song 1 ["a synth riff"]) None
              (SongRecordM.from_model (sample_song 1 ["a synth riff"]))
              ltac:(vm_compute; reflexivity)
              ltac:(simpl; apply NoDup_singleton))
    as (stored & Hs & Hnd & _).
  exists stored. split; [exact Hs | exact Hnd].
Defined.

(** ** The store: a scraped post saved over an enriched one *)

Lemma source_posts_replace (db : Database) (k : string) (row row' : PostRecord)
      (sgs : gmap string SongRecord) (sid : string) :
  posts db !! k = Some row →
  (length (source_posts {| posts := <[k := row']> (posts db); songs := sgs |} sid)
   + (if decide (pr_identified_song_id row = Some sid) then 1 else 0)
   = length (source_posts db sid)
     + (if decide (pr_identified_song_id row' = Some sid) then 1 else 0))%nat.
Proof.
  intros Hrow. unfold source_posts. simpl.
  rewrite <- (insert_delete_eq (posts db)).
  rewrite (map_to_list_insert (delete k (posts db)) k row') by apply lookup_delete_eq.
  rewrite <- (map_to_list_delete (posts db) k row Hrow).
  rewrite !fmap_cons. simpl.
  destruct (decide (pr_identified_song_id row = Some sid));
    destruct (decide (pr_identified_song_id row' = Some sid));
    rewrite ?(filter_cons_True _ row), ?(filter_cons_False _ row),
            ?(filter_cons_True _ row'), ?(filter_cons_False _ row') by done;
    simpl; lia.
Qed.

(** X5: saving a freshly scraped post over a stored one with the same id
    erases what later stages had added: the stored description, solution
    fields and song link become null and [scraped_at] becomes the time of
    this scrape.  If the stored post was linked to a song, that song has one
    linked Request fewer afterwards while its row, counter included, is
    unchanged. *)
Theorem rescrape_erases_enrichment_and_link
        (rt : Runtime) (now : datetime) (sub : Submission) (db : Database) :
  let db' := save_post db (_submission_to_post rt now sub) in
  (∃ p, get_post db' (sub_id sub) = Some p
        ∧ post_description p = None
        ∧ post_solution_comment_id p = None
        ∧ post_solution_text p = None
        ∧ post_identified_song_id p = None
        ∧ post_scraped_at p = now)
  ∧ songs db' = songs db
  ∧ (∀ row sid, posts db !! sub_id sub = Some row →
       pr_identified_song_id row = Some sid →
       S (length (source_posts db' sid)) = length (source_posts db sid)).
Proof.
  intros db'. subst db'. split_and!.
  - eexists. split.
    + unfold get_post. rewrite save_post_row. simpl. rewrite lookup_insert_eq.
      simpl. by rewrite to_model_from_model.
    + by split_and!.
  - apply save_post_songs.
  - intros row sid Hrow Hlink. rewrite save_post_eq.
    pose proof (source_posts_replace db (sub_id sub) row
                  (PostRecordM.from_model (_submission_to_post rt now sub))
                  (songs db) sid Hrow) as H.
    rewrite decide_True in H by done.
    destruct (decide (pr_identified_song_id
                        (PostRecordM.from_model (_submission_to_post rt now sub))
                      = Some sid)) as [Hbad|_]; [discriminate Hbad|].
    change (post_id (_submission_to_post rt now sub)) with (sub_id sub).
    lia.
Qed.

Lemma rescrape_erases_enrichment_and_link_witness :
  let rt := sample_runtime (fun _ => []) in
  let thread := sample_thread "t1" "WhatsThisSong" "80s synth song" (Some "Solved") in
  let db := save_song (save_post empty_db (_submission_to_post rt 100 thread))
                      (sample_song 1 []) (Some (sample_post "t1" 100 SOLVED)) in
  length (source_posts db "new_order_blue_monday") = 1%nat
  ∧ length (source_posts (save_post db (_submission_to_post rt 200 thread))
                         "new_order_blue_monday") = 0%nat.
Proof.
  intros rt thread db.
  assert (H1 : length (source_posts db "new_order_blue_monday") = 1%nat)
    by (vm_compute; reflexivity).
  split; [exact H1|].
  destruct (rescrape_erases_enrichment_and_link rt 200 thread db) as (_ & _ & Hless).
  specialize (Hless (PostRecordM.set_identified_song_id
                       (PostRecordM.from_model (_submission_to_post rt 100 thread))
                       (Some "new_order_blue_monday"))
                    "new_order_blue_monday"
                    ltac:(vm_compute; reflexivity) eq_refl).
  rewrite H1 in Hless. lia.
Defined.

(** ** The store: statistics *)

Lemma count_rows_bounds {R : Type} (P : R → bool) (table : gmap string R) :
  0 ≤ count_rows P table ≤ Z.of_nat (size table).
Proof.
  unfold count_rows. split; [lia|].
  apply inj_le. rewrite <- length_map_to_list, <- (length_fmap snd).
  generalize (snd <$> map_to_list table). intros l.
  induction l as [|x l IH]; simpl; [lia|]. destruct (P x); simpl; lia.
Qed.

Lemma count_rows_positive {R : Type} (P : R → bool) (table : gmap string R) :
  0 < count_rows P table ↔ ∃ k row, table !! k = Some row ∧ P row = true.
Proof.
  unfold count_rows. split.
  - intros Hpos.
    destruct (List.filter P (snd <$> map_to_list table)) as [|row rest] eqn:Hf;
      [simpl in Hpos; lia|].
    assert (Hin : In row (List.filter P (snd <$> map_to_list table))).
    { rewrite Hf. by left. }
    apply filter_In in Hin as [Hin HP].
    apply list_elem_of_In, list_elem_of_fmap in Hin as ([k r] & -> & Hkr).
    apply elem_of_map_to_list in Hkr. by exists k, r.
  - intros (k & row & Hk & HP).
    assert (Hin : In row (List.filter P (snd <$> map_to_list table))).
    { apply filter_In. split; [|done].
      apply list_elem_of_In, list_elem_of_fmap. exists (k, row). split; [done|].
      by apply elem_of_map_to_list. }
    destruct (List.filter P (snd <$> map_to_list table)); [done|]. simpl. lia.
Qed.

Lemma quotient_bounds (solved total : Z) :
  0 ≤ solved ≤ total →
  let rate := if 0 <? total then TrueDiv solved total else Int 0 in
  (total = 0 → rate = Int 0)
  ∧ (0 < total → rate = TrueDiv solved total)
  ∧ (0 <= quotient rate)%Q ∧ (quotient rate <= 1)%Q
  ∧ (0 < total → (quotient rate * inject_Z total == inject_Z solved)%Q).
Proof.
  intros Hb rate. subst rate.
  destruct total as [|p|p]; [| |lia].
  - simpl. by split_and!.
  - replace (0 <? Z.pos p) with true by (symmetry; by apply Z.ltb_lt).
    split_and!.
    + discriminate.
    + done.
    + unfold Qle. simpl. lia.
    + unfold Qle. simpl. lia.
    + intros _. unfold Qeq, Qmult, inject_Z. simpl. lia.
Qed.

(** X6: the statistics are consistent with each other.  The solved count
    lies between 0 and the total and is positive exactly when some stored
    post is SOLVED; the unsolved count is the rest and is never negative.
    For an empty table the solve rate is the integer 0 and no division is
    made; otherwise it is the float that the division of the solved count by
    the total gives, the double nearest to a quotient between 0 and 1. *)
Theorem stats_are_consistent (db : Database) :
  let s := get_stats db in
  total_posts s = Z.of_nat (size (posts db))
  ∧ total_songs s = Z.of_nat (size (songs db))
  ∧ 0 ≤ solved_posts s ≤ total_posts s
  ∧ (0 < solved_posts s ↔ ∃ k p, get_post db k = Some p ∧ post_status p = SOLVED)
  ∧ unsolved_posts s + solved_posts s = total_posts s
  ∧ 0 ≤ unsolved_posts s
  ∧ (total_posts s = 0 → solve_rate s = Int 0)
  ∧ (0 < total_posts s → solve_rate s = TrueDiv (solved_posts s) (total_posts s))
  ∧ (0 <= quotient (solve_rate s))%Q ∧ (quotient (solve_rate s) <= 1)%Q
  ∧ (0 < total_posts s →
     (quotient (solve_rate s) * inject_Z (total_posts s) == inject_Z (solved_posts s))%Q).
Proof.
  intros s. subst s. unfold get_stats. simpl.
  pose proof (count_rows_bounds
                (fun r => bool_decide (status_value (pr_status r) = "solved"))
                (posts db)) as Hb.
  pose proof (quotient_bounds _ _ Hb) as (Hzero & Hdiv & Hlo & Hhi & Hquot).
  split_and!; try done; try lia.
  rewrite count_rows_positive. unfold get_post. split.
  - intros (k & row & Hk & Hst). exists k, (PostRecordM.to_model row).
    rewrite Hk. split; [done|]. simpl.
    apply bool_decide_eq_true in Hst. by destruct (pr_status row).
  - intros (k & p & Hget & Hst).
    destruct (posts db !! k) as [row|] eqn:Hk; [|done].
    injection Hget as <-. simpl in Hst. exists k, row. split; [done|].
    by rewrite Hst.
Qed.

Lemma stats_are_consistent_witness :
  let db := save_post (save_post (save_post empty_db (sample_post "t1" 100 SOLVED))
                                 (sample_post "t2" 100 OPEN))
                      (sample_post "t3" 100 UNSOLVED) in
  solve_rate (get_stats db) = TrueDiv 1 3
  ∧ solve_rate (get_stats empty_db) = Int 0.
Proof.
  intros db. split.
  - apply (stats_are_consistent db). vm_compute. reflexivity.
  - apply (stats_are_consistent empty_db). reflexivity.
Defined.

(** ** The store: queries *)

#[local] Instance newer_first_total : Total newer_first.
Proof. intros a b. unfold newer_first. lia. Qed.

#[local] Instance newer_first_trans : Transitive newer_first.
Proof. intros a b c. unfold newer_first. lia. Qed.

#[local] Instance more_sought_first_total : Total more_sought_first.
Proof. intros a b. unfold more_sought_first. lia. Qed.

#[local] Instance more_sought_first_trans : Transitive more_sought_first.
Proof. intros a b c. unfold more_sought_first. lia. Qed.

Section Queries.

Context {A : Type}.

Lemma sql_limit_elem (n : Z) (rows : list A) (x : A) :
  x ∈ sql_limit n rows → x ∈ rows.
Proof.
  unfold sql_limit. destruct (n <? 0); [done|].
  intros (i & Hi & _)%elem_of_take. by eapply list_elem_of_lookup_2.
Qed.

Lemma sql_limit_unbounded (n : Z) (rows : list A) :
  n < 0 → sql_limit n rows = rows.
Proof. intros Hn. unfold sql_limit. by destruct (Z.ltb_spec n 0); [|lia]. Qed.

Lemma sql_limit_length (n : Z) (rows : list A) :
  0 ≤ n → length (sql_limit n rows) = Nat.min (Z.to_nat n) (length rows).
Proof.
  intros Hn. unfold sql_limit. destruct (Z.ltb_spec n 0); [lia|].
  apply length_take.
Qed.

Lemma sql_limit_sorted (R : relation A) (n : Z) (rows : list A) :
  StronglySorted R rows → StronglySorted R (sql_limit n rows).
Proof.
  unfold sql_limit. destruct (n <? 0); [done|].
  intros Hs. rewrite <- (take_drop (Z.to_nat n) rows) in Hs.
  by apply StronglySorted_app_1_l in Hs.
Qed.

Lemma sql_offset_sorted (R : relation A) (n : Z) (rows : list A) :
  StronglySorted R rows → StronglySorted R (sql_offset n rows).
Proof.
  unfold sql_offset. intros Hs. rewrite <- (take_drop (Z.to_nat n) rows) in Hs.
  by apply StronglySorted_app_1_r in Hs.
Qed.

Lemma sql_offset_elem (n : Z) (rows : list A) (x : A) :
  x ∈ sql_offset n rows → x ∈ rows.
Proof.
  unfold sql_offset. intros Hx. rewrite <- (take_drop (Z.to_nat n) rows).
  apply elem_of_app. by right.
Qed.

(** Consecutive pages make up the longer page. *)
Lemma sql_pages (a b off : Z) (rows : list A) :
  0 ≤ a → 0 ≤ b → 0 ≤ off →
  sql_limit a (sql_offset off rows) ++ sql_limit b (sql_offset (off + a) rows)
  = sql_limit (a + b) (sql_offset off rows).
Proof.
  intros Ha Hb Hoff. unfold sql_limit, sql_offset.
  destruct (Z.ltb_spec a 0); [lia|]. destruct (Z.ltb_spec b 0); [lia|].
  destruct (Z.ltb_spec (a + b) 0); [lia|].
  rewrite !Z2Nat.inj_add by lia. rewrite <- drop_drop. apply take_take_drop.
Qed.

Lemma merge_sort_elem (R : relation A) `{!RelDecision R} (rows : list A) (x : A) :
  x ∈ merge_sort R rows ↔ x ∈ rows.
Proof. by rewrite merge_sort_Permutation. Qed.

End Queries.

Lemma scan_posts_elem (engine : Engine) (m : gmap string PostRecord) (row : PostRecord) :
  engine_ok engine → row ∈ scan_posts engine m ↔ ∃ k, m !! k = Some row.
Proof.
  intros [Hp _]. rewrite Hp, list_elem_of_fmap. split.
  - intros ([k r] & -> & Hin). exists k. by apply elem_of_map_to_list.
  - intros (k & Hk). exists (k, row). split; [done|]. by apply elem_of_map_to_list.
Qed.

Lemma scan_songs_elem (engine : Engine) (m : gmap string SongRecord) (row : SongRecord) :
  engine_ok engine → row ∈ scan_songs engine m ↔ ∃ k, m !! k = Some row.
Proof.
  intros [_ Hs]. rewrite Hs, list_elem_of_fmap. split.
  - intros ([k r] & -> & Hin). exists k. by apply elem_of_map_to_list.
  - intros (k & Hk). exists (k, row). split; [done|]. by apply elem_of_map_to_list.
Qed.

Lemma table_engine_ok : engine_ok table_engine.
Proof. split; intros m; reflexivity. Qed.

Lemma open_or_unknown (st : PostStatus) :
  status_value st ∈ ["open"; "unknown"] ↔ st = OPEN ∨ st = UNKNOWN.
Proof.
  split.
  - destruct st; simpl; intros H; auto;
      repeat (apply elem_of_cons in H as [H|H]; [discriminate|]);
      by apply elem_of_nil in H.
  - intros [-> | ->]; simpl; [apply list_elem_of_here|].
    apply list_elem_of_further, list_elem_of_here.
Qed.

(** X7: [get_unsolved_posts] returns stored posts whose status is OPEN or
    UNKNOWN, never one that is SOLVED or UNSOLVED, newest first, and at most
    [limit] of them; with a negative limit it returns every stored post that
    is OPEN or UNKNOWN. *)
Theorem unsolved_listing_is_open_or_unknown (engine : Engine) (db : Database) (limit : Z) :
  engine_ok engine →
  (∀ p, p ∈ get_unsolved_posts engine db limit →
        (post_status p = OPEN ∨ post_status p = UNKNOWN)
        ∧ ∃ k, get_post db k = Some p)
  ∧ StronglySorted newer_post_first (get_unsolved_posts engine db limit)
  ∧ (0 ≤ limit → (length (get_unsolved_posts engine db limit) ≤ Z.to_nat limit)%nat)
  ∧ (limit < 0 →
     ∀ k p, get_post db k = Some p →
            post_status p = OPEN ∨ post_status p = UNKNOWN →
            p ∈ get_unsolved_posts engine db limit).
Proof.
  intros Hok. unfold get_unsolved_posts. split_and!.
  - intros p (row & -> & Hrow)%list_elem_of_fmap.
    apply sql_limit_elem, merge_sort_elem, list_elem_of_filter in Hrow as [Hst Hrow].
    apply (scan_posts_elem engine _ _ Hok) in Hrow as (k & Hk).
    split; [by apply open_or_unknown|].
    exists k. unfold get_post. by rewrite Hk.
  - apply (StronglySorted_fmap _ newer_first); [done|].
    apply sql_limit_sorted, StronglySorted_merge_sort; apply _.
  - intros Hl. rewrite length_fmap, sql_limit_length by done. lia.
  - intros Hl k p Hget Hst. unfold get_post in Hget.
    destruct (posts db !! k) as [row|] eqn:Hk; [|done]. injection Hget as <-.
    apply list_elem_of_fmap_2. rewrite sql_limit_unbounded by done.
    apply merge_sort_elem, list_elem_of_filter. split.
    + by apply open_or_unknown.
    + apply (scan_posts_elem engine _ _ Hok). by exists k.
Qed.

Lemma unsolved_listing_is_open_or_unknown_witness :
  let db := save_post (save_post (save_post empty_db (sample_post "t1" 100 SOLVED))
                                 (sample_post "t2" 100 OPEN))
                      (sample_post "t3" 100 UNSOLVED) in
  sample_post "t2" 100 OPEN ∈ get_unsolved_posts table_engine db (-1)
  ∧ (length (get_unsolved_posts table_engine db 5) ≤ 5)%nat.
Proof.
  intros db.
  destruct (unsolved_listing_is_open_or_unknown table_engine db (-1) table_engine_ok)
    as (_ & _ & _ & Hall).
  destruct (unsolved_listing_is_open_or_unknown table_engine db 5 table_engine_ok)
    as (_ & _ & Hlen & _).
  split.
  - apply (Hall ltac:(lia) "t2"); [vm_compute; reflexivity | by left].
  - apply Hlen. lia.
Defined.

(** X8: [get_posts] returns stored posts that pass the filters given (a
    subreddit filter that is the empty string is no filter), newest first, at
    most [limit] of them.  With a negative limit and no offset it returns
    every stored post that passes the filters, and every other page is a
    slice of that complete listing: the [limit] posts that follow its first
    [offset] posts.  So the pages fit together: a page of [a] posts at an
    offset followed by the page of [b] posts at that offset plus [a] is the
    page of [a + b] posts at the offset, and paging neither skips nor repeats
    a post. *)
Theorem get_posts_filters_and_pages
        (engine : Engine) (db : Database)
        (subreddit : option string) (status : option PostStatus) (limit offset : Z) :
  engine_ok engine →
  (∀ p, p ∈ get_posts engine db subreddit status limit offset →
        (∃ k, get_post db k = Some p)
        ∧ (∀ st, status = Some st → post_status p = st)
        ∧ (∀ name, subreddit = Some name → name ≠ "" → post_subreddit p = name))
  ∧ StronglySorted newer_post_first (get_posts engine db subreddit status limit offset)
  ∧ (0 ≤ limit →
     (length (get_posts engine db subreddit status limit offset) ≤ Z.to_nat limit)%nat)
  ∧ (∀ k p, get_post db k = Some p →
            (∀ st, status = Some st → post_status p = st) →
            (∀ name, subreddit = Some name → name ≠ "" → post_subreddit p = name) →
            p ∈ get_posts engine db subreddit status (-1) 0)
  ∧ (0 ≤ limit →
     get_posts engine db subreddit status limit offset
     = take (Z.to_nat limit)
            (drop (Z.to_nat offset) (get_posts engine db subreddit status (-1) 0)))
  ∧ (∀ a b off, 0 ≤ a → 0 ≤ b → 0 ≤ off →
       get_posts engine db subreddit status a off
       ++ get_posts engine db subreddit status b (off + a)
       = get_posts engine db subreddit status (a + b) off)
  ∧ get_posts engine db (Some "") status limit offset
    = get_posts engine db None status limit offset.
Proof.
  intros Hok. unfold get_posts. split_and!.
  - intros p (row & -> & Hrow)%list_elem_of_fmap.
    apply sql_limit_elem, sql_offset_elem, merge_sort_elem in Hrow.
    assert (Hstatus : ∀ st, status = Some st → pr_status row = st).
    { intros st ->. by apply list_elem_of_filter in Hrow as [? _]. }
    assert (Hrow2 : row ∈ match nonempty_arg subreddit with
                          | Some name => filter (fun r => pr_subreddit r = name)
                                                (scan_posts engine (posts db))
                          | None => scan_posts engine (posts db)
                          end).
    { destruct status; [by apply list_elem_of_filter in Hrow as [_ ?] | done]. }
    assert (Hname : ∀ name, subreddit = Some name → name ≠ "" → pr_subreddit row = name).
    { intros name -> Hne. simpl in Hrow2. rewrite bool_decide_eq_false_2 in Hrow2 by done.
      by apply list_elem_of_filter in Hrow2 as [? _]. }
    assert (Hscan : row ∈ scan_posts engine (posts db)).
    { destruct (nonempty_arg subreddit);
        [by apply list_elem_of_filter in Hrow2 as [_ ?] | done]. }
    apply (scan_posts_elem engine _ _ Hok) in Hscan as (k & Hk).
    split_and!; [|done|done].
    exists k. unfold get_post. by rewrite Hk.
  - apply (StronglySorted_fmap _ newer_first); [done|].
    apply sql_limit_sorted, sql_offset_sorted, StronglySorted_merge_sort; apply _.
  - intros Hl. rewrite length_fmap, sql_limit_length by done. lia.
  - intros k p Hget Hst Hname. unfold get_post in Hget.
    destruct (posts db !! k) as [row|] eqn:Hk; [|done]. injection Hget as <-.
    apply list_elem_of_fmap_2. rewrite sql_limit_unbounded by lia.
    unfold sql_offset. cbn [Z.to_nat drop].
    apply merge_sort_elem.
    assert (Hscan : row ∈ scan_posts engine (posts db)).
    { apply (scan_posts_elem engine _ _ Hok). by exists k. }
    assert (Hrow : row ∈ match nonempty_arg subreddit with
                         | Some name => filter (fun r => pr_subreddit r = name)
                                               (scan_posts engine (posts db))
                         | None => scan_posts engine (posts db)
                         end).
    { destruct subreddit as [name|]; [|done]. simpl.
      case_bool_decide as Hne; [done|].
      apply list_elem_of_filter. split; [|done]. by apply (Hname name). }
    destruct status as [st|]; [|done].
    apply list_elem_of_filter. split; [|done]. by apply (Hst st).
  - intros Hl. rewrite (sql_limit_unbounded (-1)) by lia.
    rewrite <- fmap_drop, <- fmap_take. f_equal.
    unfold sql_limit, sql_offset.
    replace (limit <? 0) with false by (symmetry; apply Z.ltb_ge; lia).
    reflexivity.
  - intros a b off Ha Hb Hoff. rewrite <- fmap_app. f_equal. by apply sql_pages.
  - reflexivity.
Qed.

Lemma get_posts_filters_and_pages_witness :
  let db := save_post (save_post (save_post empty_db (sample_post "t1" 100 SOLVED))
                                 (sample_post "t2" 100 OPEN))
                      (sample_post "t3" 100 SOLVED) in
  get_posts table_engine db None (Some SOLVED) 1 0
  ++ get_posts table_engine db None (Some SOLVED) 1 (0 + 1)
  = get_posts table_engine db None (Some SOLVED) (1 + 1) 0
  ∧ (length (get_posts table_engine db None (Some SOLVED) 1 0) ≤ 1)%nat
  ∧ sample_post "t3" 100 SOLVED ∈ get_posts table_engine db None (Some SOLVED) (-1) 0
  ∧ get_posts table_engine db None (Some SOLVED) 1 0
    = take (Z.to_nat 1)
           (drop (Z.to_nat 0) (get_posts table_engine db None (Some SOLVED) (-1) 0)).
Proof.
  intros db.
  destruct (get_posts_filters_and_pages table_engine db None (Some SOLVED) 1 0
              table_engine_ok) as (_ & _ & Hlen & Hall & Hslice & Hpages & _).
  split_and!; [apply Hpages; lia | apply Hlen; lia | | apply Hslice; lia].
  apply (Hall "t3").
  - vm_compute. reflexivity.
  - by intros st [= <-].
  - discriminate.
Defined.

(** *** Search *)

Lemma sqlite_lower_char_idem (c : ascii) :
  sqlite_lower_char (sqlite_lower_char c) = sqlite_lower_char c.
Proof. destruct c as [[] [] [] [] [] [] [] []]; reflexivity. Qed.

Lemma sqlite_lower_char_wild (c : ascii) :
  Ascii.eqb (sqlite_lower_char c) "%" = Ascii.eqb c "%"
  ∧ Ascii.eqb (sqlite_lower_char c) "_" = Ascii.eqb c "_".
Proof. destruct c as [[] [] [] [] [] [] [] []]; split; reflexivity. Qed.

Lemma like_any_step (pattern : string) (c : ascii) (text : string) :
  like (String "%" pattern) (String c text)
  = like pattern (String c text) || like (String "%" pattern) text.
Proof. reflexivity. Qed.

Lemma like_any_empty (pattern : string) :
  like (String "%" pattern) EmptyString = like pattern EmptyString.
Proof. simpl. apply orb_false_r. Qed.

Lemma like_percent (text : string) : like "%" text = true.
Proof.
  induction text as [|c text IH].
  - reflexivity.
  - rewrite like_any_step, IH. apply orb_true_r.
Qed.

Lemma like_char (p : ascii) (pattern text : string) :
  Ascii.eqb p "%" = false →
  like (String p pattern) text
  = match text with
    | EmptyString => false
    | String c text' =>
        (Ascii.eqb p "_" || Ascii.eqb (sqlite_lower_char p) (sqlite_lower_char c))
        && like pattern text'
    end.
Proof. intros Hp. cbn [like]. by rewrite Hp. Qed.

Lemma like_prefix (query text : string) :
  wildcard_free query = true →
  like (sqlite_lower query ++ "%") (sqlite_lower text)
  = PyStr.startswith (sqlite_lower query) (sqlite_lower text).
Proof.
  revert text. induction query as [|a query IH]; intros text Hwf.
  - simpl String.append. apply like_percent.
  - simpl in Hwf. apply andb_true_iff in Hwf as [Ha Hwf].
    apply andb_true_iff in Ha as [Hp Hu].
    apply negb_true_iff in Hp, Hu.
    destruct (sqlite_lower_char_wild a) as [Hp' Hu'].
    rewrite Hp in Hp'. rewrite Hu in Hu'.
    change (sqlite_lower (String a query) ++ "%")%string
      with (String (sqlite_lower_char a) (sqlite_lower query ++ "%")).
    rewrite (like_char _ _ _ Hp').
    destruct text as [|c text]; [reflexivity|].
    change (sqlite_lower (String c text))
      with (String (sqlite_lower_char c) (sqlite_lower text)).
    change (sqlite_lower (String a query))
      with (String (sqlite_lower_char a) (sqlite_lower query)).
    cbn [PyStr.startswith].
    rewrite Hu', !sqlite_lower_char_idem. simpl orb.
    by rewrite IH.
Qed.

Lemma like_contains (query text : string) :
  wildcard_free query = true →
  like (String "%" (sqlite_lower query ++ "%")) (sqlite_lower text)
  = PyStr.contains (sqlite_lower query) (sqlite_lower text).
Proof.
  intros Hwf. induction text as [|c text IH].
  - change (sqlite_lower "") with EmptyString at 1. rewrite like_any_empty.
    change EmptyString with (sqlite_lower "") at 2.
    rewrite (like_prefix query "" Hwf). simpl. by rewrite orb_false_r.
  - cbn [sqlite_lower PyStr.map_chars]. fold (sqlite_lower text).
    rewrite like_any_step, IH.
    change (String (sqlite_lower_char c) (sqlite_lower text))
      with (sqlite_lower (String c text)).
    rewrite (like_prefix query (String c text) Hwf). reflexivity.
Qed.

Lemma sqlite_lower_char_nul (c : ascii) :
  Ascii.eqb (sqlite_lower_char c) nul = Ascii.eqb c nul.
Proof. destruct c as [[] [] [] [] [] [] [] []]; reflexivity. Qed.

Lemma c_string_lower (s : string) :
  c_string (sqlite_lower s) = sqlite_lower (c_string s).
Proof.
  induction s as [|c s IH]; [done|].
  change (sqlite_lower (String c s)) with (String (sqlite_lower_char c) (sqlite_lower s)).
  cbn [c_string]. rewrite sqlite_lower_char_nul.
  destruct (Ascii.eqb c nul); [done|].
  change (sqlite_lower (String c (c_string s)))
    with (String (sqlite_lower_char c) (sqlite_lower (c_string s))).
  by rewrite IH.
Qed.

Lemma c_string_nul_free (s : string) : nul_free s = true → c_string s = s.
Proof.
  induction s as [|c s IH]; [done|]. simpl.
  intros [Hc Hs]%andb_true_iff. apply negb_true_iff in Hc. rewrite Hc.
  by rewrite IH.
Qed.

Lemma nul_free_app (a b : string) :
  nul_free (a ++ b) = nul_free a && nul_free b.
Proof.
  induction a as [|c a IH]; [done|].
  change (nul_free (String c (a ++ b)) = nul_free (String c a) && nul_free b).
  simpl. rewrite IH. by rewrite andb_assoc.
Qed.

(** A search text without wildcards and without NUL is looked for as a
    substring of the column up to its first NUL, the letters A to Z counting
    in either case. *)
Lemma ilike_contains (column query : string) :
  wildcard_free query = true →
  nul_free query = true →
  ilike column ("%" ++ query ++ "%")
  = PyStr.contains (sqlite_lower query) (sqlite_lower (c_string column)).
Proof.
  intros Hwf Hnul. unfold ilike. rewrite !c_string_lower.
  rewrite (c_string_nul_free ("%" ++ query ++ "%")).
  2:{ change ("%" ++ query ++ "%")%string with (String "%" (query ++ "%")).
      cbn [nul_free]. rewrite nul_free_app, Hnul. reflexivity. }
  unfold sqlite_lower at 1.
  change ("%" ++ query ++ "%")%string with (String "%" (query ++ "%")).
  cbn [PyStr.map_chars]. rewrite map_chars_app.
  change (sqlite_lower_char "%") with "%"%char.
  by apply like_contains.
Qed.

Lemma utf8_length_bounds (s : string) :
  Z.of_nat (String.length s) ≤ utf8_length s ≤ 2 * Z.of_nat (String.length s).
Proof.
  induction s as [|c s IH]; [simpl; lia|].
  cbn [utf8_length String.length]. destruct (PyStr.code c <? 128)%N; lia.
Qed.

Lemma pattern_length (query : string) :
  String.length ("%" ++ query ++ "%") = S (S (String.length query)).
Proof.
  change ("%" ++ query ++ "%")%string with (String "%" (query ++ "%")).
  cbn [String.length]. f_equal.
  induction query as [|c q IH]; [done|].
  change (String.length (String c (q ++ "%")) = S (String.length (String c q))).
  cbn [String.length]. by rewrite IH.
Qed.



(** X10: [get_most_sought_songs] returns stored songs ordered by
    [discovery_count], largest first; for a limit that is not negative it
    returns [limit] songs or, if fewer are stored, all of them, and for a
    negative limit all of them; the first song returned has the largest
    [discovery_count] in the store. *)
Theorem most_sought_is_a_ranking (engine : Engine) (db : Database) (limit : Z) :
  engine_ok engine →
  (∀ s, s ∈ get_most_sought_songs engine db limit → ∃ k, get_song db k = Some s)
  ∧ StronglySorted more_sought_song_first (get_most_sought_songs engine db limit)
  ∧ (0 ≤ limit →
     length (get_most_sought_songs engine db limit)
     = Nat.min (Z.to_nat limit) (size (songs db)))
  ∧ (limit < 0 → length (get_most_sought_songs engine db limit) = size (songs db))
  ∧ (∀ s rest k row,
       get_most_sought_songs engine db limit = s :: rest →
       songs db !! k = Some row →
       sr_discovery_count row ≤ song_discovery_count s).
Proof.
  intros Hok. unfold get_most_sought_songs.
  assert (Hlen : length (merge_sort more_sought_first (scan_songs engine (songs db)))
                 = size (songs db)).
  { rewrite merge_sort_Permutation. destruct Hok as [_ Hs]. rewrite Hs.
    by rewrite length_fmap, length_map_to_list. }
  split_and!.
  - intros s (row & -> & Hrow)%list_elem_of_fmap.
    apply sql_limit_elem, merge_sort_elem in Hrow.
    apply (scan_songs_elem engine _ _ Hok) in Hrow as (k & Hk).
    exists k. unfold get_song. by rewrite Hk.
  - apply (StronglySorted_fmap _ more_sought_first); [done|].
    apply sql_limit_sorted, StronglySorted_merge_sort; apply _.
  - intros Hl. by rewrite length_fmap, sql_limit_length, Hlen.
  - intros Hl. by rewrite length_fmap, sql_limit_unbounded.
  - intros s rest k row Hres Hk.
    assert (Hin : row ∈ merge_sort more_sought_first (scan_songs engine (songs db))).
    { apply merge_sort_elem, (scan_songs_elem engine _ _ Hok). by exists k. }
    pose proof (StronglySorted_merge_sort more_sought_first
                  (scan_songs engine (songs db))) as Hsorted.
    destruct (merge_sort more_sought_first (scan_songs engine (songs db)))
      as [|top sorted] eqn:Hms.
    { by apply elem_of_nil in Hin. }
    assert (Hs : s = SongRecordM.to_model (source_posts db (sr_id top)) top).
    { unfold sql_limit in Hres. destruct (limit <? 0).
      - by injection Hres as <- _.
      - destruct (Z.to_nat limit); [discriminate|]. by injection Hres as <- _. }
    subst s. simpl.
    apply elem_of_cons in Hin as [->|Hin]; [lia|].
    apply StronglySorted_inv in Hsorted as [_ Hall].
    rewrite Forall_forall in Hall. by apply Hall.
Qed.

Lemma most_sought_is_a_ranking_witness :
  let db := save_song (save_song empty_db (sample_song 1 []) None)
                      (sample_song 1 []) None in
  length (get_most_sought_songs table_engine db 5) = Nat.min 5 (size (songs db))
  ∧ length (get_most_sought_songs table_engine db (-1)) = size (songs db).
Proof.
  intros db.
  destruct (most_sought_is_a_ranking table_engine db 5 table_engine_ok)
    as (_ & _ & Hlen & _).
  destruct (most_sought_is_a_ranking table_engine db (-1) table_engine_ok)
    as (_ & _ & _ & Hall & _).
  split; [apply Hlen; lia | apply Hall; lia].
Defined.

(** ** Extractor: the song id *)

Lemma map_chars_length (f : ascii → ascii) (s : string) :
  String.length (PyStr.map_chars f s) = String.length s.
Proof. induction s as [|c s IH]; simpl; [done | by rewrite IH]. Qed.

Lemma string_app_length (a b : string) :
  String.length (a ++ b) = (String.length a + String.length b)%nat.
Proof. induction a as [|c a IH]; simpl; [done | by rewrite IH]. Qed.

Lemma string_app_assoc (a b c : string) :
  ((a ++ b) ++ c = a ++ (b ++ c))%string.
Proof.
  induction a as [|x a IH]; [done|].
  change (String x ((a ++ b) ++ c) = String x (a ++ (b ++ c)))%string.
  by rewrite IH.
Qed.

Lemma string_app_nil_r (a : string) : (a ++ "")%string = a.
Proof.
  induction a as [|x a IH]; [done|].
  change (String x (a ++ "") = String x a)%string. by rewrite IH.
Qed.

Lemma normalized_char_is_id_char (c : ascii) :
  id_char (if PyStr.isalnum (PyStr.lower_char c) then PyStr.lower_char c else "_"%char)
  = true.
Proof. destruct c as [[] [] [] [] [] [] [] []]; reflexivity. Qed.

Lemma normalize_id_chars (s : string) :
  Forall (fun c => id_char c = true) (list_ascii_of_string (normalize s)).
Proof.
  induction s as [|c s IH]; simpl; constructor; [|exact IH].
  apply normalized_char_is_id_char.
Qed.

Lemma normalize_app (a b : string) :
  normalize (a ++ b) = (normalize a ++ normalize b)%string.
Proof. unfold normalize, PyStr.lower. by rewrite !map_chars_app. Qed.

Lemma make_song_id_normalize (artist title : string) :
  make_song_id artist title = normalize (artist ++ "_" ++ title).
Proof. reflexivity. Qed.

Lemma normalize_char_idem (c : ascii) :
  (let n := if PyStr.isalnum (PyStr.lower_char c) then PyStr.lower_char c else "_"%char in
   if PyStr.isalnum (PyStr.lower_char n) then PyStr.lower_char n else "_"%char)
  = if PyStr.isalnum (PyStr.lower_char c) then PyStr.lower_char c else "_"%char.
Proof. destruct c as [[] [] [] [] [] [] [] []]; reflexivity. Qed.

Lemma normalize_idem (s : string) : normalize (normalize s) = normalize s.
Proof.
  induction s as [|c s IH]; [done|].
  change (normalize (String c s))
    with (String (if PyStr.isalnum (PyStr.lower_char c) then PyStr.lower_char c
                  else "_"%char) (normalize s)).
  set (n := if PyStr.isalnum (PyStr.lower_char c) then PyStr.lower_char c else "_"%char).
  change (normalize (String n (normalize s)))
    with (String (if PyStr.isalnum (PyStr.lower_char n) then PyStr.lower_char n
                  else "_"%char) (normalize (normalize s))).
  rewrite IH. f_equal. apply normalize_char_idem.
Qed.

Lemma separator_in_joined (a b : string) :
  "_"%char ∈ list_ascii_of_string (a ++ "_" ++ b).
Proof.
  induction a as [|c a IH].
  - apply list_elem_of_here.
  - change (list_ascii_of_string (String c a ++ "_" ++ b))
      with (c :: list_ascii_of_string (a ++ "_" ++ b)).
    by apply list_elem_of_further.
Qed.

(** X11: a song id is never empty and is made of underscores and of
    alphanumeric characters that are their own lower-case form: no space and
    no punctuation.  It always holds an underscore, and it is in normal form:
    normalising an id gives the id back. *)
Theorem song_id_shape (artist title : string) :
  make_song_id artist title ≠ ""
  ∧ Forall (fun c => id_char c = true)
           (list_ascii_of_string (make_song_id artist title))
  ∧ "_"%char ∈ list_ascii_of_string (make_song_id artist title)
  ∧ normalize (make_song_id artist title) = make_song_id artist title.
Proof.
  split_and!.
  - intros Heq.
    assert (Hlen : String.length (make_song_id artist title) = 0%nat) by by rewrite Heq.
    unfold make_song_id, PyStr.lower in Hlen.
    rewrite !map_chars_length, !string_app_length in Hlen. simpl in Hlen. lia.
  - rewrite make_song_id_normalize. apply normalize_id_chars.
  - rewrite make_song_id_artist_title. apply separator_in_joined.
  - rewrite make_song_id_normalize. apply normalize_idem.
Qed.

Lemma normalize_separator (x : ascii) (t : string) :
  PyStr.isalnum (PyStr.lower_char x) = false →
  normalize (String x t) = String "_" (normalize t).
Proof. intros H. unfold normalize. simpl. by rewrite H. Qed.

(** X12: the id does not record where the artist ends nor, in Latin-1
    text, which separator was written.  An artist [a_b] with title [c] and an
    artist [a] with title [b_c] get the same id; and for an artist and a
    title of Latin-1 characters, the text of this embedding, two characters
    that are not alphanumeric are interchangeable anywhere in artist or
    title.  (Beyond Latin-1 the lower-casing of a capital sigma depends on
    what follows it, and the second part does not hold.) *)
Theorem song_id_collisions (a b c : string) (x y : ascii) :
  make_song_id (a ++ "_" ++ b) c = make_song_id a (b ++ "_" ++ c)
  ∧ (PyStr.isalnum (PyStr.lower_char x) = false →
     PyStr.isalnum (PyStr.lower_char y) = false →
     make_song_id (a ++ String x b) c = make_song_id (a ++ String y b) c
     ∧ make_song_id c (a ++ String x b) = make_song_id c (a ++ String y b)
     ∧ make_song_id (a ++ String x b) c = make_song_id a (b ++ String y c)).
Proof.
  rewrite !make_song_id_normalize. split.
  - f_equal. by rewrite string_app_assoc.
  - intros Hx Hy. rewrite !normalize_app.
    rewrite !(normalize_separator x), !(normalize_separator y) by done.
    split_and!; try reflexivity.
    change (normalize "_") with "_". by rewrite !string_app_assoc.
Qed.

Lemma song_id_collisions_witness :
  make_song_id "AC/DC" "TNT" = make_song_id "AC DC" "TNT"
  ∧ make_song_id "AC/DC" "TNT" = make_song_id "AC" "DC TNT".
Proof.
  destruct (song_id_collisions "AC" "DC" "TNT" "/" " ") as [_ H].
  destruct (H eq_refl eq_refl) as (H1 & _ & H3).
  split; [exact H1 | exact H3].
Defined.

(** ** Extractor: the reply cap *)

(** X13: [extract_solution] reads the first fifty replies only: the prompts
    it sends and its outcome are those for the list cut after the fiftieth
    reply. *)
Theorem extract_solution_reads_fifty_replies
        (rt : ParserRuntime) (post : Post) (comments : list Comment) :
  extract_solution rt post comments = extract_solution rt post (take 50 comments).
Proof.
  destruct comments as [|c rest]; [done|].
  unfold extract_solution.
  change (take 50 (c :: rest)) with (c :: take 49 rest).
  change (firstn 50 (c :: take 49 rest)) with (take 50 (take 50 (c :: rest))).
  change (firstn 50 (c :: rest)) with (take 50 (c :: rest)).
  by rewrite take_take, Nat.min_id.
Qed.

(** ** Extractor: what a fence encloses *)

Lemma startswith_backtick_false (sep' s : string) (c : ascii) :
  Ascii.eqb c backtick = false →
  PyStr.startswith (String backtick sep') (String c s) = false.
Proof.
  intros Hc. cbn [PyStr.startswith]. by rewrite Ascii.eqb_sym, Hc.
Qed.

(** Text without backticks in front of the rest goes into the current piece. *)
Lemma split_from_plain (sep' pre s cur : string) :
  no_backtick pre = true →
  PyStr.split_from (String backtick sep') 0 cur (pre ++ s)
  = PyStr.split_from (String backtick sep') 0 (cur ++ pre) s.
Proof.
  revert cur. induction pre as [|c pre IH]; intros cur Hpre.
  - by rewrite string_app_nil_r.
  - simpl in Hpre. apply andb_true_iff in Hpre as [Hc Hpre].
    apply negb_true_iff in Hc.
    change (String c pre ++ s)%string with (String c (pre ++ s)).
    cbn [PyStr.split_from].
    rewrite (startswith_backtick_false sep' (pre ++ s) c Hc).
    rewrite (IH _ Hpre). f_equal.
    rewrite string_app_assoc. reflexivity.
Qed.

Lemma split_from_skip (sep x s cur : string) :
  PyStr.split_from sep (String.length x) cur (x ++ s) = PyStr.split_from sep 0 cur s.
Proof. induction x as [|c x IH]; [done | exact IH]. Qed.

Lemma startswith_app (sep s : string) : PyStr.startswith sep (sep ++ s) = true.
Proof.
  induction sep as [|c sep IH]; [done|].
  change (String c sep ++ s)%string with (String c (sep ++ s)).
  simpl. by rewrite Ascii.eqb_refl, IH.
Qed.

(** A separator behind plain text closes the first piece. *)
Lemma split_at_separator (sep' pre s : string) :
  no_backtick pre = true →
  PyStr.split (String backtick sep') (pre ++ String backtick sep' ++ s)
  = pre :: PyStr.split (String backtick sep') s.
Proof.
  intros Hpre. unfold PyStr.split. rewrite (split_from_plain _ _ _ _ Hpre).
  change (String backtick sep' ++ s)%string with (String backtick (sep' ++ s)).
  cbn [PyStr.split_from].
  change (String backtick (sep' ++ s)) with (String backtick sep' ++ s)%string.
  rewrite startswith_app. f_equal.
  change (String.length (String backtick sep') - 1)%nat with (String.length sep' - 0)%nat.
  rewrite Nat.sub_0_r. apply split_from_skip.
Qed.

Lemma contains_behind_plain (sep pre s : string) :
  PyStr.contains sep (sep ++ s) = true →
  PyStr.contains sep (pre ++ sep ++ s) = true.
Proof.
  intros H. induction pre as [|c pre IH]; [exact H|].
  change (String c pre ++ sep ++ s)%string with (String c (pre ++ sep ++ s)).
  simpl. rewrite IH. apply orb_true_r.
Qed.

Lemma contains_at_start (sep s : string) : PyStr.contains sep (sep ++ s) = true.
Proof.
  destruct (sep ++ s)%string eqn:Heq; simpl.
  - rewrite <- Heq. by rewrite startswith_app.
  - rewrite <- Heq. by rewrite startswith_app.
Qed.

(** The first piece of a split begins with the piece under construction. *)
Lemma split_from_head (sep s cur : string) :
  ∃ more rest, PyStr.split_from sep 0 cur s = (cur ++ more)%string :: rest.
Proof.
  revert cur. induction s as [|c s IH]; intros cur.
  - exists EmptyString, []. simpl. by rewrite string_app_nil_r.
  - cbn [PyStr.split_from]. destruct (PyStr.startswith sep (String c s)).
    + exists EmptyString. eexists. by rewrite string_app_nil_r.
    + destruct (IH (cur ++ String c "")%string) as (more & rest & ->).
      exists (String c more), rest. f_equal. by rewrite string_app_assoc.
Qed.

Lemma split_plain_first (inner more : string) :
  no_backtick inner = true →
  item (PyStr.split "```" (inner ++ "```" ++ more)) 0 = Returned inner.
Proof.
  intros Hin. change "```"%string with (String backtick "``").
  by rewrite (split_at_separator "``" inner more Hin).
Qed.

Lemma split_plain_only (inner : string) :
  no_backtick inner = true →
  item (PyStr.split "```" inner) 0 = Returned inner.
Proof.
  intros Hin. unfold PyStr.split.
  rewrite <- (string_app_nil_r inner) at 1.
  change "```"%string with (String backtick "``").
  by rewrite (split_from_plain _ _ _ _ Hin).
Qed.

(** Behind plain text and a closing fence that nothing but a backtick-free
    start follows, the first piece of a split at the tagged fence is the
    plain text, alone or followed by the closing fence. *)
Lemma tagged_piece (inner rest : string) :
  no_backtick inner = true →
  no_leading_backtick rest = true →
  ∃ more pieces,
    PyStr.split "```json" (inner ++ "```" ++ rest) = (inner ++ more)%string :: pieces
    ∧ (more = EmptyString ∨ ∃ z, more = ("```" ++ z)%string).
Proof.
  intros Hin Hrest. unfold PyStr.split.
  change "```json"%string with (String backtick "``json").
  rewrite (split_from_plain _ _ _ _ Hin).
  change (EmptyString ++ inner)%string with inner.
  change ("```" ++ rest)%string with (String backtick (String backtick (String backtick rest))).
  cbn [PyStr.split_from].
  destruct (PyStr.startswith (String backtick "``json")
              (String backtick (String backtick (String backtick rest)))).
  { eexists EmptyString, _. rewrite string_app_nil_r. split; [done | by left]. }
  assert (H2 : PyStr.startswith (String backtick "``json")
                 (String backtick (String backtick rest)) = false).
  { destruct rest as [|c rest]; [done|]. simpl in Hrest.
    apply negb_true_iff in Hrest. rewrite Ascii.eqb_sym in Hrest.
    unfold backtick in *. cbn [PyStr.startswith]. by rewrite Hrest. }
  assert (H3 : PyStr.startswith (String backtick "``json") (String backtick rest) = false).
  { destruct rest as [|c rest]; [done|]. simpl in Hrest.
    apply negb_true_iff in Hrest. rewrite Ascii.eqb_sym in Hrest.
    unfold backtick in *. cbn [PyStr.startswith]. by rewrite Hrest. }
  rewrite H2, H3.
  destruct (split_from_head (String backtick "``json") rest
              (((inner ++ String backtick "") ++ String backtick "")
                 ++ String backtick "")%string) as (more & pieces & ->).
  exists ("```" ++ more)%string, pieces. split.
  - f_equal. rewrite !string_app_assoc. reflexivity.
  - right. by exists more.
Qed.

(** X14: a response made of plain text, a fence, the payload, a closing
    fence and more text has its payload handed to the decoder, as long as
    neither the text in front nor the payload contains a backtick: for a
    fence tagged [json], when what follows the closing fence does not begin
    with a backtick; for a bare fence, when the response contains no tagged
    fence.  A response without any fence is handed over whole. *)
Theorem code_block_returns_the_payload (before payload after : string) :
  no_backtick before = true →
  no_backtick payload = true →
  (no_leading_backtick after = true →
   code_block (before ++ "```json" ++ payload ++ "```" ++ after) = Returned payload)
  ∧ (PyStr.contains "```json" (before ++ "```" ++ payload ++ "```" ++ after) = false →
     code_block (before ++ "```" ++ payload ++ "```" ++ after) = Returned payload)
  ∧ code_block (before ++ payload) = Returned (before ++ payload)%string.
Proof.
  intros Hb Hp. split_and!.
  - intros Ha. unfold code_block.
    rewrite (contains_behind_plain "```json" before _ (contains_at_start _ _)).
    change "```json"%string with (String backtick "``json") at 1.
    change ("```json" ++ payload ++ "```" ++ after)%string
      with (String backtick "``json" ++ payload ++ "```" ++ after)%string.
    rewrite (split_at_separator "``json" before _ Hb).
    change (String backtick "``json") with "```json"%string.
    destruct (tagged_piece payload after Hp Ha) as (more & pieces & -> & Hmore).
    cbn [item nth_error].
    destruct Hmore as [-> | (z & ->)].
    + rewrite string_app_nil_r. by apply split_plain_only.
    + by apply split_plain_first.
  - intros Hnone. unfold code_block. rewrite Hnone.
    rewrite (contains_behind_plain "```" before _ (contains_at_start _ _)).
    change ("```" ++ payload ++ "```" ++ after)%string
      with (String backtick "``" ++ payload ++ String backtick "``" ++ after)%string.
    change "```"%string with (String backtick "``") at 1.
    rewrite (split_at_separator "``" before _ Hb).
    rewrite (split_at_separator "``" payload after Hp).
    cbn [item nth_error]. change (String backtick "``") with "```"%string.
    by apply split_plain_only.
  - unfold code_block.
    assert (Hplain : ∀ sep' s, no_backtick s = true →
                               PyStr.contains (String backtick sep') s = false).
    { intros sep' s. induction s as [|c s IH]; [done|].
      intros Hs. simpl in Hs. apply andb_true_iff in Hs as [Hc Hs].
      apply negb_true_iff in Hc. cbn [PyStr.contains].
      rewrite (startswith_backtick_false sep' s c Hc). simpl. by apply IH. }
    assert (Hall : no_backtick (before ++ payload) = true).
    { clear -Hb Hp. induction before as [|c before IH]; [done|].
      simpl in Hb. apply andb_true_iff in Hb as [Hc Hb].
      change (String c before ++ payload)%string with (String c (before ++ payload)).
      simpl. by rewrite Hc, IH. }
    change "```json"%string with (String backtick "``json").
    change "```"%string with (String backtick "``").
    by rewrite !Hplain.
Qed.

Lemma code_block_returns_the_payload_witness :
  code_block ("Here is the answer: " ++ "```json" ++ "{}" ++ "```" ++ " I hope it helps.")
  = Returned "{}"
  ∧ code_block ("Here is the answer: " ++ "```" ++ "{}" ++ "```" ++ " I hope it helps.")
    = Returned "{}".
Proof.
  destruct (code_block_returns_the_payload "Here is the answer: " "{}" " I hope it helps."
              eq_refl eq_refl) as (Htagged & Hbare & _).
  split; [by apply Htagged | by apply Hbare].
Defined.

(** ** Extractor: enrichment *)

(** X15: what [enrich_post] does to a post, once the capability has
    answered.  If the decoder raises [JSONDecodeError] on the answer, the
    post comes back with its own title as description; any other exception
    of the decoder ([RecursionError] on a text nested too deeply) leaves
    [enrich_post].  If the answer decodes to an object, the description
    becomes the string under the key [description], or null when the key is
    missing or null, whatever description the post had.  If it decodes to
    anything but an object, [AttributeError] is raised.  Whenever a post
    comes back, one prompt was sent and every field but the description is
    untouched. *)
Theorem enrich_post_outcomes (rt : ParserRuntime) (post : Post) (response_text : string) :
  messages_create rt (EXTRACT_DESCRIPTION_PROMPT (post_title post) (post_body post))
  = Some response_text →
  ∃ text,
    code_block response_text = Returned text
    ∧ match json_loads rt (PyStr.strip text) with
      | JSONDecodeError =>
          (enrich_post rt post).2
          = Returned (Described (set_description post (Some (post_title post))))
      | DecoderRaised e => (enrich_post rt post).2 = Raised e
      | Decoded (JObj extraction) =>
          match dict_item extraction "description" with
          | None | Some JNull =>
              (enrich_post rt post).2 = Returned (Described (set_description post None))
          | Some (JStr s) =>
              (enrich_post rt post).2
              = Returned (Described (set_description post (Some s)))
          | Some value => (enrich_post rt post).2 = Returned (Mistyped post value)
          end
      | Decoded _ => (enrich_post rt post).2 = Raised AttributeError
      end
    ∧ (∀ enriched, (enrich_post rt post).2 = Returned (Described enriched) →
         ∃ description,
           enriched = set_description post description
           ∧ (enrich_post rt post).1
             = [EXTRACT_DESCRIPTION_PROMPT (post_title post) (post_body post)]).
Proof.
  intros Hcall.
  destruct (code_block_returns response_text) as (text & Htext).
  exists text. split; [exact Htext|].
  unfold enrich_post, extract_description. rewrite Hcall.
  unfold description_of_response. rewrite Htext.
  destruct (json_loads rt (PyStr.strip text)) as [[| | | | |items|extraction]| |e];
    simpl; try (split; [reflexivity | discriminate]).
  - unfold dict_get.
    destruct (dict_item extraction "description") as [[| | | | | |]|];
      simpl; (split; [reflexivity|]); try discriminate;
      intros enriched [= <-]; by eexists.
  - split; [reflexivity|]. intros enriched [= <-]. by eexists.
Qed.

Lemma enrich_post_outcomes_witness :
  (enrich_post (canned_runtime "I cannot say." "{}" (Some (JObj [])))
     (sample_post "t1" 100 OPEN)).2
  = Returned (Described (set_description (sample_post "t1" 100 OPEN)
                                         (Some "80s synth song"))).
Proof.
  destruct (enrich_post_outcomes (canned_runtime "I cannot say." "{}" (Some (JObj [])))
              (sample_post "t1" 100 OPEN) "I cannot say." eq_refl)
    as (text & Htext & Hcase & _).
  injection Htext as <-. exact Hcase.
Defined.

(** ** Classifier: the status rules, read closely *)

Lemma contains_tail (a : ascii) (p s : string) :
  PyStr.contains (String a p) s = true → PyStr.contains p s = true.
Proof.
  induction s as [|c s IH]; [discriminate|].
  cbn [PyStr.contains PyStr.startswith].
  intros [Hhere | Hlater]%orb_true_iff.
  - apply andb_true_iff in Hhere as [_ Hp].
    apply orb_true_iff. right.
    destruct s; simpl; by rewrite Hp.
  - apply orb_true_iff. right. by apply IH.
Qed.

(** X16: a tag in which "unsolved" occurs is classified SOLVED, because
    "solved" occurs in it and the first rule is tried first.  The status
    UNSOLVED is given exactly to the tags that contain "closed" and none of
    "solved", "answered", "open" and "searching". *)
Theorem unsolved_tag_is_classified_solved (sub : Submission) :
  let flair := PyStr.lower (or_empty (sub_link_flair_text sub)) in
  (PyStr.contains "unsolved" flair = true → _determine_status sub = SOLVED)
  ∧ (_determine_status sub = UNSOLVED ↔
     PyStr.contains "closed" flair = true
     ∧ PyStr.contains "solved" flair = false
     ∧ PyStr.contains "answered" flair = false
     ∧ PyStr.contains "open" flair = false
     ∧ PyStr.contains "searching" flair = false).
Proof.
  intros flair. unfold _determine_status. fold flair. split.
  - intros Hun. apply contains_tail, contains_tail in Hun. by rewrite Hun.
  - destruct (PyStr.contains "solved" flair) eqn:H1; simpl.
    { split; [discriminate | by intros (_ & ? & _)]. }
    destruct (PyStr.contains "answered" flair) eqn:H2; simpl.
    { split; [discriminate | by intros (_ & _ & ? & _)]. }
    destruct (PyStr.contains "open" flair) eqn:H3; simpl.
    { split; [discriminate | by intros (_ & _ & _ & ? & _)]. }
    destruct (PyStr.contains "searching" flair) eqn:H4; simpl.
    { split; [discriminate | by intros (_ & _ & _ & _ & ?)]. }
    destruct (PyStr.contains "unsolved" flair) eqn:H5.
    { apply contains_tail, contains_tail in H5. congruence. }
    simpl. destruct (PyStr.contains "closed" flair).
    + by split.
    + split; [discriminate | by intros (? & _)].
Qed.

Lemma unsolved_tag_is_classified_solved_witness :
  _determine_status (sample_thread "t3" "WhatsThisSong" "a tune" (Some "Still UNSOLVED"))
  = SOLVED
  ∧ _determine_status (sample_thread "t4" "WhatsThisSong" "a tune" (Some "Closed"))
    = UNSOLVED.
Proof.
  split.
  - apply (unsolved_tag_is_classified_solved
             (sample_thread "t3" "WhatsThisSong" "a tune" (Some "Still UNSOLVED"))).
    reflexivity.
  - apply (unsolved_tag_is_classified_solved
             (sample_thread "t4" "WhatsThisSong" "a tune" (Some "Closed"))).
    by split_and!.
Defined.

(** ** Classifier: what the generators yield *)

Lemma yield_music_ids (rt : Runtime) (adjust : Post → Post) (listing : list Submission)
      (tick : nat) :
  (∀ p, post_id (adjust p) = post_id p) →
  post_id <$> (yield_music rt adjust tick listing).1
  = sub_id <$> filter (fun s => _is_music_post s = true) listing
  ∧ (yield_music rt adjust tick listing).2
    = (tick + length (filter (fun s => _is_music_post s = true) listing))%nat.
Proof.
  intros Hid. revert tick.
  induction listing as [|sub rest IH]; intros tick; cbn [yield_music].
  - split; [done | simpl; lia].
  - destruct (_is_music_post sub) eqn:Hm.
    + rewrite filter_cons_True by done.
      destruct (IH (S tick)) as [IH1 IH2].
      destruct (yield_music rt adjust (S tick) rest) as [ps t1].
      cbn [fst snd] in *. rewrite !fmap_cons, Hid, IH1, IH2.
      split; [done | simpl; lia].
    + rewrite filter_cons_False by (by rewrite Hm). apply IH.
Qed.

(** X17: each generator yields one post per music thread of its listings,
    in the order of the listings (subreddit after subreddit, a thread listed
    twice being yielded twice), and reads the clock once per yielded post. *)
Theorem generators_yield_music_threads_in_order
        (rt : Runtime) (subreddits : list string) (limit : Z) (tick : nat) :
  let music := filter (fun s => _is_music_post s = true) in
  (post_id <$> (scrape_new rt subreddits limit tick).1
   = sub_id <$> music (flat_map (fun name => subreddit_new rt name limit) subreddits)
   ∧ (scrape_new rt subreddits limit tick).2
     = (tick + length (scrape_new rt subreddits limit tick).1)%nat)
  ∧ (post_id <$> (scrape_hot rt subreddits limit tick).1
     = sub_id <$> music (flat_map (fun name => subreddit_hot rt name limit) subreddits)
     ∧ (scrape_hot rt subreddits limit tick).2
       = (tick + length (scrape_hot rt subreddits limit tick).1)%nat)
  ∧ (post_id <$> (scrape_solved rt subreddits limit tick).1
     = sub_id <$> music (flat_map (fun name =>
                                     subreddit_search rt name
                                       "flair:solved OR flair:answered" limit)
                                  subreddits)
     ∧ (scrape_solved rt subreddits limit tick).2
       = (tick + length (scrape_solved rt subreddits limit tick).1)%nat).
Proof.
  intros music. unfold scrape_new, scrape_hot, scrape_solved.
  rewrite !scrape_each_flat.
  split_and!;
    match goal with
    | |- post_id <$> _ = _ => by apply yield_music_ids
    | |- (yield_music ?rt ?adj ?t ?l).2 = _ =>
        destruct (yield_music_ids rt adj l t ltac:(done)) as [H1 H2];
        rewrite H2; f_equal;
        rewrite <- (length_fmap post_id), H1; by rewrite length_fmap
    end.
Qed.

(** ** Classifier: the links found *)

(** A match consumes a prefix of the text and hands the rest on. *)
Lemma rmatch_suffix {A : Type} (r : Re.regex) :
  ∀ (s : string) (k : string → option A) (v : A),
    Re.rmatch r s k = Some v →
    ∃ consumed rest, s = (consumed ++ rest)%string ∧ k rest = Some v.
Proof.
  assert (Hloop : ∀ r1 : Re.regex,
    (∀ (s : string) (k : string → option A) (v : A),
        Re.rmatch r1 s k = Some v →
        ∃ consumed rest, s = (consumed ++ rest)%string ∧ k rest = Some v) →
    ∀ (k : string → option A) (v : A) (fuel : nat) (s : string),
      (fix loop (fuel : nat) (s : string) {struct fuel} : option A :=
         match fuel with
         | O => k s
         | S fuel' =>
             match Re.rmatch r1 s (fun s' =>
                     if (String.length s' <? String.length s)%nat
                     then loop fuel' s' else None) with
             | Some v => Some v
             | None => k s
             end
         end) fuel s = Some v →
      ∃ consumed rest, s = (consumed ++ rest)%string ∧ k rest = Some v).
  { intros r1 IHr k v fuel. induction fuel as [|fuel IHf]; intros s H.
    - exists EmptyString, s. by split.
    - match type of H with
      | match ?m with _ => _ end = _ => destruct m as [v'|] eqn:Hm
      end.
      + injection H as ->. apply IHr in Hm as (c1 & s1 & -> & Hk).
        destruct (String.length s1 <? String.length (c1 ++ s1))%nat; [|discriminate].
        apply IHf in Hk as (c2 & rest & -> & Hk).
        exists (c1 ++ c2)%string, rest. split; [by rewrite string_app_assoc | done].
      + exists EmptyString, s. by split. }
  induction r as [|c|f|r1 IH1 r2 IH2|r1 IH1 r2 IH2|r1 IH1|r1 IH1|r1 IH1];
    intros s k v H.
  - exists EmptyString, s. by split.
  - destruct s as [|x s]; [discriminate|]. cbn [Re.rmatch] in H.
    destruct (Ascii.eqb _ _); [|discriminate].
    exists (String x ""), s. by split.
  - destruct s as [|x s]; [discriminate|]. cbn [Re.rmatch] in H.
    destruct (f x); [|discriminate].
    exists (String x ""), s. by split.
  - cbn [Re.rmatch] in H. apply IH1 in H as (c1 & s1 & -> & H).
    apply IH2 in H as (c2 & rest & -> & H).
    exists (c1 ++ c2)%string, rest. split; [by rewrite string_app_assoc | done].
  - cbn [Re.rmatch] in H. destruct (Re.rmatch r1 s k) as [v'|] eqn:H1.
    + injection H as ->. by apply IH1.
    + by apply IH2.
  - cbn [Re.rmatch] in H. destruct (Re.rmatch r1 s k) as [v'|] eqn:H1.
    + injection H as ->. by apply IH1.
    + exists EmptyString, s. by split.
  - cbn [Re.rmatch] in H. by apply (Hloop r1 IH1) in H.
  - cbn [Re.rmatch] in H. apply IH1 in H as (c1 & s1 & -> & H).
    apply (Hloop r1 IH1) in H as (c2 & rest & -> & H).
    exists (c1 ++ c2)%string, rest. split; [by rewrite string_app_assoc | done].
Qed.

Lemma substring_prefix (n : nat) (s : string) :
  ∃ after, s = (substring 0 n s ++ after)%string.
Proof.
  revert s. induction n as [|n IH]; intros s.
  - exists s. by destruct s.
  - destruct s as [|c s]; [by exists EmptyString|].
    destruct (IH s) as (after & Hafter). exists after.
    cbn [substring]. change (String c (substring 0 n s) ++ after)%string
      with (String c (substring 0 n s ++ after)). by rewrite <- Hafter.
Qed.

Lemma substring_consumed (consumed rest : string) :
  substring 0 (String.length (consumed ++ rest) - String.length rest) (consumed ++ rest)
  = consumed.
Proof.
  rewrite string_app_length.
  replace (String.length consumed + String.length rest - String.length rest)%nat
    with (String.length consumed) by lia.
  induction consumed as [|c consumed IH].
  - simpl. by destruct rest.
  - change (String c consumed ++ rest)%string with (String c (consumed ++ rest)).
    cbn [String.length substring]. by rewrite IH.
Qed.

Lemma findall_from_occurs (r : Re.regex) (s : string) :
  ∀ skip x, x ∈ Re.findall_from r skip s → occurs_in x s.
Proof.
  induction s as [|c s IH]; intros skip x Hx.
  - by apply elem_of_nil in Hx.
  - assert (Hlater : ∀ k, x ∈ Re.findall_from r k s → occurs_in x (String c s)).
    { intros k Hk. destruct (IH k x Hk) as (before & after & ->).
      by exists (String c before), after. }
    cbn [Re.findall_from] in Hx. destruct skip as [|k]; [|by eapply Hlater].
    destruct (Re.match_rest r (String c s)) as [rest|]; [|by eapply Hlater].
    apply elem_of_cons in Hx as [-> | Hx]; [|by eapply Hlater].
    destruct (substring_prefix (String.length (String c s) - String.length rest)
                (String c s)) as (after & Hafter).
    by exists EmptyString, after.
Qed.

(** A match of [http] takes four characters that lower-case to it. *)
Lemma rmatch_http {A : Type} (s : string) (k : string → option A) (v : A) :
  Re.rmatch (Re.word "http") s k = Some v →
  ∃ head tail, s = (head ++ tail)%string
               ∧ PyStr.lower head = "http" ∧ k tail = Some v.
Proof.
  destruct s as [|c1 [|c2 [|c3 [|c4 s]]]]; cbn [Re.word Re.rmatch]; try discriminate;
    repeat (match goal with
            | |- (if ?b then _ else _) = _ → _ => destruct b eqn:?; [|discriminate]
            end; try discriminate).
  intros Hk.
  exists (String c1 (String c2 (String c3 (String c4 "")))), s.
  split; [done|]. split; [|done].
  cbn [PyStr.lower PyStr.map_chars].
  repeat match goal with
         | H : Ascii.eqb _ _ = true |- _ => apply Ascii.eqb_eq in H; rewrite H; clear H
         end.
  reflexivity.
Qed.

Lemma audio_pattern_scheme (pattern : Re.regex) :
  pattern ∈ AUDIO_LINK_PATTERNS → ∃ tail, pattern = Re.seq (scheme :: tail).
Proof.
  intros H. unfold AUDIO_LINK_PATTERNS in H.
  repeat (apply elem_of_cons in H as [-> | H]; [by eexists|]).
  by apply elem_of_nil in H.
Qed.

Lemma findall_from_http (tail : list Re.regex) (s : string) :
  ∀ skip x, x ∈ Re.findall_from (Re.seq (scheme :: tail)) skip s →
            PyStr.startswith "http" (PyStr.lower x) = true.
Proof.
  induction s as [|c s IH]; intros skip x Hx.
  - by apply elem_of_nil in Hx.
  - cbn [Re.findall_from] in Hx. destruct skip as [|k]; [|by eapply IH].
    destruct (Re.match_rest (Re.seq (scheme :: tail)) (String c s)) as [rest|] eqn:Hm;
      [|by eapply IH].
    apply elem_of_cons in Hx as [-> | Hx]; [|by eapply IH].
    assert (Hm' : Re.rmatch (Re.word "http") (String c s)
                    (fun s1 => Re.rmatch (Re.seq [Re.Opt (Re.Lit "s"); Re.word "://"]) s1
                                 (fun s2 => Re.rmatch (Re.seq tail) s2 Some))
                  = Some rest) by exact Hm.
    clear Hm.
    apply rmatch_http in Hm' as (head & tail1 & Hs & Hhead & Hm).
    apply rmatch_suffix in Hm as (c1 & s1 & -> & Hm).
    apply rmatch_suffix in Hm as (c2 & s2 & -> & Hm).
    injection Hm as <-. rewrite Hs.
    rewrite <- !string_app_assoc. rewrite substring_consumed.
    unfold PyStr.lower. rewrite !string_app_assoc, map_chars_app.
    fold (PyStr.lower head). rewrite Hhead. reflexivity.
Qed.

(** X18: every link that [_extract_audio_links] returns occurs verbatim in
    the text it was given and begins with [http] in some casing, and no link
    is returned twice, whatever order the interpreter enumerates sets in. *)
Theorem audio_links_come_from_the_text (rt : Runtime) (text : string) :
  (∀ l x, x ∈ set_to_list rt l ↔ x ∈ l) →
  (∀ l, NoDup (set_to_list rt l)) →
  NoDup (_extract_audio_links rt text)
  ∧ ∀ x, x ∈ _extract_audio_links rt text →
         occurs_in x text ∧ PyStr.startswith "http" (PyStr.lower x) = true.
Proof.
  intros Helem Hnodup. unfold _extract_audio_links. split; [apply Hnodup|].
  intros x Hx. apply (proj1 (Helem _ _)) in Hx.
  apply list_elem_of_In, in_flat_map in Hx as (pattern & Hp & Hx).
  apply list_elem_of_In in Hp, Hx. split.
  - by eapply findall_from_occurs.
  - apply audio_pattern_scheme in Hp as (tail & ->). by eapply findall_from_http.
Qed.

Lemma audio_links_come_from_the_text_witness :
  NoDup (_extract_audio_links (sample_runtime (fun _ => []))
           "https://youtu.be/abc-1 and again HTTPS://youtu.be/abc-1 and https://youtu.be/abc-1").
Proof.
  apply (audio_links_come_from_the_text (sample_runtime (fun _ => []))).
  - intros l x. apply elem_of_remove_dups.
  - intros l. apply NoDup_remove_dups.
Defined.

(** ** Orchestrator: the resolution pass *)

Lemma with_description_of_fields (post : Post) (song : Song) :
  song_id (with_description_of post song) = song_id song
  ∧ song_title (with_description_of post song) = song_title song
  ∧ song_artist (with_description_of post song) = song_artist song
  ∧ song_discovery_count (with_description_of post song) = song_discovery_count song.
Proof. unfold with_description_of. by destruct (falsy (post_description post)). Qed.

Lemma solve_post_song (rt : Runtime) (threads : ThreadSource) (prt : ParserRuntime)
      (tick : nat) (post : Post) (song : Song) (tick' : nat) :
  solve_post rt threads prt tick post = (Some song, tick') → found_song song.
Proof.
  unfold solve_post.
  destruct (get_post_with_comments rt threads tick (post_id post))
    as [[[p comments] t]|]; [|discriminate].
  destruct (extract_solution prt post comments) as [calls [[s0|]|e]] eqn:Hex;
    simpl; try discriminate.
  intros [= <- <-].
  assert (H : (extract_solution prt post comments).2 = Returned (Some s0))
    by (by rewrite Hex).
  apply extract_solution_returned_song in H as (_ & prompt & response & _ & _ & H).
  apply solution_returned_song in H as (text & result & _ & _ & _ & _ & _ & Hid & Hc & _).
  destruct (with_description_of_fields post s0) as (Hi & Ht & Ha & Hn).
  unfold found_song. rewrite Hi, Ht, Ha, Hn. by split.
Qed.

Lemma process_loop_saves (rt : Runtime) (threads : ThreadSource) (parser_at : ParserOracle)
      (todo : list Post) :
  ∀ i db n tick,
    ∃ found tick',
      process_loop rt threads parser_at i todo db n tick
      = (run_ops (saves_of found) db, n + Z.of_nat (length found), tick')
      ∧ (snd <$> found) `sublist_of` todo
      ∧ Forall (fun sp => found_song sp.1) found.
Proof.
  induction todo as [|post rest IH]; intros i db n tick.
  - exists [], tick. simpl. split_and!; [f_equal; f_equal; lia | done | done].
  - cbn [process_loop].
    destruct (solve_post rt threads (parser_at i) tick post) as [[song|] t1] eqn:Hs.
    + destruct (IH (S i) (save_song db song (Some post)) (n + 1) t1)
        as (found & t2 & -> & Hsub & Hall).
      exists ((song, post) :: found), t2. split_and!.
      * simpl. f_equal. f_equal. lia.
      * simpl. by apply sublist_skip.
      * constructor; [|done]. simpl. by eapply solve_post_song.
    + destruct (IH (S i) db n t1) as (found & t2 & -> & Hsub & Hall).
      exists found, t2. split_and!; [done | by apply sublist_cons | done].
Qed.

Lemma save_song_size (db : Database) (song : Song) (src : option Post) :
  (size (songs (save_song db song src)) ≤ S (size (songs db)))%nat.
Proof.
  destruct (songs db !! song_id song) as [existing|] eqn:Hex.
  - rewrite (save_song_present _ _ _ _ Hex).
    rewrite map_size_insert_Some by done. lia.
  - rewrite (save_song_absent _ _ _ Hex).
    by rewrite map_size_insert_None.
Qed.

Lemma saves_size (found : list (Song * Post)) (db : Database) :
  (size (songs (run_ops (saves_of found) db)) ≤ size (songs db) + length found)%nat.
Proof.
  revert db. induction found as [|[s p] found IH]; intros db; simpl; [lia|].
  etrans; [apply IH|]. pose proof (save_song_size db s (Some p)). lia.
Qed.

Lemma unresolved_posts_length (engine : Engine) (db : Database) (limit : Z) :
  0 ≤ limit → (length (unresolved_posts engine db limit) ≤ Z.to_nat limit)%nat.
Proof.
  intros Hl. unfold unresolved_posts, get_posts.
  etrans; [apply List.filter_length_le|].
  rewrite length_fmap, sql_limit_length by done. lia.
Qed.

Lemma process_loop_discoveries (rt : Runtime) (threads : ThreadSource)
      (parser_at : ParserOracle) (todo : list Post) :
  ∀ i db n tick,
    ∃ tick',
      process_loop rt threads parser_at i todo db n tick
      = (run_ops (saves_of (discoveries rt threads parser_at i todo tick)) db,
         n + Z.of_nat (length (discoveries rt threads parser_at i todo tick)), tick').
Proof.
  induction todo as [|post rest IH]; intros i db n tick.
  - exists tick. simpl. f_equal. f_equal. lia.
  - cbn [process_loop discoveries].
    destruct (solve_post rt threads (parser_at i) tick post) as [[song|] t1].
    + destruct (IH (S i) (save_song db song (Some post)) (n + 1) t1) as (t2 & ->).
      exists t2. simpl. f_equal. f_equal. lia.
    + apply IH.
Qed.

Lemma discoveries_spec (rt : Runtime) (threads : ThreadSource) (parser_at : ParserOracle)
      (todo : list Post) :
  ∀ i tick,
    (snd <$> discoveries rt threads parser_at i todo tick) `sublist_of` todo
    ∧ Forall (fun sp => found_song sp.1) (discoveries rt threads parser_at i todo tick)
    ∧ (∀ p, p ∈ todo →
            (∀ j t, (solve_post rt threads (parser_at j) t p).1 ≠ None) →
            p ∈ snd <$> discoveries rt threads parser_at i todo tick)
    ∧ (∀ p, (∀ j t, (solve_post rt threads (parser_at j) t p).1 = None) →
            p ∉ snd <$> discoveries rt threads parser_at i todo tick).
Proof.
  induction todo as [|post rest IH]; intros i tick.
  - simpl. split_and!; [done | done | |].
    + intros p Hp. by apply elem_of_nil in Hp.
    + intros p _ Hp. by apply elem_of_nil in Hp.
  - cbn [discoveries].
    destruct (solve_post rt threads (parser_at i) tick post) as [[song|] t1] eqn:Hs.
    + destruct (IH (S i) t1) as (Hsub & Hall & Hin & Hout).
      split_and!.
      * simpl. by apply sublist_skip.
      * constructor; [|done]. simpl. by eapply solve_post_song.
      * intros p Hp Hsolves. rewrite fmap_cons. simpl.
        apply elem_of_cons in Hp as [->|Hp]; [by left|].
        right. by apply Hin.
      * intros p Hnone. rewrite fmap_cons. simpl.
        apply not_elem_of_cons. split; [|by apply Hout].
        intros ->. specialize (Hnone i tick). rewrite Hs in Hnone. discriminate.
    + destruct (IH (S i) t1) as (Hsub & Hall & Hin & Hout).
      split_and!; [by apply sublist_cons | done | | done].
      intros p Hp Hsolves.
      apply elem_of_cons in Hp as [->|Hp]; [|by apply Hin].
      specialize (Hsolves i tick). by rewrite Hs in Hsolves.
Qed.

Lemma save_song_stores (db : Database) (song : Song) (src : option Post) :
  is_Some (songs (save_song db song src) !! song_id song).
Proof.
  destruct (songs db !! song_id song) as [existing|] eqn:Hex.
  - rewrite (save_song_present _ _ _ _ Hex), lookup_insert_eq. by eexists.
  - rewrite (save_song_absent _ _ _ Hex), lookup_insert_eq. by eexists.
Qed.

Lemma saves_keep_songs (found : list (Song * Post)) (db : Database) (sid : string) :
  is_Some (songs db !! sid) → is_Some (songs (run_ops (saves_of found) db) !! sid).
Proof.
  revert db. induction found as [|[s p] found IH]; intros db Hsid; [done|].
  simpl. apply IH. destruct Hsid as [r Hr].
  destruct (apply_op_keeps_songs db (SaveSong s (Some p)) sid r Hr) as (r' & Hr' & _).
  by exists r'.
Qed.

Lemma saves_store_songs (found : list (Song * Post)) (db : Database) (s : Song) (p : Post) :
  (s, p) ∈ found → is_Some (songs (run_ops (saves_of found) db) !! song_id s).
Proof.
  revert db. induction found as [|[s0 p0] found IH]; intros db Hin.
  - by apply elem_of_nil in Hin.
  - simpl. apply elem_of_cons in Hin as [[= <- <-]|Hin].
    + apply saves_keep_songs, save_song_stores.
    + by apply IH.
Qed.



Lemma unresolved_posts_elem (engine : Engine) (db : Database) (limit : Z) (p : Post) :
  engine_ok engine →
  p ∈ unresolved_posts engine db limit →
  ∃ k row, posts db !! k = Some row ∧ p = PostRecordM.to_model row
           ∧ pr_status row = SOLVED ∧ falsy (pr_identified_song_id row) = true.
Proof.
  intros Hok Hp. unfold unresolved_posts in Hp.
  apply list_elem_of_In, filter_In in Hp as [Hp Hfalsy].
  apply list_elem_of_In in Hp. unfold get_posts in Hp. simpl in Hp.
  apply list_elem_of_fmap in Hp as (row & -> & Hrow).
  apply sql_limit_elem, sql_offset_elem, merge_sort_elem, list_elem_of_filter in Hrow
    as [Hst Hrow].
  apply (scan_posts_elem engine _ _ Hok) in Hrow as (k & Hk).
  by exists k, row.
Qed.

Lemma make_song_id_nonempty (artist title : string) : make_song_id artist title ≠ "".
Proof.
  intros H. assert (Hl : String.length (make_song_id artist title) = 0%nat) by by rewrite H.
  unfold make_song_id, PyStr.lower in Hl.
  rewrite !map_chars_length, !string_app_length in Hl. simpl in Hl. lia.
Qed.

Lemma found_song_link (s : Song) : found_song s → falsy (Some (song_id s)) = false.
Proof.
  intros [_ Hid]. simpl. apply bool_decide_eq_false_2. rewrite Hid.
  apply make_song_id_nonempty.
Qed.

Lemma same_but_link_trans (r1 r2 r3 : PostRecord) :
  same_but_link r1 r2 → same_but_link r2 r3 → same_but_link r1 r3.
Proof. unfold same_but_link. congruence. Qed.

Lemma same_but_link_status (r r' : PostRecord) :
  same_but_link r r' → pr_status r' = pr_status r ∧ pr_id r' = pr_id r.
Proof.
  unfold same_but_link. intros H.
  split.
  - by apply (f_equal pr_status) in H.
  - by apply (f_equal pr_id) in H.
Qed.

(** The posts after a run of saves for found songs and eligible posts. *)
Lemma saves_resolve (db0 : Database) (found : list (Song * Post)) :
  Forall (fun sp => found_song sp.1
                    ∧ ∃ row, posts db0 !! post_id sp.2 = Some row
                             ∧ pr_status row = SOLVED
                             ∧ falsy (pr_identified_song_id row) = true) found →
  ∀ db1,
    (∀ k, match posts db0 !! k with
          | None => posts db1 !! k = None
          | Some row => ∃ row', posts db1 !! k = Some row' ∧ resolved_from row row'
          end) →
    ∀ k, match posts db0 !! k with
         | None => posts (run_ops (saves_of found) db1) !! k = None
         | Some row =>
             ∃ row', posts (run_ops (saves_of found) db1) !! k = Some row'
                     ∧ resolved_from row row'
         end.
Proof.
  induction found as [|[s p] found IH]; intros Hall db1 Hinv; [exact Hinv|].
  apply Forall_cons in Hall as [(Hsong & row0 & Hrow0 & Hst & Hfalsy) Hall].
  simpl. apply (IH Hall). intros k.
  pose proof (Hinv k) as Hk.
  destruct (decide (k = post_id p)) as [->|Hne].
  - simpl in Hrow0. rewrite Hrow0 in Hk |- *.
    destruct Hk as (row1 & Hrow1 & Hsame & Hchg).
    rewrite (save_song_links _ _ _ _ Hrow1). eexists. split; [done|].
    split.
    + eapply same_but_link_trans; [exact Hsame | apply set_link_same_but_link].
    + intros _. split_and!; [done | done | by apply found_song_link].
  - assert (Hsame : posts (save_song db1 s (Some p)) !! k = posts db1 !! k).
    { unfold save_song. simpl. destruct (posts db1 !! post_id p); [|done].
      by rewrite lookup_insert_ne. }
    rewrite Hsame. exact Hk.
Qed.

Lemma resolved_from_refl (row : PostRecord) : resolved_from row row.
Proof. split; [reflexivity | done]. Qed.

Lemma found_are_eligible (engine : Engine) (db : Database) (limit : Z)
      (found : list (Song * Post)) :
  engine_ok engine → db_ok db →
  (snd <$> found) `sublist_of` unresolved_posts engine db limit →
  Forall (fun sp => found_song sp.1) found →
  Forall (fun sp => found_song sp.1
                    ∧ ∃ row, posts db !! post_id sp.2 = Some row
                             ∧ pr_status row = SOLVED
                             ∧ falsy (pr_identified_song_id row) = true) found.
Proof.
  intros Hok [Hdb _] Hsub Hall. rewrite Forall_forall in Hall |- *.
  intros sp Hsp. split; [by apply Hall|].
  assert (Hin : sp.2 ∈ unresolved_posts engine db limit).
  { eapply elem_of_sublist; [|exact Hsub]. by apply list_elem_of_fmap_2. }
  apply (unresolved_posts_elem _ _ _ _ Hok) in Hin as (k & row & Hk & -> & Hst & Hf).
  exists row. simpl. rewrite (Hdb _ _ Hk). by split_and!.
Qed.

(** X20: in table [posts], [process_solved_posts] changes nothing but links.
    No post is added or removed, every row keeps every column other than
    [identified_song_id], and the link is changed only on rows that were
    SOLVED and without a link when the pass began, and only to a song id
    that is not empty. *)
Theorem process_solved_posts_only_links_solved_posts
        (engine : Engine) (rt : Runtime) (threads : ThreadSource)
        (parser_at : ParserOracle) (db : Database) (limit : Z) (tick : nat) (k : string) :
  engine_ok engine → db_ok db →
  match posts db !! k with
  | None =>
      posts (process_solved_posts engine rt threads parser_at db limit tick).1.1 !! k = None
  | Some row =>
      ∃ row',
        posts (process_solved_posts engine rt threads parser_at db limit tick).1.1 !! k
        = Some row'
        ∧ same_but_link row row'
        ∧ (pr_identified_song_id row' ≠ pr_identified_song_id row →
           pr_status row = SOLVED
           ∧ falsy (pr_identified_song_id row) = true
           ∧ falsy (pr_identified_song_id row') = false)
  end.
Proof.
  intros Hok Hdb. unfold process_solved_posts.
  destruct (process_loop_saves rt threads parser_at (unresolved_posts engine db limit)
              0%nat db 0 tick) as (found & t' & -> & Hsub & Hall).
  simpl.
  apply (saves_resolve db found
           (found_are_eligible engine db limit found Hok Hdb Hsub Hall) db).
  intros k'. destruct (posts db !! k') as [row|]; [|done].
  exists row. split; [done | apply resolved_from_refl].
Qed.

Lemma process_solved_posts_only_links_solved_posts_witness :
  let db := save_post empty_db (sample_post "t1" 100 SOLVED) in
  let db' := (process_solved_posts table_engine (sample_runtime (fun _ => []))
                (fun _ => None) (fun _ => canned_runtime "{}" "{}" (Some (JObj [])))
                db 5 0).1.1 in
  match posts db !! "t1" with
  | None => posts db' !! "t1" = None
  | Some row =>
      ∃ row', posts db' !! "t1" = Some row'
              ∧ same_but_link row row'
              ∧ (pr_identified_song_id row' ≠ pr_identified_song_id row →
                 pr_status row = SOLVED
                 ∧ falsy (pr_identified_song_id row) = true
                 ∧ falsy (pr_identified_song_id row') = false)
  end.
Proof.
  apply (process_solved_posts_only_links_solved_posts table_engine
           (sample_runtime (fun _ => [])) (fun _ => None)
           (fun _ => canned_runtime "{}" "{}" (Some (JObj [])))
           (save_post empty_db (sample_post "t1" 100 SOLVED)) 5 0%nat "t1"
           table_engine_ok).
  split; intros k row Hk.
  - rewrite save_post_row in Hk. apply lookup_insert_Some in Hk as [[<- <-]|[_ Hk]].
    + reflexivity.
    + unfold empty_db in Hk. simpl in Hk. by rewrite lookup_empty in Hk.
  - rewrite save_post_songs in Hk. unfold empty_db in Hk. simpl in Hk.
    by rewrite lookup_empty in Hk.
Defined.

(** ** Orchestrator: scraping into the store *)

Lemma scrape_in_mode_known (rt : Runtime) (subreddits : list string) (mode : string)
      (limit : Z) (tick : nat) :
  match scrape_in_mode rt subreddits mode limit tick with
  | Some _ => mode ∈ MODES
  | None => mode ∉ MODES
  end.
Proof.
  unfold scrape_in_mode, MODES.
  repeat case_bool_decide; subst.
  - apply elem_of_cons. by left.
  - apply elem_of_cons. right. apply elem_of_cons. by left.
  - apply elem_of_cons. right. apply elem_of_cons. right. apply elem_of_cons. by left.
  - intros Hin. repeat (apply elem_of_cons in Hin as [?|Hin]; [done|]).
    by apply elem_of_nil in Hin.
Qed.

Lemma enrich_post_described (prt : ParserRuntime) (post enriched : Post) :
  (enrich_post prt post).2 = Returned (Described enriched) →
  ∃ description, enriched = set_description post description.
Proof.
  unfold enrich_post.
  destruct (extract_description prt post) as [calls [[| | | | |items|extraction]|e]];
    simpl; try discriminate.
  destruct (dict_get extraction "description"); simpl; try discriminate;
    intros [= <-]; by eexists.
Qed.

Lemma enrich_post_mistyped (prt : ParserRuntime) (post p : Post) (value : json) :
  (enrich_post prt post).2 = Returned (Mistyped p value) → p = post.
Proof.
  unfold enrich_post.
  destruct (extract_description prt post) as [calls [[| | | | |items|extraction]|e]];
    simpl; try discriminate.
  destruct (dict_get extraction "description"); simpl; try discriminate;
    by intros [= <- _].
Qed.

(** With enrichment, what is saved for a post is the post with another
    description. *)
Lemma enriched_for_store_described (engine : Engine) (prt : ParserRuntime) (p q : Post) :
  enriched_for_store engine prt p = Returned q →
  ∃ description, q = set_description p description.
Proof.
  unfold enriched_for_store.
  destruct (enrich_post prt p).2 as [[enriched|p' value]|e] eqn:He; [| |discriminate].
  - intros [= <-]. by apply (enrich_post_described prt).
  - apply enrich_post_mistyped in He as ->.
    destruct (bind_description engine value); [|discriminate].
    intros [= <-]. by eexists.
Qed.

Lemma store_loop_step (engine : Engine) (parser_at : ParserOracle) (i : nat)
      (post : Post) (rest : list Post) (db : Database) (count : Z) (tick : nat) :
  store_loop engine parser_at true i (post :: rest) db count tick
  = match enriched_for_store engine (parser_at i) post with
    | Returned q =>
        store_loop engine parser_at true (S i) rest (save_post db q) (count + 1) tick
    | Raised e => Aborted db e
    end.
Proof.
  cbn [store_loop]. unfold enriched_for_store.
  destruct (enrich_post (parser_at i) post).2 as [[enriched|p value]|e]; try reflexivity.
  by destruct (bind_description engine value).
Qed.

Lemma run_ops_app (ops1 ops2 : list store_op) (db : Database) :
  run_ops (ops1 ++ ops2) db = run_ops ops2 (run_ops ops1 db).
Proof. unfold run_ops. by rewrite fold_left_app. Qed.

(** Without enrichment the loop saves every yielded post. *)
Lemma store_loop_plain (engine : Engine) (parser_at : ParserOracle) (yielded : list Post) :
  ∀ i db count tick,
    store_loop engine parser_at false i yielded db count tick
    = Finished (run_ops (SavePost <$> yielded) db)
               (count + Z.of_nat (length yielded)) tick.
Proof.
  induction yielded as [|post rest IH]; intros i db count tick.
  - simpl. f_equal. lia.
  - cbn [store_loop]. rewrite IH. simpl. f_equal. lia.
Qed.

(** With enrichment the loop saves a prefix of the yielded posts, in order,
    each as enriched, and stops only where the turn for a post raises. *)
Lemma store_loop_prefix (engine : Engine) (parser_at : ParserOracle) (yielded : list Post) :
  ∀ i db count tick,
    ∃ saved stored rest,
      yielded = saved ++ rest
      ∧ length stored = length saved
      ∧ (∀ j p, saved !! j = Some p →
                ∃ q, stored !! j = Some q
                     ∧ enriched_for_store engine (parser_at (i + j)%nat) p = Returned q)
      ∧ match store_loop engine parser_at true i yielded db count tick with
        | Finished db' n tick' =>
            db' = run_ops (SavePost <$> stored) db ∧ rest = []
            ∧ n = count + Z.of_nat (length yielded) ∧ tick' = tick
        | Aborted db' e =>
            db' = run_ops (SavePost <$> stored) db
            ∧ ∃ post rest', rest = post :: rest'
                ∧ enriched_for_store engine (parser_at (i + length saved)%nat) post
                  = Raised e
        end.
Proof.
  induction yielded as [|post rest IH]; intros i db count tick.
  - exists [], [], []. simpl. split_and!; try done. lia.
  - rewrite store_loop_step.
    destruct (enriched_for_store engine (parser_at i) post) as [q|e] eqn:Hq.
    + destruct (IH (S i) (save_post db q) (count + 1) tick)
        as (saved & stored & rest' & -> & Hlen & Hst & Hrun).
      exists (post :: saved), (q :: stored), rest'.
      split_and!; [done | by rewrite !length_cons, Hlen | |].
      * intros [|j] p Hp.
        -- injection Hp as <-. exists q. rewrite Nat.add_0_r. by split.
        -- destruct (Hst j p Hp) as (q' & Hq' & Hen). exists q'. split; [done|].
           by rewrite <- Nat.add_succ_comm.
      * destruct (store_loop engine parser_at true (S i) (saved ++ rest')
                    (save_post db q) (count + 1) tick) as [db' n tick'|db' e].
        -- destruct Hrun as (-> & -> & -> & ->). split_and!; try done.
           cbn [length app]. lia.
        -- destruct Hrun as (-> & p & r & -> & Hp). split; [done|].
           exists p, r. split; [done|]. cbn [length].
           by rewrite <- Nat.add_succ_comm.
    + exists [], [], (post :: rest). simpl. split_and!; try done.
      exists post, rest. split; [done|]. by rewrite Nat.add_0_r.
Qed.

Lemma save_posts_songs (stored : list Post) (db : Database) :
  songs (run_ops (SavePost <$> stored) db) = songs db.
Proof.
  revert db. induction stored as [|p stored IH]; intros db; [done|].
  simpl. rewrite IH. apply save_post_songs.
Qed.

Lemma save_posts_other (stored : list Post) (db : Database) (k : string) :
  k ∉ post_id <$> stored →
  posts (run_ops (SavePost <$> stored) db) !! k = posts db !! k.
Proof.
  revert db. induction stored as [|p stored IH]; intros db Hk; [done|].
  rewrite fmap_cons in Hk. apply not_elem_of_cons in Hk as [Hne Hk].
  simpl. rewrite (IH _ Hk). by apply save_post_other.
Qed.

(** After a run of [save_post] calls, an id that was saved holds the last
    post saved under it. *)
Lemma save_posts_last (stored : list Post) (db : Database) (p : Post) :
  p ∈ stored →
  ∃ q, q ∈ stored ∧ post_id q = post_id p
       ∧ get_post (run_ops (SavePost <$> stored) db) (post_id p) = Some q.
Proof.
  revert db. induction stored as [|p0 stored IH] using rev_ind; intros db Hp.
  - by apply elem_of_nil in Hp.
  - rewrite fmap_app, run_ops_app. simpl.
    destruct (decide (post_id p0 = post_id p)) as [Heq|Hne].
    + exists p0. split_and!; [apply elem_of_app; right; by left | done |].
      unfold get_post. rewrite save_post_row, <- Heq, lookup_insert_eq. simpl.
      by rewrite to_model_from_model.
    + apply elem_of_app in Hp as [Hp|Hp].
      * destruct (IH db Hp) as (q & Hq & Hid & Hget).
        exists q. split_and!; [apply elem_of_app; by left | done |].
        unfold get_post in *. rewrite save_post_other by done. exact Hget.
      * apply list_elem_of_singleton in Hp. by subst.
Qed.

(** X21: without enrichment, and the listings served in full,
    [scrape_and_store] returns the number of posts the generator yielded,
    having saved each of them: afterwards every yielded id holds a yielded
    post with that id, every other post and the whole table of songs are as
    before.  For a mode other than "new", "hot" and "solved" it raises
    before anything is scraped or written, with or without enrichment. *)
Theorem scrape_and_store_saves_every_yielded_post
        (engine : Engine) (rt : Runtime) (parser_at : ParserOracle)
        (subreddits : list string) (db : Database) (mode : string) (limit : Z)
        (tick : nat) :
  (mode ∉ MODES →
   ∀ enrich, scrape_and_store engine rt parser_at subreddits db mode limit enrich tick
             = inl (UnknownMode mode))
  ∧ (mode ∈ MODES →
     ∃ yielded tick' db',
       scrape_in_mode rt subreddits mode limit tick = Some (yielded, tick')
       ∧ scrape_and_store engine rt parser_at subreddits db mode limit false tick
         = inr (Finished db' (Z.of_nat (length yielded)) tick')
       ∧ songs db' = songs db
       ∧ (∀ p, p ∈ yielded →
            ∃ q, q ∈ yielded ∧ post_id q = post_id p
                 ∧ get_post db' (post_id p) = Some q)
       ∧ (∀ k, k ∉ post_id <$> yielded → get_post db' k = get_post db k)).
Proof.
  pose proof (scrape_in_mode_known rt subreddits mode limit tick) as Hmode.
  unfold scrape_and_store.
  destruct (scrape_in_mode rt subreddits mode limit tick) as [[yielded tick']|];
    split; intros Hm; try done.
  exists yielded, tick'. rewrite store_loop_plain.
  eexists. split_and!; [done | f_equal; f_equal; lia | apply save_posts_songs | |].
  - intros p Hp. by apply save_posts_last.
  - intros k Hk. unfold get_post. by rewrite save_posts_other.
Qed.

Lemma scrape_and_store_saves_every_yielded_post_witness :
  ∃ db',
    scrape_and_store table_engine
      (sample_runtime (fun _ => [sample_thread "t1" "tipofmytongue" "a song from a film"
                                   (Some "Music")]))
      (fun _ => canned_runtime "{}" "{}" None) ["tipofmytongue"] empty_db "hot" 10 false 0
    = inr (Finished db' 1 1%nat)
    ∧ songs db' = songs empty_db.
Proof.
  destruct (scrape_and_store_saves_every_yielded_post table_engine
              (sample_runtime (fun _ => [sample_thread "t1" "tipofmytongue"
                                           "a song from a film" (Some "Music")]))
              (fun _ => canned_runtime "{}" "{}" None) ["tipofmytongue"] empty_db
              "hot" 10 0%nat) as [_ H].
  destruct H as (yielded & tick' & db' & Hy & Hrun & Hsongs & _).
  { apply elem_of_cons. right. apply elem_of_cons. by left. }
  exists db'. split; [|exact Hsongs].
  rewrite Hrun. vm_compute in Hy. by injection Hy as <- <-.
Defined.

Lemma bind_description_refused (engine : Engine) (value : json) :
  (∃ e, bind_description engine value = Unbound e)
  ↔ match value with
    | JArr _ | JObj _ => True
    | JInt n => ¬ (- 2 ^ 63 ≤ n < 2 ^ 63)
    | _ => False
    end.
Proof.
  destruct value as [|b|n|f|s|items|fields]; simpl;
    try (split; [by intros [e He] | done]);
    try (split; [done | intros _; by eexists]).
  case_bool_decide as Hn; split.
  - by intros [e He].
  - done.
  - done.
  - intros _. by eexists.
Qed.



(** ** Orchestrator: the discovery cycle *)

(** X23: what a discovery cycle reports.  An unknown mode is rejected.  A
    failed enrichment ends the cycle before any song is processed, with no
    result.  A completed cycle reports the statistics of the store as it
    leaves it, and counts that are not negative; the resolution pass runs
    only when [process] is set and the mode is "solved": otherwise
    [songs_found] is 0 and the table of songs is as it was before the cycle.
    With a limit that is not negative [songs_found] is at most the limit. *)
Theorem discover_outcomes
        (engine : Engine) (rt : Runtime) (threads : ThreadSource)
        (enrich_at solve_at : ParserOracle) (subreddits : list string)
        (db : Database) (scrape_mode : string) (scrape_limit : Z) (process : bool)
        (tick : nat) :
  match discover engine rt threads enrich_at solve_at subreddits db
                 scrape_mode scrape_limit process tick with
  | Rejected e => e = UnknownMode scrape_mode ∧ scrape_mode ∉ MODES
  | Interrupted run =>
      scrape_and_store engine rt enrich_at subreddits db scrape_mode scrape_limit true tick
      = inr run
      ∧ match run with
        | Finished _ _ _ => False
        | Aborted db' _ => songs db' = songs db
        end
  | Completed result db2 =>
      scrape_mode ∈ MODES
      ∧ stats result = get_stats db2
      ∧ 0 ≤ posts_scraped result
      ∧ 0 ≤ songs_found result
      ∧ (0 ≤ scrape_limit → songs_found result ≤ scrape_limit)
      ∧ (process = false ∨ scrape_mode ≠ "solved" →
         songs_found result = 0 ∧ songs db2 = songs db)
  end.
Proof.
  pose proof (scrape_in_mode_known rt subreddits scrape_mode scrape_limit tick) as Hmode.
  unfold discover, scrape_and_store.
  destruct (scrape_in_mode rt subreddits scrape_mode scrape_limit tick)
    as [[yielded tick']|]; [|done].
  destruct (store_loop_prefix engine enrich_at yielded 0%nat db 0 tick')
    as (saved & stored & rest & Hsplit & _ & _ & Hrun).
  destruct (store_loop engine enrich_at true 0 yielded db 0 tick') as [db1 n t|db1 e].
  - destruct Hrun as (-> & -> & -> & ->).
    destruct (process && bool_decide (scrape_mode = "solved")) eqn:Hp.
    + unfold process_solved_posts.
      destruct (process_loop_saves rt threads solve_at
                  (unresolved_posts engine (run_ops (SavePost <$> stored) db) scrape_limit)
                  0%nat (run_ops (SavePost <$> stored) db) 0 tick')
        as (found & t' & -> & Hsub & _).
      simpl. split_and!; try done; try lia.
      * intros Hl. apply sublist_length in Hsub. rewrite length_fmap in Hsub.
        pose proof (unresolved_posts_length engine (run_ops (SavePost <$> stored) db)
                      scrape_limit Hl). lia.
      * apply andb_true_iff in Hp as [-> Hm]. apply bool_decide_eq_true in Hm.
        by intros [?|?].
    + simpl. split_and!; try done; try lia.
      intros _. split; [done | apply save_posts_songs].
  - destruct Hrun as (-> & _). split; [done | apply save_posts_songs].
Qed.

Lemma discover_outcomes_witness :
  match discover table_engine
          (sample_runtime (fun _ => [sample_thread "t1" "tipofmytongue" "a song from a film"
                                       (Some "Music")]))
          (fun _ => None)
          (fun _ => canned_runtime "{}" "{}" (Some (JObj [])))
          (fun _ => canned_runtime "{}" "{}" (Some (JObj [])))
          ["tipofmytongue"] empty_db "hot" 10 true 0 with
  | Completed result db2 =>
      posts_scraped result = 1 ∧ songs_found result = 0 ∧ songs db2 = songs empty_db
  | _ => False
  end.
Proof.
  pose proof (discover_outcomes table_engine
                (sample_runtime (fun _ => [sample_thread "t1" "tipofmytongue"
                                             "a song from a film" (Some "Music")]))
                (fun _ => None)
                (fun _ => canned_runtime "{}" "{}" (Some (JObj [])))
                (fun _ => canned_runtime "{}" "{}" (Some (JObj [])))
                ["tipofmytongue"] empty_db "hot" 10 true 0%nat) as H.
  match type of H with
  | match ?cycle with _ => _ end => remember cycle as c eqn:Hc
  end.
  vm_compute in Hc. subst c.
  destruct H as (_ & _ & _ & _ & _ & H).
  split; [reflexivity|]. apply H. by right.
Defined.
